(** * cirkit: symbolic circuits, their rewrite operators and the compiled-parameter state

    A shallow embedding of the symbolic layer of cirkit (parameter expression
    nodes, symbolic layers, symbolic circuits and their structural properties,
    the [integrate]/[multiply] operators, the layer multiplication rules) and
    of the torch parameter compilation rules, together with the properties
    that the specification states about them.

    Python objects are compared and hashed by identity: every object that is
    used as a dictionary key carries an explicit identifier.  Python
    exceptions are modelled by the [result] type. *)

From Stdlib Require Import QArith.QArith_base.
From stdpp Require Import gmap list strings.

Local Open Scope Z_scope.

(** ** Python exceptions *)

(** The exception classes that the code raises, followed by the two classes
    that only the specification's error taxonomy names ([ShapeError],
    [CyclicGraphError]); no statement of the code raises the latter two. *)
Inductive exn : Set :=
| AssertionError
| ValueError
| NotImplementedError
| IndexError
| KeyError
| StructuralPropertyError
| NoRuleError
| ShapeError
| CyclicGraphError.

#[global] Instance exn_eq_dec : EqDecision exn.
Proof. solve_decision. Defined.

Inductive result (A : Type) : Type :=
| Ok (a : A)
| Raise (e : exn).
Arguments Ok {A} a.
Arguments Raise {A} e.

#[global] Instance result_bind : MBind result := fun A B k m =>
  match m with
  | Ok a => k a
  | Raise e => Raise e
  end.

(** [assert c] of Python, with assertions enabled. *)
Definition py_assert (c : bool) : result unit :=
  if c then Ok tt else Raise AssertionError.

(** ** Python sequence indexing and slicing *)

Section PySeq.
Context {A : Type}.

(** [s[:k]] *)
Definition slice_to (s : list A) (k : Z) : list A :=
  if decide (0 <= k) then take (Z.to_nat k) s
  else take (Z.to_nat (Z.of_nat (length s) + k)) s.

(** [s[k:]] *)
Definition slice_from (s : list A) (k : Z) : list A :=
  if decide (0 <= k) then drop (Z.to_nat k) s
  else drop (Z.to_nat (Z.of_nat (length s) + k)) s.

(** [s[k]] *)
Definition index (s : list A) (k : Z) : result A :=
  let k' := if decide (0 <= k) then k else Z.of_nat (length s) + k in
  if decide (0 <= k') then
    match s !! Z.to_nat k' with
    | Some x => Ok x
    | None => Raise IndexError
    end
  else Raise IndexError.
End PySeq.

(** ** cirkit/symbolic/params.py *)

Module params.

Inductive EntrywiseOp : Set :=
| ExpOp | LogOp | SoftplusOp | ScaledSigmoidOp (vmin vmax : Q) | SigmoidOp.

Inductive ReduceOp : Set :=
| ReduceSumOp | ReduceProductOp | ReduceLSEOp.

Inductive EntrywiseReduceOp : Set :=
| LogSoftmaxOp | SoftmaxOp.

(** The parameter nodes ([Parameter_] is the class [Parameter], a keyword
    of Rocq): each constructor holds the attributes that the
    class's [__init__] stores.  The validating [__init__] functions are
    below ([HadamardParameter_init] and the like).  [ReduceSumParameter],
    [ReduceProductParameter] and [ReduceLSEParameter] inherit everything
    from [ReduceOpParameter], hence one constructor tagged by the class. *)
Inductive AbstractParameter : Type :=
| Parameter_ (shape : list Z)
| ConstantParameter (shape : list Z) (value : Q)
| HadamardParameter (opd1 opd2 : AbstractParameter)
| KroneckerParameter (opd1 opd2 : AbstractParameter)
| OuterProductParameter (opd1 opd2 : AbstractParameter) (axis : Z)
| OuterSumParameter (opd1 opd2 : AbstractParameter) (axis : Z)
| EntrywiseOpParameter (op : EntrywiseOp) (opd : AbstractParameter)
| ReduceOpParameter (op : ReduceOp) (opd : AbstractParameter) (axis : Z)
| EntrywiseReduceOpParameter (op : EntrywiseReduceOp)
    (opd : AbstractParameter) (axis : Z).

(** [tuple(s1[i] * s2[i] for i in range(len(s1)))] *)
Definition kronecker_shape (s1 s2 : list Z) : result (list Z) :=
  if decide (length s2 < length s1)%nat then Raise IndexError
  else Ok (zip_with Z.mul s1 s2).

(** [*s1[:axis], s1[axis] * s2[axis], *s1[axis + 1:]] *)
Definition cross_shape (s1 s2 : list Z) (axis : Z) : result (list Z) :=
  d1 ← index s1 axis;
  d2 ← index s2 axis;
  Ok (slice_to s1 axis ++ [d1 * d2] ++ slice_from s1 (axis + 1)).

(** The [shape] property of each class. *)
Fixpoint shape (p : AbstractParameter) : result (list Z) :=
  match p with
  | Parameter_ s => Ok s
  | ConstantParameter s _ => Ok s
  | HadamardParameter opd1 _ => shape opd1
  | KroneckerParameter opd1 opd2 =>
      s1 ← shape opd1; s2 ← shape opd2; kronecker_shape s1 s2
  | OuterProductParameter p1 p2 axis =>
      s1 ← shape p1; s2 ← shape p2; cross_shape s1 s2 axis
  | OuterSumParameter p1 p2 axis =>
      s1 ← shape p1; s2 ← shape p2; cross_shape s1 s2 axis
  | EntrywiseOpParameter _ opd => shape opd
  | ReduceOpParameter _ opd axis =>
      s ← shape opd; Ok (slice_to s axis ++ slice_from s (axis + 1))
  | EntrywiseReduceOpParameter _ opd _ => shape opd
  end.

(** [axis = axis if axis >= 0 else axis + len(shape)] *)
Definition normalize_axis (axis : Z) (s : list Z) : Z :=
  if decide (0 <= axis) then axis else axis + Z.of_nat (length s).

(** [0 <= axis < len(shape)] *)
Definition axis_in_range (axis : Z) (s : list Z) : bool :=
  bool_decide (0 <= axis) && bool_decide (axis < Z.of_nat (length s)).

Definition HadamardParameter_init (opd1 opd2 : AbstractParameter)
  : result AbstractParameter :=
  s1 ← shape opd1;
  s2 ← shape opd2;
  _ ← py_assert (bool_decide (s1 = s2));
  Ok (HadamardParameter opd1 opd2).

Definition KroneckerParameter_init (opd1 opd2 : AbstractParameter)
  : result AbstractParameter :=
  s1 ← shape opd1;
  s2 ← shape opd2;
  _ ← py_assert (bool_decide (length s1 = length s2));
  Ok (KroneckerParameter opd1 opd2).

Definition OuterProductParameter_init (opd1 opd2 : AbstractParameter)
    (axis : Z) : result AbstractParameter :=
  s1 ← shape opd1;
  s2 ← shape opd2;
  _ ← py_assert (bool_decide (length s1 = length s2));
  let axis := normalize_axis axis s1 in
  _ ← py_assert (axis_in_range axis s1);
  _ ← py_assert (bool_decide (slice_to s1 axis = slice_to s2 axis));
  _ ← py_assert
        (bool_decide (slice_from s1 (axis + 1) = slice_from s2 (axis + 1)));
  Ok (OuterProductParameter opd1 opd2 axis).

Definition OuterSumParameter_init (opd1 opd2 : AbstractParameter)
    (axis : Z) : result AbstractParameter :=
  s1 ← shape opd1;
  s2 ← shape opd2;
  _ ← py_assert (bool_decide (length s1 = length s2));
  let axis := normalize_axis axis s1 in
  _ ← py_assert (axis_in_range axis s1);
  Ok (OuterSumParameter opd1 opd2 axis).

Definition ReduceOpParameter_init (op : ReduceOp) (opd : AbstractParameter)
    (axis : Z) : result AbstractParameter :=
  s ← shape opd;
  let axis := normalize_axis axis s in
  _ ← py_assert (axis_in_range axis s);
  Ok (ReduceOpParameter op opd axis).

Definition EntrywiseReduceOpParameter_init (op : EntrywiseReduceOp)
    (opd : AbstractParameter) (axis : Z) : result AbstractParameter :=
  s ← shape opd;
  let axis := normalize_axis axis s in
  _ ← py_assert (axis_in_range axis s);
  Ok (EntrywiseReduceOpParameter op opd axis).

(** The contract of [OuterProductParameter] on operand shapes, for a
    normalised axis. *)
Definition outer_product_contract (s1 s2 : list Z) (axis : Z) : Prop :=
  length s1 = length s2 /\
  0 <= axis < Z.of_nat (length s1) /\
  slice_to s1 axis = slice_to s2 axis /\
  slice_from s1 (axis + 1) = slice_from s2 (axis + 1).

End params.

(** ** Scopes *)

(** Modelled from the spec: the class [Scope] (cirkit.utils.scope) is not
    among the sources.  A scope is an immutable set of variable indices;
    [|] is union, [&] is intersection, [<=] is inclusion, [==] is equality
    of the member sets and [len] is the cardinality. *)
Abbreviation Scope := (gset nat).

(** Modelled from the spec: a scope, as a sized collection, is truthy when
    it is not empty. *)
Definition scope_truthy (s : Scope) : bool := bool_decide (s ≠ ∅).

(** ** cirkit/symbolic/layers.py *)

Module layers.

Inductive Initializer : Set := NormalInitializer.

(** Modelled from the spec: the module cirkit.symbolic.parameters that
    layers.py imports, [PlaceholderParameter] and the Gaussian product
    parameters that operators.py imports are not among the sources.  These
    are the symbolic parameters that the layers and the layer operators
    build.  A tensor parameter is a leaf that owns a shape and an
    initializer; a
    placeholder refers to the parameter slot [name] of the layer [owner]
    and has the shape of the parameter in that slot; the shape of a
    Kronecker parameter (built without [axis], as params.py has it) and
    of a reduction are those of params.py. *)
Inductive Parameter_ : Type :=
| TensorParameter (shape : list Z) (initializer : Initializer)
| ConstantParameter (value : Q) (shape : list Z)
| PlaceholderParameter (owner : nat) (name : string) (shape : option (list Z))
| KroneckerParameter (opd1 opd2 : Parameter_) (axis : option Z)
| ReduceSumParameter (opd : Parameter_) (axis : Z)
| MeanNormalProduct (mean1 mean2 variance1 variance2 : Parameter_)
| VarianceNormalProduct (variance1 variance2 : Parameter_)
| PartitionGaussianProduct (mean1 mean2 variance1 variance2 : Parameter_).

(** Modelled from the spec: the [shape] of these parameters; [None] where
    neither the sources nor the specification determine it. *)
Fixpoint shape (p : Parameter_) : option (list Z) :=
  match p with
  | TensorParameter s _ => Some s
  | ConstantParameter _ s => Some s
  | PlaceholderParameter _ _ s => s
  | KroneckerParameter opd1 opd2 None =>
      match shape opd1, shape opd2 with
      | Some s1, Some s2 =>
          if decide (length s1 = length s2) then Some (zip_with Z.mul s1 s2)
          else None
      | _, _ => None
      end
  | KroneckerParameter _ _ (Some _) => None
  | ReduceSumParameter opd axis =>
      match shape opd with
      | Some s =>
          if decide (0 <= axis < Z.of_nat (length s))
          then Some (take (Z.to_nat axis) s ++ drop (S (Z.to_nat axis)) s)
          else None
      | None => None
      end
  | MeanNormalProduct _ _ _ _ => None
  | VarianceNormalProduct _ _ => None
  | PartitionGaussianProduct _ _ _ _ => None
  end.

Definition ParameterFactory : Type := list Z -> Parameter_.

(** The concrete layer classes.  [ConstantLayer] is the class that
    operators.py builds for an integrated input layer. *)
Inductive LayerClass : Set :=
| CategoricalLayer
| GaussianLayer
| LogPartitionLayer
| ConstantLayer
| HadamardLayer
| KroneckerLayer
| DenseLayer
| MixingLayer.

#[global] Instance LayerClass_eq_dec : EqDecision LayerClass.
Proof. solve_decision. Defined.

(** [isinstance(l, InputLayer)] *)
Definition is_InputLayer (c : LayerClass) : bool :=
  match c with
  | CategoricalLayer | GaussianLayer | LogPartitionLayer | ConstantLayer => true
  | _ => false
  end.

(** [isinstance(l, ProductLayer)] *)
Definition is_ProductLayer (c : LayerClass) : bool :=
  match c with
  | HadamardLayer | KroneckerLayer => true
  | _ => false
  end.

(** [isinstance(l, SumLayer)] *)
Definition is_SumLayer (c : LayerClass) : bool :=
  match c with
  | DenseLayer | MixingLayer => true
  | _ => false
  end.

Inductive LayerOperator : Set :=
| NOP | INTEGRATION | DIFFERENTIATION | MULTIPLICATION | CONJUGATION.

(** A layer object.  [lid] is the identity of the object (layers are
    hashed and compared by identity); [attrs] holds the parameter
    attributes that the class's [__init__] stores ([self.logits],
    [self.probs], [self.weight], ...), [None] included; [operation] is
    the [(operator, operands)] record of the layers that functional.py
    builds, the operands given by their identities. *)
Record Layer : Type := mkLayer {
  lid : nat;
  lclass : LayerClass;
  scope : Scope;
  num_input_units : Z;
  num_output_units : Z;
  arity : Z;
  num_categories : option Z;
  attrs : list (string * option Parameter_);
  operation : option (LayerOperator * list nat)
}.

(** [self.name] for a parameter attribute. *)
Definition attr (l : Layer) (name : string) : option Parameter_ :=
  match list_find (fun kv => bool_decide (kv.1 = name)) (attrs l) with
  | Some (_, (_, v)) => v
  | None => None
  end.

(** [Layer.__init__] *)
Definition Layer_init (id : nat) (cls : LayerClass) (scope : Scope)
    (num_input_units num_output_units arity : Z) : Layer :=
  mkLayer id cls scope num_input_units num_output_units arity None [] None.

(** [InputLayer.__init__]: the number of input units is the number of
    variables, the arity is the number of channels. *)
Definition InputLayer_init (id : nat) (cls : LayerClass) (scope : Scope)
    (num_output_units num_channels : Z) : Layer :=
  Layer_init id cls scope (Z.of_nat (size scope)) num_output_units num_channels.

Definition num_variables (l : Layer) : Z := num_input_units l.
Definition num_channels (l : Layer) : Z := arity l.

Definition with_attrs (l : Layer) (ncat : option Z)
    (a : list (string * option Parameter_)) : Layer :=
  mkLayer (lid l) (lclass l) (scope l) (num_input_units l)
    (num_output_units l) (arity l) ncat a (operation l).

(** [CategoricalLayer.probs_logits_shape] *)
Definition probs_logits_shape (num_output_units num_channels num_categories : Z)
  : list Z :=
  [num_output_units; num_channels; num_categories].

(** [CategoricalLayer.__init__] *)
Definition CategoricalLayer_init (id : nat) (scope : Scope)
    (num_output_units num_channels num_categories : Z)
    (logits probs : option Parameter_)
    (logits_factory probs_factory : option ParameterFactory) : result Layer :=
  if decide (size scope ≠ 1%nat) then Raise ValueError
  else if bool_decide (is_Some logits) && bool_decide (is_Some probs)
  then Raise ValueError
  else if bool_decide (is_Some logits_factory) &&
          bool_decide (is_Some probs_factory)
  then Raise ValueError
  else if decide (num_categories < 2) then Raise ValueError
  else
    let self :=
      InputLayer_init id CategoricalLayer scope num_output_units num_channels in
    let pls :=
      probs_logits_shape (layers.num_output_units self)
        (layers.num_channels self) num_categories in
    let '(logits, probs) :=
      match logits, probs with
      | None, None =>
          match logits_factory, probs_factory with
          | Some f, _ => (Some (f pls), probs)
          | None, Some g => (logits, Some (g pls))
          | None, None =>
              (Some (TensorParameter pls NormalInitializer), probs)
          end
      | _, _ => (logits, probs)
      end in
    if match logits with
       | Some p => bool_decide (shape p ≠ Some pls)
       | None => false
       end
    then Raise ValueError
    else if match probs with
            | Some p => bool_decide (shape p ≠ Some pls)
            | None => false
            end
    then Raise ValueError
    else Ok (with_attrs self (Some num_categories)
               [("probs", probs); ("logits", logits)]).

(** [CategoricalLayer.params] *)
Definition CategoricalLayer_params (l : Layer)
  : list (string * option Parameter_) :=
  match attr l "logits" with
  | None => [("probs", attr l "probs")]
  | Some p => [("logits", Some p)]
  end.

(** [HadamardLayer.__init__] *)
Definition HadamardLayer_init (id : nat) (scope : Scope)
    (num_input_units arity : Z) : result Layer :=
  if decide (arity < 2) then Raise ValueError
  else Ok (Layer_init id HadamardLayer scope num_input_units num_input_units
             arity).

(** [DenseLayer.__init__] *)
Definition DenseLayer_init (id : nat) (scope : Scope)
    (num_input_units num_output_units : Z) (weight : option Parameter_)
    (weight_factory : option ParameterFactory) : result Layer :=
  let self :=
    Layer_init id DenseLayer scope num_input_units num_output_units 1 in
  let weight_shape :=
    [layers.num_output_units self; layers.num_input_units self] in
  let weight :=
    match weight with
    | Some w => w
    | None =>
        match weight_factory with
        | None => TensorParameter weight_shape NormalInitializer
        | Some f => f weight_shape
        end
    end in
  if decide (shape weight ≠ Some weight_shape) then Raise ValueError
  else Ok (with_attrs self None [("weight", Some weight)]).

(** [MixingLayer.__init__] *)
Definition MixingLayer_init (id : nat) (scope : Scope)
    (num_units arity : Z) (weight : option Parameter_)
    (weight_factory : option ParameterFactory) : result Layer :=
  let self := Layer_init id MixingLayer scope num_units num_units arity in
  let weight_shape := [layers.num_input_units self; layers.arity self] in
  let weight :=
    match weight with
    | Some w => w
    | None =>
        match weight_factory with
        | None => TensorParameter weight_shape NormalInitializer
        | Some f => f weight_shape
        end
    end in
  if decide (shape weight ≠ Some weight_shape) then Raise ValueError
  else Ok (with_attrs self None [("weight", Some weight)]).

End layers.

(** ** Python dictionaries *)

(** A [dict] whose insertion order matters (it is iterated): an association
    list; [d[k] = v] replaces the value of an existing key in place and
    appends a new key. *)
Section dict.
Context {V : Type}.

Fixpoint dict_setitem (d : list (nat * V)) (k : nat) (v : V)
  : list (nat * V) :=
  match d with
  | [] => [(k, v)]
  | (k', v') :: d' =>
      if decide (k' = k) then (k, v) :: d'
      else (k', v') :: dict_setitem d' k v
  end.

(** [d[k]], which raises [KeyError] for a missing key. *)
Fixpoint dict_getitem (d : list (nat * V)) (k : nat) : result V :=
  match d with
  | [] => Raise KeyError
  | (k', v') :: d' => if decide (k' = k) then Ok v' else dict_getitem d' k
  end.

Definition dict_values (d : list (nat * V)) : list V := d.*2.
End dict.

(** [[f(x) for x in l]] where [f] can raise. *)
Fixpoint mapM {A B} (f : A -> result B) (l : list A) : result (list B) :=
  match l with
  | [] => Ok []
  | x :: l' => y ← f x; ys ← mapM f l'; Ok (y :: ys)
  end.

(** ** cirkit/symbolic/symb_circuit.py *)

Module symb_circuit.
Import layers.

Inductive SymbCircuitOperator : Set :=
| INTEGRATION | DIFFERENTIATION | MULTIPLICATION.

(** [SymbCircuit], with its [SymbCircuitOperation] record: the operator,
    the operand circuits and the [scope] entry of the metadata.

    [_in_layers] and [_out_layers] are keyed by layer identity.  They are
    [defaultdict(list)] objects in every circuit that the sources build
    ([from_region_graph], [integrate]): looking up a layer that is not a
    key yields the empty list. *)
#[local] Unset Elimination Schemes.
Inductive SymbCircuit : Type := mkSymbCircuit {
  scope : Scope;
  operation : option (SymbCircuitOperator * list SymbCircuit * option Scope);
  _layers : list Layer;
  _in_layers : gmap nat (list Layer);
  _out_layers : gmap nat (list Layer)
}.
#[local] Set Elimination Schemes.

(** [d[sl]] on a [defaultdict(list)]: the value and the dictionary after
    the lookup, which has gained the key when it was missing. *)
Definition defaultdict_getitem (d : gmap nat (list Layer)) (sl : Layer)
  : list Layer * gmap nat (list Layer) :=
  match d !! lid sl with
  | Some v => (v, d)
  | None => ([], <[lid sl := []]> d)
  end.

(** The value of [d[sl]] alone. *)
Definition defaultdict_value (d : gmap nat (list Layer)) (sl : Layer)
  : list Layer :=
  default [] (d !! lid sl).

Definition num_variables (sc : SymbCircuit) : nat := size (scope sc).

Definition layer_inputs (sc : SymbCircuit) (sl : Layer) : list Layer :=
  defaultdict_value (_in_layers sc) sl.

Definition layer_outputs (sc : SymbCircuit) (sl : Layer) : list Layer :=
  defaultdict_value (_out_layers sc) sl.

(** *** Layer views *)

Definition layers (sc : SymbCircuit) : list Layer := _layers sc.

Definition input_layers (sc : SymbCircuit) : list Layer :=
  filter (fun l => is_InputLayer (lclass l) = true) (layers sc).

Definition sum_layers (sc : SymbCircuit) : list Layer :=
  filter (fun l => is_SumLayer (lclass l) = true) (layers sc).

Definition product_layers (sc : SymbCircuit) : list Layer :=
  filter (fun l => is_ProductLayer (lclass l) = true) (layers sc).

Definition output_layers (sc : SymbCircuit) : list Layer :=
  filter (fun l => layer_outputs sc l = []) (layers sc).

Definition inner_layers (sc : SymbCircuit) : list Layer :=
  filter (fun l => layer_inputs sc l <> []) (layers sc).

(** *** Structural properties *)

(** [itertools.combinations(l, 2)] *)
Fixpoint combinations2 {A} (l : list A) : list (A * A) :=
  match l with
  | [] => []
  | x :: l' => map (pair x) l' ++ combinations2 l'
  end.

Definition is_smooth (sc : SymbCircuit) : bool :=
  forallb
    (fun sum_sl =>
       forallb
         (fun in_sl =>
            bool_decide (layers.scope sum_sl = layers.scope in_sl))
         (layer_inputs sc sum_sl))
    (sum_layers sc).

Definition is_decomposable (sc : SymbCircuit) : bool :=
  negb
    (existsb
       (fun prod_sl =>
          existsb
            (fun '(lhs_in_sl, rhs_in_sl) =>
               scope_truthy
                 (layers.scope lhs_in_sl ∩ layers.scope lhs_in_sl))
            (combinations2 (layer_inputs sc prod_sl)))
       (product_layers sc)).

Definition is_compatible (self oth : SymbCircuit) (scope : option (list nat))
  : bool :=
  if negb (is_smooth self) then false
  else if negb (is_decomposable self) then false
  else false.

Definition is_structured_decomposable (sc : SymbCircuit) : bool :=
  is_compatible sc sc None.

Definition is_omni_compatible (sc : SymbCircuit) : bool :=
  if negb (is_smooth sc) then false
  else if negb (is_decomposable sc) then false
  else false.

(** The property that the specification states for decomposability, in
    the specification's words (not what [is_decomposable] computes): the
    direct inputs of every product layer have pairwise disjoint scopes. *)
Definition inputs_pairwise_disjoint (sc : SymbCircuit) : Prop :=
  forall prod_sl, prod_sl ∈ layers sc ->
    is_ProductLayer (lclass prod_sl) = true ->
    forall i j x y, i <> j ->
      layer_inputs sc prod_sl !! i = Some x ->
      layer_inputs sc prod_sl !! j = Some y ->
      layers.scope x ∩ layers.scope y = ∅.

(** *** Topological ordering *)

(** The outcome of the search for an ordering: the ordering, no ordering
    because of a cycle ([None] in Python), or the recursion budget of this
    model used up (which the budget of [layers_topological_ordering]
    excludes, see [topological_ordering_budget]). *)
Inductive search : Type :=
| Found (ordering : list Layer)
| Cyclic
| Exhausted.

Section topological_ordering.
(** [incomings_fn] is a callable that can change the state [St] that it
    closes over. *)
Context {St : Type} (incomings_fn : Layer -> St -> list Layer * St).

(** Modelled from the spec: cirkit/utils/algorithms.py is not among the
    sources.  The incoming nodes of a node are visited in their order,
    until one of them shows that there is no ordering. *)
Fixpoint visit_all (visit : list Layer -> Layer -> St -> search * St)
    (ins : list Layer) (ordering : list Layer) (s : St) : search * St :=
  match ins with
  | [] => (Found ordering, s)
  | n :: ins' =>
      match visit ordering n s with
      | (Found ordering', s') => visit_all visit ins' ordering' s'
      | r => r
      end
  end.

(** Modelled from the spec: cirkit/utils/algorithms.py is not among the
    sources.  The search is depth first: a node that is in the ordering is
    skipped, a node is put in the ordering once all its incoming nodes are,
    and there is no valid ordering when a node is reached again while its
    incoming nodes are being visited ([path] holds the nodes being
    visited). *)
Fixpoint visit (budget : nat) (path : list nat) (ordering : list Layer)
    (n : Layer) (s : St) : search * St :=
  match budget with
  | O => (Exhausted, s)
  | S budget' =>
      if bool_decide (lid n ∈ lid <$> ordering) then (Found ordering, s)
      else if bool_decide (lid n ∈ path) then (Cyclic, s)
      else
        let '(ins, s1) := incomings_fn n s in
        match visit_all (visit budget' (lid n :: path)) ins ordering s1 with
        | (Found ordering', s2) => (Found (ordering' ++ [n]), s2)
        | r => r
        end
  end.

(** Modelled from the spec: cirkit/utils/algorithms.py is not among the
    sources.  [topological_ordering(roots, incomings_fn)] recomputes a
    topological order from the roots backward through [incomings_fn]; it
    is deterministic given the iteration order of the roots and of the
    incoming nodes, and returns [None] when there is no valid order. *)
Definition topological_ordering (budget : nat) (roots : list Layer)
    (s : St) : search * St :=
  visit_all (visit budget []) roots [] s.
End topological_ordering.

(** The generator [output_layers] run to its end, with the dictionary
    [_out_layers] threaded through the lookups. *)
Fixpoint run_output_layers (ls : list Layer) (out : gmap nat (list Layer))
  : list Layer * gmap nat (list Layer) :=
  match ls with
  | [] => ([], out)
  | l :: ls' =>
      let '(v, out1) := defaultdict_getitem out l in
      let '(r, out2) := run_output_layers ls' out1 in
      (match v with [] => l :: r | _ => r end, out2)
  end.

(** The number of layer occurrences in the values of a dictionary. *)
Definition occurrences (d : gmap nat (list Layer)) : nat :=
  sum_list_with (fun kv => length kv.2) (map_to_list d).

(** One more than the number of layer occurrences in the layer list and
    in the values of the dictionary: no path of distinct layers is
    longer. *)
Definition topological_ordering_budget (ls : list Layer)
    (d : gmap nat (list Layer)) : nat :=
  S (length ls + occurrences d).

(** [layers_topological_ordering]: the result and the circuit after the
    call.  [set_iter] is the order in which CPython iterates over
    [set(self.output_layers)], a function of the layers put in the set.
    The first component is [None] only when the budget of the model is
    used up. *)
Definition layers_topological_ordering
    (set_iter : list Layer -> list Layer) (sc : SymbCircuit)
  : option (result (list Layer)) * SymbCircuit :=
  let '(outs, out') := run_output_layers (_layers sc) (_out_layers sc) in
  let budget := topological_ordering_budget (_layers sc) (_in_layers sc) in
  let '(ordering, in') :=
    topological_ordering (fun sl d => defaultdict_getitem d sl)
      budget (set_iter outs) (_in_layers sc) in
  (match ordering with
   | Found o => Some (Ok o)
   | Cyclic => Some (Raise ValueError)
   | Exhausted => None
   end,
   mkSymbCircuit (scope sc) (operation sc) (_layers sc) in' out').

(** *** Notions used to state the properties of the ordering *)

(** Two dictionaries that answer every lookup alike and hold as many layer
    occurrences: a lookup in a [defaultdict] leaves such a dictionary. *)
Definition same_values (d d' : gmap nat (list Layer)) : Prop :=
  (forall sl, defaultdict_value d sl = defaultdict_value d' sl) /\
  occurrences d = occurrences d'.

(** [takes inc a b]: the layer [b] is an incoming layer of [a]. *)
Definition takes (inc : Layer -> list Layer) (a b : Layer) : Prop :=
  b ∈ inc a.

(** Every layer of the ordering comes after its incoming layers. *)
Definition respects (inc : Layer -> list Layer) (ordering : list Layer)
  : Prop :=
  forall i a, ordering !! i = Some a ->
    forall b, b ∈ inc a -> lid b ∈ lid <$> take i ordering.

(** A cycle of the layer adjacency can be reached backward from an output
    layer. *)
Definition cycle_reachable (sc : SymbCircuit) : Prop :=
  exists o x,
    o ∈ output_layers sc /\
    rtc (takes (layer_inputs sc)) o x /\
    tc (takes (layer_inputs sc)) x x.

(** [set(...)] as a sequence without repetition, in the order of the first
    occurrences: one of the orders in which a set can be iterated. *)
Fixpoint first_occurrences (seen : list nat) (ls : list Layer) : list Layer :=
  match ls with
  | [] => []
  | l :: ls' =>
      if bool_decide (lid l ∈ seen) then first_occurrences seen ls'
      else l :: first_occurrences (lid l :: seen) ls'
  end.

End symb_circuit.

(** ** cirkit/symbolic/operators.py *)

Module operators.
Import layers.

(** Modelled from the spec: [CircuitBlock] is not among the sources;
    [CircuitBlock.from_layer] wraps one layer in a block. *)
Definition from_layer (sl : Layer) : list Layer := [sl].

(** Modelled from the spec: [PlaceholderParameter(sl, name)], which is not
    among the sources, refers to the parameter slot [name] of [sl] and has
    the shape of the parameter in that slot. *)
Definition PlaceholderParameter_init (sl : Layer) (name : string)
  : Parameter_ :=
  PlaceholderParameter (lid sl) name (attr sl name ≫= shape).

(** Modelled from the spec: the constructors of the input layers as
    operators.py calls them, [cls(scope, num_output_units, num_channels,
    **parameters)], are not among the sources; the attributes are those
    of [InputLayer.__init__] and the given parameters. *)
Definition InputLayer_with (id : nat) (cls : LayerClass) (scope : Scope)
    (num_output_units num_channels : Z)
    (parameters : list (string * option Parameter_)) : Layer :=
  with_attrs (InputLayer_init id cls scope num_output_units num_channels)
    None parameters.

(** [integrate_ef_layer]; [id] is the identity of the layer it creates. *)
Definition integrate_ef_layer (sl : Layer) (scope : option Scope) (id : nat)
  : result (list Layer) :=
  let scope := default (layers.scope sl) scope in
  _ ← py_assert (bool_decide (layers.scope sl = scope));
  let sv :=
    match attr sl "partition" with
    | None => ConstantParameter 1 [num_output_units sl]
    | Some _ => PlaceholderParameter_init sl "partition"
    end in
  let sl :=
    InputLayer_with id ConstantLayer (layers.scope sl) (num_output_units sl)
      (num_channels sl) [("value", Some sv)] in
  Ok (from_layer sl).

Definition multiply_categorical_layers (lhs rhs : Layer) (id : nat)
  : result (list Layer) :=
  _ ← py_assert (bool_decide (num_channels lhs = num_channels rhs));
  let sl_probs :=
    KroneckerParameter (PlaceholderParameter_init lhs "probs")
      (PlaceholderParameter_init rhs "probs") (Some 2) in
  let sl :=
    InputLayer_with id CategoricalLayer (scope lhs ∪ scope rhs)
      (num_output_units lhs * num_input_units rhs) (num_channels lhs)
      [("probs", Some sl_probs);
       ("partition", Some (ReduceSumParameter sl_probs 3))] in
  Ok (from_layer sl).

Definition multiply_gaussian_layers (lhs rhs : Layer) (id : nat)
  : result (list Layer) :=
  _ ← py_assert (bool_decide (num_channels lhs = num_channels rhs));
  let mean_lhs := PlaceholderParameter_init lhs "mean" in
  let mean_rhs := PlaceholderParameter_init rhs "mean" in
  let variance_lhs := PlaceholderParameter_init lhs "variance" in
  let variance_rhs := PlaceholderParameter_init rhs "variance" in
  let sl :=
    InputLayer_with id GaussianLayer (scope lhs ∪ scope rhs)
      (num_output_units lhs * num_input_units rhs) (num_channels lhs)
      [("mean",
        Some (MeanNormalProduct mean_lhs mean_rhs variance_lhs variance_rhs));
       ("variance", Some (VarianceNormalProduct variance_lhs variance_rhs));
       ("partition",
        Some (PartitionGaussianProduct mean_lhs mean_rhs variance_lhs
                variance_rhs))] in
  Ok (from_layer sl).

Definition multiply_hadamard_layers (lhs rhs : Layer) (id : nat)
  : result (list Layer) :=
  sl ← HadamardLayer_init id (scope lhs ∪ scope rhs)
         (num_input_units lhs * num_input_units rhs)
         (Z.max (arity lhs) (arity rhs));
  Ok (from_layer sl).

Definition multiply_dense_layers (lhs rhs : Layer) (id : nat)
  : result (list Layer) :=
  sl ← DenseLayer_init id (scope lhs ∪ scope rhs)
         (num_input_units lhs * num_input_units rhs)
         (num_output_units lhs * num_output_units rhs)
         (Some (KroneckerParameter (PlaceholderParameter_init lhs "weight")
                  (PlaceholderParameter_init rhs "weight") None))
         None;
  Ok (from_layer sl).

Definition multiply_mixing_layers (lhs rhs : Layer) (id : nat)
  : result (list Layer) :=
  sl ← MixingLayer_init id (scope lhs ∪ scope rhs)
         (num_input_units lhs * num_input_units rhs)
         (arity lhs * arity rhs)
         (Some (KroneckerParameter (PlaceholderParameter_init lhs "weight")
                  (PlaceholderParameter_init rhs "weight") None))
         None;
  Ok (from_layer sl).

End operators.

(** ** cirkit/symbolic/functional.py *)

Module functional.
Import layers symb_circuit.

(** The key of a rule in the registry: a concrete layer class, or the
    base class of the input layers (the fallback of [integrate]). *)
Inductive RuleKey : Set :=
| ExactClass (cls : LayerClass)
| AnyInputLayer.

(** A rule applied by [integrate]: from an input layer and the identity
    available for the layer it creates to the new layer. *)
Definition LayerOperatorFunc : Type := Layer -> nat -> result Layer.

(** Modelled from the spec: the registry class is not among the sources.
    It maps (operator, layer type) to a rewrite function; retrieving a
    rule that is not registered fails with [NoRuleError]. *)
Record SymOperatorRegistry : Type := mkRegistry {
  rules : LayerOperator -> RuleKey -> option LayerOperatorFunc
}.

(** Modelled from the spec: [registry.has_rule(op, cls)]. *)
Definition has_rule (registry : SymOperatorRegistry) (op : LayerOperator)
    (key : RuleKey) : bool :=
  bool_decide (is_Some (rules registry op key)).

(** Modelled from the spec: [registry.retrieve_rule(op, cls)]. *)
Definition retrieve_rule (registry : SymOperatorRegistry)
    (op : LayerOperator) (key : RuleKey) : result LayerOperatorFunc :=
  match rules registry op key with
  | Some func => Ok func
  | None => Raise NoRuleError
  end.

(** The registry of [DEFAULT_OPERATOR_RULES] as far as integration goes:
    [integrate_ef_layer] for the exponential-family input layers. *)
Definition default_registry : SymOperatorRegistry :=
  mkRegistry (fun op key =>
    match op, key with
    | layers.INTEGRATION, ExactClass CategoricalLayer
    | layers.INTEGRATION, ExactClass GaussianLayer =>
        Some (fun sl id =>
                b ← operators.integrate_ef_layer sl None id;
                index b 0)
    | _, _ => None
    end).

(** The state of the loop of [integrate]: the three dictionaries and the
    identity of the next object to be created. *)
Record rewrite : Type := mkRewrite {
  map_layers : list (nat * Layer);
  in_layers : gmap nat (list Layer);
  out_layers : gmap nat (list Layer);
  next_id : nat
}.

(** Modelled from the spec: the constructors of the sum and product
    layers as functional.py calls them,
    [type(sl)(sl.scope, sl.num_units, arity=sl.arity, operation=...)], are
    not among the sources.  The call builds a new layer of the class of
    [sl] with its scope, numbers of units and arity, which records that it
    is a copy ([NOP]) of [sl]. *)
Definition copy_layer (id : nat) (sl : Layer) : Layer :=
  mkLayer id (lclass sl) (layers.scope sl) (num_input_units sl)
    (num_output_units sl) (arity sl) (num_categories sl) []
    (Some (NOP, [lid sl])).

(** The rule that [integrate] retrieves for the input layer [sl]: the rule
    registered for the class of [sl] if there is one, the fallback rule of
    the input layers otherwise. *)
Definition integration_rule (registry : SymOperatorRegistry) (sl : Layer)
  : result LayerOperatorFunc :=
  if has_rule registry layers.INTEGRATION (ExactClass (lclass sl))
  then retrieve_rule registry layers.INTEGRATION (ExactClass (lclass sl))
  else retrieve_rule registry layers.INTEGRATION AnyInputLayer.

(** The body of the loop [for sl in sc.layers] of [integrate]. *)
Definition integrate_layer (registry : SymOperatorRegistry) (sc : SymbCircuit)
    (scope : Scope) (st : rewrite) (sl : Layer) : result rewrite :=
  if is_InputLayer (lclass sl) && scope_truthy (layers.scope sl ∩ scope) then
    if negb (bool_decide (layers.scope sl ⊆ scope))
    then Raise NotImplementedError
    else
      func ← integration_rule registry sl;
      new_sl ← func sl (next_id st);
      Ok (mkRewrite (dict_setitem (map_layers st) (lid sl) new_sl)
            (in_layers st) (out_layers st) (S (next_id st)))
  else
    _ ← py_assert (is_SumLayer (lclass sl) || is_ProductLayer (lclass sl));
    new_sl_inputs ←
      mapM (fun isl => dict_getitem (map_layers st) (lid isl))
        (layer_inputs sc sl);
    let new_sl := copy_layer (next_id st) sl in
    Ok (mkRewrite (dict_setitem (map_layers st) (lid sl) new_sl)
          (<[lid new_sl := new_sl_inputs]> (in_layers st))
          (foldl (fun out isl => <[lid isl := new_sl_inputs]> out)
             (out_layers st) new_sl_inputs)
          (S (next_id st))).

Fixpoint integrate_layers (registry : SymOperatorRegistry) (sc : SymbCircuit)
    (scope : Scope) (st : rewrite) (ls : list Layer) : result rewrite :=
  match ls with
  | [] => Ok st
  | sl :: ls' =>
      st' ← integrate_layer registry sc scope st sl;
      integrate_layers registry sc scope st' ls'
  end.

(** [integrate(sc, scope, registry)]; [fresh] is the identity of the
    first object that the call creates (an identity that no existing
    layer has). *)
Definition integrate (sc : SymbCircuit) (scope : option Scope)
    (registry : SymOperatorRegistry) (fresh : nat) : result SymbCircuit :=
  if negb (is_smooth sc) || negb (is_decomposable sc)
  then Raise StructuralPropertyError
  else
    let scope := default (symb_circuit.scope sc) scope in
    if bool_decide (scope ∪ symb_circuit.scope sc ≠ symb_circuit.scope sc)
    then Raise ValueError
    else
      st ← integrate_layers registry sc scope (mkRewrite [] ∅ ∅ fresh)
             (layers sc);
      Ok (mkSymbCircuit (symb_circuit.scope sc)
            (Some (symb_circuit.INTEGRATION, [sc], Some scope))
            (dict_values (map_layers st)) (in_layers st) (out_layers st)).

(** [multiply]: the body after the check is [...], the function returns
    [None]. *)
Definition multiply (lhs_sc rhs_sc : SymbCircuit) : result (option SymbCircuit) :=
  if negb (is_compatible lhs_sc rhs_sc None)
  then Raise StructuralPropertyError
  else Ok None.

(** *** Well-formedness of the operands of [integrate] *)

(** The layer list is in topological order: the inputs of every layer that
    is not an input layer are listed before it ([seen] holds the
    identities of the layers listed so far). *)
Fixpoint inputs_listed_before (sc : SymbCircuit) (seen : list nat)
    (ls : list Layer) : bool :=
  match ls with
  | [] => true
  | sl :: ls' =>
      (is_InputLayer (lclass sl) ||
       forallb (fun isl => bool_decide (lid isl ∈ seen)) (layer_inputs sc sl))
      && inputs_listed_before sc (lid sl :: seen) ls'
  end.

(** The registry has an integration rule for every input layer of the
    circuit, and the rule builds a layer. *)
Definition rules_apply (registry : SymOperatorRegistry) (sc : SymbCircuit)
  : Prop :=
  forall sl, sl ∈ layers sc -> is_InputLayer (lclass sl) = true ->
    exists func, integration_rule registry sl = Ok func /\
      forall id, exists new_sl, func sl id = Ok new_sl.

End functional.

(** ** cirkit/backend/torch/rules/parameters.py *)

Module torch_parameters.
Import layers.

(** The members of [DataType] that [_retrieve_dtype] handles; it raises
    [ValueError] for any other value. *)
Inductive DataType : Set := INTEGER | REAL | COMPLEX.

Inductive torch_dtype : Set :=
| int64 | default_float_dtype | default_complex_dtype.

Definition _retrieve_dtype (dtype : DataType) : torch_dtype :=
  match dtype with
  | INTEGER => int64
  | REAL => default_float_dtype
  | COMPLEX => default_complex_dtype
  end.

(** Modelled from the spec: the symbolic leaf parameters
    (cirkit.symbolic.parameters) are not among the sources; the records
    hold the attributes that the compilation rules read.  [pid] is the
    identity of the node. *)
Record TensorParameter : Type := mkTensorParameter {
  pid : nat;
  shape : list Z;
  learnable : bool;
  initializer : Initializer;
  dtype : DataType
}.

(** Modelled from the spec: a constant leaf, with the attributes that
    [compile_constant_parameter] reads; [cid] is the identity of the
    node. *)
Record ConstantParameter : Type := mkConstantParameter {
  cid : nat;
  cshape : list Z;
  cinitializer : Initializer
}.

Section compile.
(** The compiled initializers, and [compiler.compile_initializer]. *)
Context {TorchInitializer : Type}
        (compile_initializer : Initializer -> TorchInitializer).

(** Modelled from the spec: the torch parameter classes are not among
    the sources.  A materialised torch tensor parameter holds the
    arguments that the rules pass to its constructor; [tid] is the
    identity of the object, that is, of its storage, and [tdtype] is
    [None] when the constructor is called without [dtype]. *)
Record TorchTensorParameter : Type := mkTorchTensorParameter {
  tid : nat;
  tshape : list Z;
  requires_grad : bool;
  initializer_ : TorchInitializer;
  tdtype : option torch_dtype
}.

(** Modelled from the spec: what a compilation rule for a leaf returns,
    the tensor parameter it has just materialised or a pointer parameter,
    which references a materialised one and holds a fold index (no storage
    of its own). *)
Inductive TorchParameterNode : Type :=
| Materialized (p : TorchTensorParameter)
| TorchPointerParameter (p : TorchTensorParameter) (fold_idx : Z).

(** Modelled from the spec: the compiler and its state are not among
    the sources.  The state maps the identity of a symbolic parameter to
    the pair of its compiled parameter and a fold index; it only ever
    gains entries.  [registered_fold_idx] is the fold index that
    [register_compiled_parameter(p, compiled_p)] records.  [objects]
    lists the tensor parameters materialised so far, the identity of a
    new one being their number. *)
Record TorchCompiler : Type := mkTorchCompiler {
  state : gmap nat (TorchTensorParameter * Z);
  objects : list TorchTensorParameter
}.

Variable registered_fold_idx : Z.

(** Modelled from the spec: [state.has_compiled_parameter(p)]. *)
Definition has_compiled_parameter (st : gmap nat (TorchTensorParameter * Z))
    (p : nat) : bool :=
  bool_decide (is_Some (st !! p)).

(** Modelled from the spec: [state.retrieve_compiled_parameter(p)], the
    compiled parameter and its fold index. *)
Definition retrieve_compiled_parameter
    (st : gmap nat (TorchTensorParameter * Z)) (p : nat)
  : result (TorchTensorParameter * Z) :=
  match st !! p with
  | Some r => Ok r
  | None => Raise KeyError
  end.

(** Modelled from the spec: [state.register_compiled_parameter(p,
    compiled_p)]; a registration is never overwritten. *)
Definition register_compiled_parameter
    (st : gmap nat (TorchTensorParameter * Z)) (p : nat)
    (compiled_p : TorchTensorParameter)
  : gmap nat (TorchTensorParameter * Z) :=
  match st !! p with
  | Some _ => st
  | None => <[p := (compiled_p, registered_fold_idx)]> st
  end.

(** [compile_tensor_parameter]: the result and the compiler after the
    call. *)
Definition compile_tensor_parameter (compiler : TorchCompiler)
    (p : TensorParameter) : result TorchParameterNode * TorchCompiler :=
  if has_compiled_parameter (state compiler) (pid p) then
    match retrieve_compiled_parameter (state compiler) (pid p) with
    | Ok (compiled_p, fold_idx) =>
        (Ok (TorchPointerParameter compiled_p fold_idx), compiler)
    | Raise e => (Raise e, compiler)
    end
  else
    let initializer_ := compile_initializer (initializer p) in
    let dtype := _retrieve_dtype (dtype p) in
    let compiled_p :=
      mkTorchTensorParameter (length (objects compiler)) (shape p)
        (learnable p) initializer_ (Some dtype) in
    (Ok (Materialized compiled_p),
     mkTorchCompiler
       (register_compiled_parameter (state compiler) (pid p) compiled_p)
       (objects compiler ++ [compiled_p])).

(** [compile_constant_parameter] *)
Definition compile_constant_parameter (compiler : TorchCompiler)
    (p : ConstantParameter) : result TorchParameterNode * TorchCompiler :=
  if has_compiled_parameter (state compiler) (cid p) then
    match retrieve_compiled_parameter (state compiler) (cid p) with
    | Ok (compiled_p, fold_idx) =>
        (Ok (TorchPointerParameter compiled_p fold_idx), compiler)
    | Raise e => (Raise e, compiler)
    end
  else
    let initializer_ := compile_initializer (cinitializer p) in
    let compiled_p :=
      mkTorchTensorParameter (length (objects compiler)) (cshape p)
        false initializer_ None in
    (Ok (Materialized compiled_p),
     mkTorchCompiler
       (register_compiled_parameter (state compiler) (cid p) compiled_p)
       (objects compiler ++ [compiled_p])).

(** A compilation request for a leaf, as the compilation of the
    circuits of a pipeline issues them. *)
Inductive request : Type :=
| CompileTensor (p : TensorParameter)
| CompileConstant (p : ConstantParameter).

(** The identity of the symbolic parameter of a request. *)
Definition request_id (r : request) : nat :=
  match r with
  | CompileTensor p => pid p
  | CompileConstant p => cid p
  end.

Definition compile_leaf (compiler : TorchCompiler) (r : request)
  : result TorchParameterNode * TorchCompiler :=
  match r with
  | CompileTensor p => compile_tensor_parameter compiler p
  | CompileConstant p => compile_constant_parameter compiler p
  end.

(** The compiler after a sequence of requests. *)
Definition compile_leaves (compiler : TorchCompiler) (rs : list request)
  : TorchCompiler :=
  foldl (fun c r => (compile_leaf c r).2) compiler rs.

End compile.

End torch_parameters.

(** ** Example circuits *)

Module examples.
Import layers symb_circuit.

(** A univariate input layer over variable [v] alone. *)
Definition input_over (id : nat) (v : nat) (num_output_units : Z) : Layer :=
  InputLayer_init id CategoricalLayer {[v]} num_output_units 1.

(** One input layer over variable 0 and nothing else. *)
Definition single_input : SymbCircuit :=
  mkSymbCircuit {[0%nat]} None [input_over 0 0 1] ∅ ∅.

(** Two input layers over the variables 0 and 1 that feed one Hadamard
    product layer over [{0, 1}]. *)
Definition product_of_two : SymbCircuit :=
  let a := input_over 0 0 1 in
  let b := input_over 1 1 1 in
  let p := Layer_init 2 HadamardLayer {[0%nat; 1%nat]} 1 1 2 in
  mkSymbCircuit {[0%nat; 1%nat]} None [a; b; p]
    {[2%nat := [a; b]]} {[0%nat := [p]; 1%nat := [p]]}.

(** Two categorical layers over variable 0 with 2 and 3 output units, one
    channel and two categories. *)
Definition categorical_2 : Layer :=
  operators.InputLayer_with 0 CategoricalLayer {[0%nat]} 2 1
    [("probs", Some (TensorParameter [2; 1; 2] NormalInitializer));
     ("partition", None)].

Definition categorical_3 : Layer :=
  operators.InputLayer_with 1 CategoricalLayer {[0%nat]} 3 1
    [("probs", Some (TensorParameter [3; 1; 2] NormalInitializer));
     ("partition", None)].

(** Two Gaussian layers over variable 0 with 2 and 3 output units. *)
Definition gaussian_2 : Layer :=
  operators.InputLayer_with 0 GaussianLayer {[0%nat]} 2 1
    [("mean", Some (TensorParameter [2; 1] NormalInitializer));
     ("variance", Some (TensorParameter [2; 1] NormalInitializer));
     ("partition", None)].

Definition gaussian_3 : Layer :=
  operators.InputLayer_with 1 GaussianLayer {[0%nat]} 3 1
    [("mean", Some (TensorParameter [3; 1] NormalInitializer));
     ("variance", Some (TensorParameter [3; 1] NormalInitializer));
     ("partition", None)].

(** A compiler that has compiled nothing, the initializers being compiled
    to themselves, and requests for a tensor and a constant parameter. *)
Definition empty_compiler : torch_parameters.TorchCompiler :=
  torch_parameters.mkTorchCompiler (TorchInitializer := Initializer) ∅ [].

Definition tensor_request : torch_parameters.request :=
  torch_parameters.CompileTensor
    (torch_parameters.mkTensorParameter 7 [2; 3] true NormalInitializer
       torch_parameters.REAL).

Definition constant_request : torch_parameters.request :=
  torch_parameters.CompileConstant
    (torch_parameters.mkConstantParameter 8 [2] NormalInitializer).

(** A categorical input layer over variable 0 that feeds a dense layer. *)
Definition input_then_dense : SymbCircuit :=
  let d :=
    with_attrs (Layer_init 1 DenseLayer {[0%nat]} 2 1 1) None
      [("weight", Some (TensorParameter [1; 2] NormalInitializer))] in
  mkSymbCircuit {[0%nat]} None [categorical_2; d]
    {[1%nat := [categorical_2]]} {[0%nat := [d]]}.

(** Two input layers over the variables 0 and 1, not connected. *)
Definition two_inputs : SymbCircuit :=
  mkSymbCircuit {[0%nat; 1%nat]} None
    [categorical_2;
     operators.InputLayer_with 1 CategoricalLayer {[1%nat]} 3 1
       [("probs", Some (TensorParameter [3; 1; 2] NormalInitializer));
        ("partition", None)]]
    ∅ ∅.

(** Three dense layers [a], [b], [c] over variable 0: [a] and [b] feed
    each other, and [a] feeds the output layer [c]. *)
Definition cycle_below_output : SymbCircuit :=
  let a := Layer_init 0 DenseLayer {[0%nat]} 1 1 1 in
  let b := Layer_init 1 DenseLayer {[0%nat]} 1 1 1 in
  let c := Layer_init 2 DenseLayer {[0%nat]} 1 1 1 in
  mkSymbCircuit {[0%nat]} None [a; b; c]
    {[0%nat := [b]; 1%nat := [a]; 2%nat := [a]]}
    {[0%nat := [b; c]; 1%nat := [a]]}.

(** Two dense layers that feed each other and nothing else: the circuit
    has no output layer. *)
Definition closed_cycle : SymbCircuit :=
  let a := Layer_init 0 DenseLayer {[0%nat]} 1 1 1 in
  let b := Layer_init 1 DenseLayer {[0%nat]} 1 1 1 in
  mkSymbCircuit {[0%nat]} None [a; b]
    {[0%nat := [b]; 1%nat := [a]]}
    {[0%nat := [b]; 1%nat := [a]]}.

End examples.

(** ** The compiler state as the compilation rules leave it *)

Module compiler_invariant.
Import torch_parameters.

Section consistent.
Context {TorchInitializer : Type}.

(** The materialised objects and the registrations of a compiler agree:
    the identity of an object is its position among the objects, every
    registered parameter references one of the objects, two registered
    parameters reference different objects, and every object is
    referenced by a registration. *)
Definition consistent
    (compiler : TorchCompiler (TorchInitializer := TorchInitializer)) : Prop :=
  (forall i t, objects compiler !! i = Some t -> tid t = i) /\
  (forall p t f, state compiler !! p = Some (t, f) ->
     objects compiler !! tid t = Some t) /\
  (forall p q t f t' f',
     state compiler !! p = Some (t, f) -> state compiler !! q = Some (t', f') ->
     tid t = tid t' -> p = q) /\
  (forall t, t ∈ objects compiler ->
     exists p f, state compiler !! p = Some (t, f)).

End consistent.

End compiler_invariant.

(** ** The circuit that [integrate] returns *)

Module integral_circuit.
Import layers symb_circuit functional.

(** The layer that [integrate] builds for the layer [sl] of its operand,
    the new object having the identity [id]: the result of the integration
    rule for an input layer, a copy for a sum or a product layer. *)
Definition integrated (registry : SymOperatorRegistry) (id : nat)
    (sl new_sl : Layer) : Prop :=
  if is_InputLayer (lclass sl)
  then exists func,
         integration_rule registry sl = Ok func /\ func sl id = Ok new_sl
  else new_sl = copy_layer id sl.

(** The layers of a circuit are distinct objects. *)
Definition distinct_layers (sc : SymbCircuit) : Prop :=
  NoDup (lid <$> layers sc).

(** The inputs of the layers of a circuit are layers of the circuit. *)
Definition closed_inputs (sc : SymbCircuit) : Prop :=
  forall sl isl, sl ∈ layers sc -> isl ∈ layer_inputs sc sl ->
    isl ∈ layers sc.

(** The integration rules of the registry build a new object (with the
    identity that is available) over the scope of the layer they
    integrate. *)
Definition rules_build_over_scope (registry : SymOperatorRegistry)
    (sc : SymbCircuit) : Prop :=
  forall sl func id new_sl,
    sl ∈ layers sc -> integration_rule registry sl = Ok func ->
    func sl id = Ok new_sl ->
    lid new_sl = id /\ layers.scope new_sl = layers.scope sl.

(** [new_isl] is the layer of [new_ls] at the position where [ls] lists
    the object [isl]. *)
Definition image (ls new_ls : list Layer) (isl new_isl : Layer) : Prop :=
  exists j sl, ls !! j = Some sl /\ lid sl = lid isl /\
               new_ls !! j = Some new_isl.

(** The state of the loop of [integrate] after the layers [done] of the
    operand. *)
Definition loop_invariant registry sc (s : Scope) (fresh : nat)
    (done : list Layer) (st : rewrite) : Prop :=
  (map_layers st).*1 = lid <$> done /\
  next_id st = (fresh + length done)%nat /\
  (forall i sl, done !! i = Some sl ->
     exists new_sl, (map_layers st).*2 !! i = Some new_sl /\
       integrated registry (fresh + i) sl new_sl /\
       (is_InputLayer (lclass sl) = true ->
          layers.scope sl ∩ s ≠ ∅ /\ layers.scope sl ⊆ s)) /\
  (forall k ins, in_layers st !! k = Some ins ->
     exists i sl, k = (fresh + i)%nat /\ done !! i = Some sl /\
       is_InputLayer (lclass sl) = false /\
       Forall2 (image done (map_layers st).*2) (layer_inputs sc sl) ins) /\
  (forall i sl, done !! i = Some sl -> is_InputLayer (lclass sl) = false ->
     is_Some (in_layers st !! (fresh + i)%nat)) /\
  (forall k outs, out_layers st !! k = Some outs ->
     (exists new_sl, new_sl ∈ outs /\ lid new_sl = k) /\
     exists k', in_layers st !! k' = Some outs) /\
  (forall k ins new_sl, in_layers st !! k = Some ins -> new_sl ∈ ins ->
     is_Some (out_layers st !! lid new_sl)).

End integral_circuit.

(** ** The search for a topological ordering *)

Module ordering_invariant.
Import layers symb_circuit.

(** The state of the search for an ordering: the layers put in the
    ordering are distinct objects, none of which is on the path of the
    search, and have the property [Q] of the layers that the search
    starts from. *)
Definition search_ok (Q : Layer -> Prop) (path : list nat)
    (ord : list Layer) : Prop :=
  NoDup (lid <$> ord) /\ (forall k, k ∈ path -> k ∉ lid <$> ord) /\
  Forall Q ord.

End ordering_invariant.

(** ** The configuration and the parameters of a layer *)

Module layer_configs.
Import layers.

(** The object that has the attributes of [l] and the identity [id]: what
    a constructor builds when it is given the arguments that built [l]. *)
Definition with_id (id : nat) (l : Layer) : Layer :=
  mkLayer id (lclass l) (scope l) (num_input_units l) (num_output_units l)
    (arity l) (num_categories l) (attrs l) (operation l).

(** [DenseLayer.config]: the values of the keys ["scope"],
    ["num_input_units"] and ["num_output_units"]. *)
Definition DenseLayer_config (l : Layer) : Scope * Z * Z :=
  (scope l, num_input_units l, num_output_units l).

(** [DenseLayer.params] *)
Definition DenseLayer_params (l : Layer) : list (string * option Parameter_) :=
  [("weight", attr l "weight")].

(** [MixingLayer.config]: the values of the keys ["scope"], ["num_units"]
    and ["arity"]. *)
Definition MixingLayer_config (l : Layer) : Scope * Z * Z :=
  (scope l, num_input_units l, arity l).

(** [MixingLayer.params] *)
Definition MixingLayer_params (l : Layer) : list (string * option Parameter_) :=
  [("weight", attr l "weight")].

(** [ProductLayer.config], which [HadamardLayer] inherits: the values of
    the keys ["scope"], ["num_input_units"] and ["arity"]. *)
Definition ProductLayer_config (l : Layer) : Scope * Z * Z :=
  (scope l, num_input_units l, arity l).

(** [CategoricalLayer.config]: the values of the keys ["scope"],
    ["num_output_units"], ["num_channels"] and ["num_categories"]. *)
Definition CategoricalLayer_config (l : Layer) : Scope * Z * Z * option Z :=
  (scope l, num_output_units l, num_channels l, num_categories l).

(** The keyword argument [name] of a call [f( **kwargs)]: the default
    [None] when the dictionary has no such key. *)
Definition kwarg (kwargs : list (string * option Parameter_)) (name : string)
  : option Parameter_ :=
  match list_find (fun kv => bool_decide (kv.1 = name)) kwargs with
  | Some (_, (_, v)) => v
  | None => None
  end.

End layer_configs.

(** ** Parameters built by the constructors *)

Module built_params.
Import params.

(** The parameters that the constructors build, starting from the
    leaves: every operator node is the result of its [__init__]
    ([EntrywiseOpParameter.__init__] checks nothing). *)
Inductive built : AbstractParameter -> Prop :=
| built_Parameter s : built (Parameter_ s)
| built_ConstantParameter s v : built (ConstantParameter s v)
| built_HadamardParameter a b p :
    built a -> built b -> HadamardParameter_init a b = Ok p -> built p
| built_KroneckerParameter a b p :
    built a -> built b -> KroneckerParameter_init a b = Ok p -> built p
| built_OuterProductParameter a b axis p :
    built a -> built b -> OuterProductParameter_init a b axis = Ok p ->
    built p
| built_OuterSumParameter a b axis p :
    built a -> built b -> OuterSumParameter_init a b axis = Ok p -> built p
| built_EntrywiseOpParameter op a :
    built a -> built (EntrywiseOpParameter op a)
| built_ReduceOpParameter op a axis p :
    built a -> ReduceOpParameter_init op a axis = Ok p -> built p
| built_EntrywiseReduceOpParameter op a axis p :
    built a -> EntrywiseReduceOpParameter_init op a axis = Ok p -> built p.

End built_params.

(** ** Parameter operators over a sequence of operands *)

Module nary_params.
Import params.

(** [len(set(opd.shape for opd in opds)) == 1], on the shapes of the
    operands: there is an operand, and all operands have one shape. *)
Definition one_shape (shapes : list (list Z)) : bool :=
  match shapes with
  | [] => false
  | s :: shapes' => forallb (fun s' => bool_decide (s' = s)) shapes'
  end.

(** [EntrywiseSumParameter]: the attribute that [__init__] stores. *)
Record EntrywiseSumParameter : Type := mkEntrywiseSumParameter {
  sum_opds : list AbstractParameter
}.

(** [EntrywiseSumParameter.__init__] *)
Definition EntrywiseSumParameter_init (opds : list AbstractParameter)
  : result EntrywiseSumParameter :=
  shapes ← mapM shape opds;
  _ ← py_assert (one_shape shapes);
  Ok (mkEntrywiseSumParameter opds).

(** [EntrywiseSumParameter.shape] *)
Definition EntrywiseSumParameter_shape (p : EntrywiseSumParameter)
  : result (list Z) :=
  opd ← index (sum_opds p) 0;
  shape opd.

(** [StackOpParameter]: the attributes that [__init__] stores. *)
Record StackOpParameter : Type := mkStackOpParameter {
  stack_opds : list AbstractParameter;
  stack_axis : Z
}.

(** [StackOpParameter.__init__] *)
Definition StackOpParameter_init (opds : list AbstractParameter) (axis : Z)
  : result StackOpParameter :=
  shapes ← mapM shape opds;
  _ ← py_assert (one_shape shapes);
  opd ← index opds 0;
  s ← shape opd;
  let axis := normalize_axis axis s in
  _ ← py_assert (axis_in_range axis s);
  Ok (mkStackOpParameter opds axis).

(** [StackOpParameter.shape] *)
Definition StackOpParameter_shape (p : StackOpParameter) : result (list Z) :=
  opd ← index (stack_opds p) 0;
  s ← shape opd;
  Ok (slice_to s (stack_axis p) ++ [Z.of_nat (length (stack_opds p))] ++
      slice_to s (stack_axis p)).

End nary_params.

(** ** Further example circuits *)

Module more_examples.
Import layers symb_circuit examples.

(** A dense layer over variable 0 that is listed before the input layer
    that feeds it. *)
Definition dense_before_input : SymbCircuit :=
  let d :=
    with_attrs (Layer_init 1 DenseLayer {[0%nat]} 2 1 1) None
      [("weight", Some (TensorParameter [1; 2] NormalInitializer))] in
  mkSymbCircuit {[0%nat]} None [d; categorical_2]
    {[1%nat := [categorical_2]]} {[0%nat := [d]]}.

(** A dense layer without inputs over the empty scope and the categorical
    input layer over variable 0, which feed, in this order, a Hadamard
    product layer over [{0}]. *)
Definition empty_scope_times_input : SymbCircuit :=
  let e :=
    with_attrs (Layer_init 1 DenseLayer ∅ 2 2 1) None
      [("weight", Some (TensorParameter [2; 2] NormalInitializer))] in
  let p := Layer_init 2 HadamardLayer {[0%nat]} 2 2 2 in
  mkSymbCircuit {[0%nat]} None [categorical_2; e; p]
    {[2%nat := [e; categorical_2]]} {[0%nat := [p]; 1%nat := [p]]}.

(** The block that [multiply_categorical_layers] builds from the two
    input layers of [two_inputs]: one categorical layer over the
    variables 0 and 1. *)
Definition categorical_product : list Layer :=
  match operators.multiply_categorical_layers categorical_2
          (operators.InputLayer_with 1 CategoricalLayer {[1%nat]} 3 1
             [("probs", Some (TensorParameter [3; 1; 2] NormalInitializer));
              ("partition", None)]) 2 with
  | Ok block => block
  | Raise _ => []
  end.

(** The circuit over the variables 0 and 1 made of that layer. *)
Definition product_input : SymbCircuit :=
  mkSymbCircuit {[0%nat; 1%nat]} None categorical_product ∅ ∅.

End more_examples.

(* ===================================================================== *)
(** * Properties *)
(* ===================================================================== *)

(** ** Parameter operators: shapes and construction errors *)

Section param_shapes.
Import params.

Lemma py_assert_true c : c = true -> py_assert c = Ok tt.
Proof. intros ->. reflexivity. Qed.

Lemma py_assert_false c : c = false -> py_assert c = Raise AssertionError.
Proof. intros ->. reflexivity. Qed.

Lemma axis_in_range_spec axis s :
  axis_in_range axis s = true <-> 0 <= axis < Z.of_nat (length s).
Proof.
  unfold axis_in_range.
  rewrite andb_true_iff, !bool_decide_eq_true. tauto.
Qed.

Lemma index_in_range (s : list Z) axis :
  0 <= axis < Z.of_nat (length s) ->
  exists d, s !! Z.to_nat axis = Some d /\ index s axis = Ok d.
Proof.
  intros [H0 H1]. unfold index. cbv zeta.
  destruct (decide (0 <= axis)) as [_|]; [|lia].
  destruct (decide (0 <= axis)) as [_|]; [|lia].
  destruct (s !! Z.to_nat axis) as [d|] eqn:E; [by exists d|].
  apply lookup_ge_None in E. lia.
Qed.

Lemma slice_to_nonneg (s : list Z) k :
  0 <= k -> slice_to s k = take (Z.to_nat k) s.
Proof. intros H. unfold slice_to. by rewrite decide_True. Qed.

Lemma slice_from_nonneg (s : list Z) k :
  0 <= k -> slice_from s k = drop (Z.to_nat k) s.
Proof. intros H. unfold slice_from. by rewrite decide_True. Qed.

Lemma HadamardParameter_init_ok a b sa :
  shape a = Ok sa -> shape b = Ok sa ->
  HadamardParameter_init a b = Ok (HadamardParameter a b) /\
  shape (HadamardParameter a b) = Ok sa.
Proof.
  intros Ha Hb. unfold HadamardParameter_init. simpl.
  rewrite Ha, Hb. simpl. rewrite bool_decide_eq_true_2 by done. done.
Qed.

Lemma HadamardParameter_init_mismatch a b sa sb :
  shape a = Ok sa -> shape b = Ok sb -> sa <> sb ->
  HadamardParameter_init a b = Raise AssertionError.
Proof.
  intros Ha Hb Hne. unfold HadamardParameter_init.
  rewrite Ha, Hb. simpl. by rewrite bool_decide_eq_false_2.
Qed.

Lemma KroneckerParameter_init_ok a b sa sb :
  shape a = Ok sa -> shape b = Ok sb -> length sa = length sb ->
  KroneckerParameter_init a b = Ok (KroneckerParameter a b) /\
  shape (KroneckerParameter a b) = Ok (zip_with Z.mul sa sb).
Proof.
  intros Ha Hb Hl. unfold KroneckerParameter_init. simpl.
  rewrite Ha, Hb. simpl. rewrite bool_decide_eq_true_2 by done.
  split; [done|]. unfold kronecker_shape. rewrite decide_False by lia. done.
Qed.

Lemma KroneckerParameter_init_mismatch a b sa sb :
  shape a = Ok sa -> shape b = Ok sb -> length sa <> length sb ->
  KroneckerParameter_init a b = Raise AssertionError.
Proof.
  intros Ha Hb Hne. unfold KroneckerParameter_init.
  rewrite Ha, Hb. simpl. by rewrite bool_decide_eq_false_2.
Qed.

Lemma OuterProductParameter_init_ok a b axis sa sb :
  shape a = Ok sa -> shape b = Ok sb ->
  outer_product_contract sa sb (normalize_axis axis sa) ->
  let ax := normalize_axis axis sa in
  exists da db,
    sa !! Z.to_nat ax = Some da /\ sb !! Z.to_nat ax = Some db /\
    OuterProductParameter_init a b axis = Ok (OuterProductParameter a b ax) /\
    shape (OuterProductParameter a b ax) =
      Ok (take (Z.to_nat ax) sa ++ [da * db] ++ drop (S (Z.to_nat ax)) sa).
Proof.
  intros Ha Hb (Hl & Hr & Ht & Hd) ax. fold ax in Hr, Ht, Hd.
  destruct (index_in_range sa ax Hr) as (da & Hda & Hia).
  assert (Hrb : 0 <= ax < Z.of_nat (length sb)) by lia.
  destruct (index_in_range sb ax Hrb) as (db & Hdb & Hib).
  exists da, db. split; [done|]. split; [done|]. split.
  - unfold OuterProductParameter_init. rewrite Ha, Hb. simpl.
    rewrite bool_decide_eq_true_2 by done. simpl. fold ax.
    rewrite (py_assert_true (axis_in_range ax sa))
      by (by apply axis_in_range_spec).
    simpl. rewrite !bool_decide_eq_true_2 by done. done.
  - simpl. rewrite Ha, Hb. simpl. unfold cross_shape.
    rewrite Hia, Hib. simpl.
    rewrite slice_to_nonneg, slice_from_nonneg by lia.
    replace (Z.to_nat (ax + 1)) with (S (Z.to_nat ax)) by lia. done.
Qed.

Lemma OuterProductParameter_init_mismatch a b axis sa sb :
  shape a = Ok sa -> shape b = Ok sb ->
  ~ outer_product_contract sa sb (normalize_axis axis sa) ->
  OuterProductParameter_init a b axis = Raise AssertionError.
Proof.
  intros Ha Hb Hn. unfold OuterProductParameter_init.
  rewrite Ha, Hb. simpl.
  destruct (bool_decide (length sa = length sb)) eqn:E1; [|done].
  apply bool_decide_eq_true in E1. simpl.
  destruct (axis_in_range (normalize_axis axis sa) sa) eqn:E2; [|done].
  apply axis_in_range_spec in E2. simpl.
  destruct (bool_decide (slice_to sa _ = slice_to sb _)) eqn:E3; [|done].
  apply bool_decide_eq_true in E3. simpl.
  destruct (bool_decide (slice_from sa _ = slice_from sb _)) eqn:E4; [|done].
  apply bool_decide_eq_true in E4.
  exfalso. apply Hn. unfold outer_product_contract. tauto.
Qed.

Lemma ReduceOpParameter_init_ok op a axis sa :
  shape a = Ok sa ->
  0 <= normalize_axis axis sa < Z.of_nat (length sa) ->
  let ax := normalize_axis axis sa in
  ReduceOpParameter_init op a axis = Ok (ReduceOpParameter op a ax) /\
  shape (ReduceOpParameter op a ax) =
    Ok (take (Z.to_nat ax) sa ++ drop (S (Z.to_nat ax)) sa).
Proof.
  intros Ha Hr ax. fold ax in Hr. split.
  - unfold ReduceOpParameter_init. rewrite Ha. simpl. fold ax.
    rewrite (py_assert_true (axis_in_range ax sa))
      by (by apply axis_in_range_spec).
    done.
  - simpl. rewrite Ha. simpl.
    rewrite slice_to_nonneg, slice_from_nonneg by lia.
    replace (Z.to_nat (ax + 1)) with (S (Z.to_nat ax)) by lia. done.
Qed.

Lemma ReduceOpParameter_init_mismatch op a axis sa :
  shape a = Ok sa ->
  ~ 0 <= normalize_axis axis sa < Z.of_nat (length sa) ->
  ReduceOpParameter_init op a axis = Raise AssertionError.
Proof.
  intros Ha Hn. unfold ReduceOpParameter_init. rewrite Ha. simpl.
  rewrite (py_assert_false (axis_in_range _ sa)); [done|].
  apply not_true_is_false. by rewrite axis_in_range_spec.
Qed.

(** C7, as the code has it.  For operands [a], [b] whose shapes are
    [sa], [sb]: a Hadamard node is built exactly when [sa = sb] and has
    that shape; a Kronecker node is built exactly when the ranks agree and
    its shape is the elementwise product of the operand dimensions; an
    OuterProduct node is built exactly when the ranks agree, the
    (normalised) axis is in range and the dimensions before and after the
    axis agree, and its shape is the first operand's shape with the axis
    dimension replaced by the product of the two axis dimensions; a
    ReduceSum/ReduceProduct/ReduceLSE node is built exactly when the
    (normalised) axis is in range and its shape is the operand shape
    without the axis dimension.  In every violating case the constructor
    raises [AssertionError] (the code has no ShapeError). *)
Theorem C7_operator_shape_laws
    (a b : AbstractParameter) (sa sb : list Z) (axis : Z) (op : ReduceOp)
    (Ha : shape a = Ok sa) (Hb : shape b = Ok sb) :
  let ax := normalize_axis axis sa in
  (sa = sb ->
     HadamardParameter_init a b = Ok (HadamardParameter a b) /\
     shape (HadamardParameter a b) = Ok sa) /\
  (sa <> sb -> HadamardParameter_init a b = Raise AssertionError) /\
  (length sa = length sb ->
     KroneckerParameter_init a b = Ok (KroneckerParameter a b) /\
     shape (KroneckerParameter a b) = Ok (zip_with Z.mul sa sb)) /\
  (length sa <> length sb ->
     KroneckerParameter_init a b = Raise AssertionError) /\
  (outer_product_contract sa sb ax ->
     exists da db,
       sa !! Z.to_nat ax = Some da /\ sb !! Z.to_nat ax = Some db /\
       OuterProductParameter_init a b axis =
         Ok (OuterProductParameter a b ax) /\
       shape (OuterProductParameter a b ax) =
         Ok (take (Z.to_nat ax) sa ++ [da * db] ++
             drop (S (Z.to_nat ax)) sa)) /\
  (~ outer_product_contract sa sb ax ->
     OuterProductParameter_init a b axis = Raise AssertionError) /\
  (0 <= ax < Z.of_nat (length sa) ->
     ReduceOpParameter_init op a axis = Ok (ReduceOpParameter op a ax) /\
     shape (ReduceOpParameter op a ax) =
       Ok (take (Z.to_nat ax) sa ++ drop (S (Z.to_nat ax)) sa)) /\
  (~ 0 <= ax < Z.of_nat (length sa) ->
     ReduceOpParameter_init op a axis = Raise AssertionError).
Proof.
  intros ax. split_and!.
  - intros <-. by apply HadamardParameter_init_ok.
  - intros. by eapply HadamardParameter_init_mismatch.
  - intros. by eapply KroneckerParameter_init_ok.
  - intros. by eapply KroneckerParameter_init_mismatch.
  - intros. by eapply OuterProductParameter_init_ok.
  - intros. by eapply OuterProductParameter_init_mismatch.
  - intros. by apply ReduceOpParameter_init_ok.
  - intros. by eapply ReduceOpParameter_init_mismatch.
Qed.

Lemma C7_operator_shape_laws_witness :
  OuterProductParameter_init (Parameter_ [2; 3; 5]) (Parameter_ [2; 4; 5]) (-2)
    = Ok (OuterProductParameter (Parameter_ [2; 3; 5]) (Parameter_ [2; 4; 5]) 1)
  /\ shape (OuterProductParameter (Parameter_ [2; 3; 5]) (Parameter_ [2; 4; 5]) 1)
    = Ok [2; 12; 5]
  /\ HadamardParameter_init (Parameter_ [2; 3; 5]) (Parameter_ [2; 4; 5])
    = Raise AssertionError.
Proof.
  pose proof (C7_operator_shape_laws
                (Parameter_ [2; 3; 5]) (Parameter_ [2; 4; 5])
                [2; 3; 5] [2; 4; 5] (-2) ReduceSumOp eq_refl eq_refl)
    as (_ & Hh & _ & _ & Ho & _).
  split; [|split].
  - destruct Ho as (da & db & _ & _ & Hi & _); [|exact Hi].
    vm_compute. repeat split; intros; discriminate.
  - reflexivity.
  - apply Hh. discriminate.
Defined.

(** C7, as stated, fails: a Hadamard node over operands of shapes [(2,)]
    and [(3,)] violates the contract, and the constructor raises
    [AssertionError], which is not [ShapeError]. *)
Lemma C7_counterexample :
  shape (Parameter_ [2]) <> shape (Parameter_ [3]) /\
  HadamardParameter_init (Parameter_ [2]) (Parameter_ [3])
    = Raise AssertionError /\
  HadamardParameter_init (Parameter_ [2]) (Parameter_ [3])
    <> Raise ShapeError.
Proof. repeat split; vm_compute; discriminate. Qed.

End param_shapes.

(** ** Structural properties of symbolic circuits *)

Section structural_properties.
Import layers symb_circuit.

Lemma forallb_true_iff {A} (f : A -> bool) (l : list A) :
  forallb f l = true <-> forall x, x ∈ l -> f x = true.
Proof.
  rewrite forallb_forall. split; intros H x Hx; apply H.
  - by apply list_elem_of_In.
  - by apply list_elem_of_In.
Qed.

Lemma existsb_true_iff {A} (f : A -> bool) (l : list A) :
  existsb f l = true <-> exists x, x ∈ l /\ f x = true.
Proof.
  rewrite existsb_exists. split; intros (x & Hx & Hf); exists x; split;
    try done; by apply list_elem_of_In.
Qed.

Lemma elem_of_sum_layers sc l :
  l ∈ sum_layers sc <-> l ∈ layers sc /\ is_SumLayer (lclass l) = true.
Proof. unfold sum_layers. rewrite list_elem_of_filter. tauto. Qed.

Lemma elem_of_product_layers sc l :
  l ∈ product_layers sc <-> l ∈ layers sc /\ is_ProductLayer (lclass l) = true.
Proof. unfold product_layers. rewrite list_elem_of_filter. tauto. Qed.

(** C8: [is_smooth] is [True] exactly when every direct input of every sum
    layer of the circuit has the scope of that sum layer. *)
Theorem C8_is_smooth_iff (sc : SymbCircuit) :
  is_smooth sc = true <->
  forall sum_sl, sum_sl ∈ layers sc -> is_SumLayer (lclass sum_sl) = true ->
    forall in_sl, in_sl ∈ layer_inputs sc sum_sl ->
      layers.scope in_sl = layers.scope sum_sl.
Proof.
  unfold is_smooth. rewrite forallb_true_iff. split.
  - intros H sum_sl Hin Hsum in_sl Hi.
    specialize (H sum_sl (proj2 (elem_of_sum_layers sc sum_sl) (conj Hin Hsum))).
    rewrite forallb_true_iff in H. specialize (H in_sl Hi).
    by apply bool_decide_eq_true in H.
  - intros H sum_sl [Hin Hsum]%elem_of_sum_layers.
    rewrite forallb_true_iff. intros in_sl Hi.
    apply bool_decide_eq_true. symmetry. by apply H.
Qed.

(** What [is_decomposable] computes: for every product layer, every input
    that has another input after it has the empty scope. *)
Lemma is_decomposable_computes (sc : SymbCircuit) :
  is_decomposable sc = true <->
  forall prod_sl, prod_sl ∈ layers sc ->
    is_ProductLayer (lclass prod_sl) = true ->
    forall lhs_in_sl rhs_in_sl,
      (lhs_in_sl, rhs_in_sl) ∈ combinations2 (layer_inputs sc prod_sl) ->
      layers.scope lhs_in_sl = ∅.
Proof.
  unfold is_decomposable. rewrite negb_true_iff, <- not_true_iff_false.
  rewrite existsb_true_iff. split.
  - intros Hno prod_sl Hin Hprod lhs rhs Hpair.
    destruct (decide (layers.scope lhs = ∅)) as [|Hne]; [done|].
    exfalso. apply Hno. exists prod_sl. split.
    + by apply elem_of_product_layers.
    + apply existsb_true_iff. exists (lhs, rhs). split; [done|].
      apply bool_decide_eq_true. by rewrite intersection_idemp_L.
  - intros Hall (prod_sl & [Hin Hprod]%elem_of_product_layers & Hex).
    apply existsb_true_iff in Hex as ([lhs rhs] & Hpair & Htruthy).
    apply bool_decide_eq_true in Htruthy. apply Htruthy.
    rewrite intersection_idemp_L. by eapply Hall.
Qed.

(** C3 fails on the code: [is_decomposable] intersects the scope of the
    left input with itself.  On the product of two input layers over the
    variables 0 and 1 the inputs have disjoint scopes and [is_decomposable]
    is [False]. *)
Theorem C3_is_decomposable_disjoint_inputs_false :
  inputs_pairwise_disjoint examples.product_of_two /\
  is_decomposable examples.product_of_two = false.
Proof.
  split; [|by vm_compute].
  intros prod_sl Hin Hprod i j x y Hij Hx Hy.
  unfold examples.product_of_two, layers in Hin. simpl in Hin.
  rewrite !elem_of_cons in Hin.
  destruct Hin as [-> | [-> | [-> | Hin]]];
    [ discriminate Hprod | discriminate Hprod | | by apply elem_of_nil in Hin ].
  change (layer_inputs examples.product_of_two
            (Layer_init 2 HadamardLayer {[0%nat; 1%nat]} 1 1 2))
    with [examples.input_over 0 0 1; examples.input_over 1 1 1] in Hx, Hy.
  destruct i as [|[|i]], j as [|[|j]]; simplify_eq/=; try done;
    by vm_compute.
Qed.

Lemma is_compatible_false (self oth : SymbCircuit) scope :
  is_compatible self oth scope = false.
Proof. unfold is_compatible. by repeat case_match. Qed.

Lemma multiply_raises_iff (lhs_sc rhs_sc : SymbCircuit) :
  functional.multiply lhs_sc rhs_sc = Raise StructuralPropertyError <->
  is_compatible lhs_sc rhs_sc None = false.
Proof.
  unfold functional.multiply.
  destruct (is_compatible lhs_sc rhs_sc None); simpl; split; done.
Qed.

(** C6 fails on the code: [is_compatible] is unfinished and returns
    [False] on every path.  The circuit made of one input layer is smooth,
    decomposable and has no product layer, so that it partitions every
    scope as itself does; [is_compatible] is [False] on it and [multiply]
    raises [StructuralPropertyError]. *)
Theorem C6_is_compatible_self_false :
  is_smooth examples.single_input = true /\
  is_decomposable examples.single_input = true /\
  product_layers examples.single_input = [] /\
  is_compatible examples.single_input examples.single_input None = false /\
  functional.multiply examples.single_input examples.single_input
    = Raise StructuralPropertyError.
Proof. by vm_compute. Qed.

End structural_properties.

(** ** Construction of categorical layers *)

Section categorical_layer.
Import layers.

Lemma attr_probs_logits (l : Layer) ncat probs logits :
  attr (with_attrs l ncat [("probs", probs); ("logits", logits)]) "probs"
    = probs /\
  attr (with_attrs l ncat [("probs", probs); ("logits", logits)]) "logits"
    = logits.
Proof. by vm_compute. Qed.

Lemma CategoricalLayer_init_Ok_inv id scope num_output_units num_channels
    num_categories logits probs logits_factory probs_factory l :
  CategoricalLayer_init id scope num_output_units num_channels num_categories
    logits probs logits_factory probs_factory = Ok l ->
  exists logits' probs',
    l = with_attrs
          (InputLayer_init id CategoricalLayer scope num_output_units
             num_channels)
          (Some num_categories) [("probs", probs'); ("logits", logits')] /\
    (is_Some logits' <-> ~ is_Some probs').
Proof.
  unfold CategoricalLayer_init. intros H.
  destruct (decide (size scope ≠ 1%nat)); [done|].
  destruct logits as [lg|], probs as [pr|], logits_factory as [lf|],
    probs_factory as [pf|]; simpl in H; try done;
    repeat case_match; simplify_eq;
    (eexists _, _; split; [reflexivity|]);
    (split;
     [ intros [? ?] [? ?]; simplify_eq
     | intros Hn; first [ by eexists | exfalso; apply Hn; by eexists ] ]).
Qed.

(** C10, as the code has it.  [CategoricalLayer.__init__] raises
    [ValueError] when both [logits] and [probs] are given and when both
    factories are given; when no parameter and no factory is given (and the
    scope is a single variable with at least two categories) it creates a
    default [logits] tensor parameter of shape
    [(num_output_units, num_channels, num_categories)]; and [params] of
    every constructed layer has exactly one entry, named ['logits'] or
    ['probs']. *)
Theorem C10_CategoricalLayer_init_params id (scope : Scope)
    num_output_units num_channels num_categories logits probs
    logits_factory probs_factory :
  let init :=
    CategoricalLayer_init id scope num_output_units num_channels
      num_categories logits probs logits_factory probs_factory in
  (is_Some logits -> is_Some probs -> init = Raise ValueError) /\
  (is_Some logits_factory -> is_Some probs_factory ->
     init = Raise ValueError) /\
  (logits = None -> probs = None ->
   logits_factory = None -> probs_factory = None ->
   size scope = 1%nat -> 2 <= num_categories ->
     exists l,
       init = Ok l /\
       attr l "logits" =
         Some (TensorParameter
                 [num_output_units; num_channels; num_categories]
                 NormalInitializer) /\
       attr l "probs" = None /\
       CategoricalLayer_params l =
         [("logits",
           Some (TensorParameter
                   [num_output_units; num_channels; num_categories]
                   NormalInitializer))]) /\
  (forall l, init = Ok l ->
     exists p, CategoricalLayer_params l = [("logits", Some p)] \/
               CategoricalLayer_params l = [("probs", Some p)]).
Proof.
  intros init. split_and!.
  - intros [? ->] [? ->]. unfold init, CategoricalLayer_init.
    by case_decide.
  - intros [? ->] [? ->]. unfold init, CategoricalLayer_init.
    case_decide; [done|]. by case_match.
  - intros -> -> -> -> Hs Hc. unfold init, CategoricalLayer_init.
    rewrite decide_False by (intros ?; congruence).
    simpl. rewrite decide_False by lia. simpl.
    rewrite bool_decide_eq_false_2 by (intros ?; congruence).
    eexists. split; [reflexivity|]. by vm_compute.
  - intros l (logits' & probs' & -> & Hex)%CategoricalLayer_init_Ok_inv.
    unfold CategoricalLayer_params.
    destruct (attr_probs_logits
                (InputLayer_init id CategoricalLayer scope num_output_units
                   num_channels) (Some num_categories) probs' logits')
      as [-> ->].
    destruct logits' as [p|].
    + exists p. by left.
    + destruct probs' as [p|].
      * exists p. by right.
      * exfalso. destruct Hex as [_ Hex].
        destruct Hex as [? ?]; [|done]. by intros [? ?].
Qed.

Lemma C10_CategoricalLayer_init_params_witness :
  exists l,
    CategoricalLayer_init 0 {[0%nat]} 2 1 2 None None None None = Ok l /\
    attr l "logits" = Some (TensorParameter [2; 1; 2] NormalInitializer) /\
    attr l "probs" = None /\
    CategoricalLayer_params l =
      [("logits", Some (TensorParameter [2; 1; 2] NormalInitializer))].
Proof.
  refine (proj1 (proj2 (proj2
            (C10_CategoricalLayer_init_params 0 {[0%nat]} 2 1 2 None None
               None None))) eq_refl eq_refl eq_refl eq_refl _ _).
  - by vm_compute.
  - lia.
Defined.

(** C10, as stated, fails: with no parameter given and a factory for
    [probs], the constructor creates [probs] from the factory and no
    default [logits]. *)
Lemma C10_counterexample :
  exists l,
    CategoricalLayer_init 0 {[0%nat]} 2 1 2 None None None
      (Some (fun s => TensorParameter s NormalInitializer)) = Ok l /\
    attr l "logits" = None /\
    CategoricalLayer_params l =
      [("probs", Some (TensorParameter [2; 1; 2] NormalInitializer))].
Proof. eexists. split; [by vm_compute|]. by vm_compute. Qed.

End categorical_layer.

(** ** Multiplication rules of the layers *)

Section layer_multiplication.
Import layers operators.

Lemma multiply_hadamard_layers_Ok lhs rhs id b :
  multiply_hadamard_layers lhs rhs id = Ok b ->
  exists sl, b = [sl] /\ lclass sl = HadamardLayer /\
    num_output_units sl = num_input_units lhs * num_input_units rhs.
Proof.
  unfold multiply_hadamard_layers, HadamardLayer_init.
  case_decide; simpl; [done|]. intros [= <-]. by eexists.
Qed.

Lemma multiply_dense_layers_Ok lhs rhs id b :
  multiply_dense_layers lhs rhs id = Ok b ->
  exists sl, b = [sl] /\ lclass sl = DenseLayer /\
    num_output_units sl = num_output_units lhs * num_output_units rhs /\
    attr sl "weight" =
      Some (KroneckerParameter (PlaceholderParameter_init lhs "weight")
              (PlaceholderParameter_init rhs "weight") None).
Proof.
  unfold multiply_dense_layers, DenseLayer_init.
  case_decide; simpl; [done|]. intros [= <-]. by eexists.
Qed.

Lemma multiply_mixing_layers_Ok lhs rhs id b :
  multiply_mixing_layers lhs rhs id = Ok b ->
  exists sl, b = [sl] /\ lclass sl = MixingLayer /\
    num_output_units sl = num_input_units lhs * num_input_units rhs /\
    arity sl = arity lhs * arity rhs.
Proof.
  unfold multiply_mixing_layers, MixingLayer_init.
  case_decide; simpl; [done|]. intros [= <-]. by eexists.
Qed.

Lemma multiply_categorical_layers_Ok lhs rhs id b :
  multiply_categorical_layers lhs rhs id = Ok b ->
  exists sl, b = [sl] /\ lclass sl = CategoricalLayer /\
    num_output_units sl = num_output_units lhs * num_input_units rhs.
Proof.
  unfold multiply_categorical_layers.
  destruct (py_assert _); simpl; [|done]. intros [= <-]. by eexists.
Qed.

Lemma multiply_gaussian_layers_Ok lhs rhs id b :
  multiply_gaussian_layers lhs rhs id = Ok b ->
  exists sl, b = [sl] /\ lclass sl = GaussianLayer /\
    num_output_units sl = num_output_units lhs * num_input_units rhs.
Proof.
  unfold multiply_gaussian_layers.
  destruct (py_assert _); simpl; [|done]. intros [= <-]. by eexists.
Qed.

(** C2 fails on the code for the input layers: the product of two
    categorical (and of two Gaussian) layers gets
    [lhs.num_output_units * rhs.num_input_units] output units, and the
    number of input units of an input layer is the size of its scope.  For
    layers over one variable with 2 and 3 output units the product has 2
    output units, not 6. *)
Theorem C2_input_layer_product_units :
  (exists sl,
     multiply_categorical_layers examples.categorical_2 examples.categorical_3 2
       = Ok [sl] /\
     num_output_units sl = 2) /\
  (exists sl,
     multiply_gaussian_layers examples.gaussian_2 examples.gaussian_3 2
       = Ok [sl] /\
     num_output_units sl = 2) /\
  num_output_units examples.categorical_2
    * num_output_units examples.categorical_3 = 6 /\
  num_output_units examples.gaussian_2
    * num_output_units examples.gaussian_3 = 6.
Proof.
  split_and!; try reflexivity.
  - eexists. split; [by vm_compute|]. by vm_compute.
  - eexists. split; [by vm_compute|]. by vm_compute.
Qed.

End layer_multiplication.

(** ** Compilation of the leaf parameters *)

Section leaf_compilation.
Import torch_parameters.
Context {TorchInitializer : Type}
        (compile_initializer : layers.Initializer -> TorchInitializer)
        (registered_fold_idx : Z).

Abbreviation compile_leaf :=
  (compile_leaf compile_initializer registered_fold_idx).
Abbreviation compile_leaves :=
  (compile_leaves compile_initializer registered_fold_idx).
Abbreviation compiled_parameters :=
  (gmap nat (@TorchTensorParameter TorchInitializer * Z)).

Lemma register_compiled_parameter_lookup
    (st : compiled_parameters) p compiled_p k v :
  st !! k = Some v ->
  register_compiled_parameter registered_fold_idx st p compiled_p !! k = Some v.
Proof.
  intros Hk. unfold register_compiled_parameter.
  destruct (st !! p) eqn:Hp; [done|].
  rewrite lookup_insert_ne; [done|]. intros ->. congruence.
Qed.

Lemma register_compiled_parameter_fresh
    (st : compiled_parameters) p compiled_p :
  st !! p = None ->
  register_compiled_parameter registered_fold_idx st p compiled_p !! p
    = Some (compiled_p, registered_fold_idx).
Proof.
  intros Hp. unfold register_compiled_parameter. rewrite Hp.
  apply lookup_insert_eq.
Qed.

Lemma has_compiled_parameter_false (st : compiled_parameters) p :
  has_compiled_parameter st p = false <-> st !! p = None.
Proof.
  unfold has_compiled_parameter.
  rewrite bool_decide_eq_false, <- eq_None_not_Some. done.
Qed.

(** A request for a compiled parameter returns a pointer and leaves the
    compiler as it is. *)
Lemma compile_leaf_compiled compiler r t fold_idx :
  state compiler !! request_id r = Some (t, fold_idx) ->
  compile_leaf compiler r = (Ok (TorchPointerParameter t fold_idx), compiler).
Proof.
  intros Hs.
  destruct r as [p|p]; simpl in *;
    unfold compile_tensor_parameter, compile_constant_parameter,
      has_compiled_parameter, retrieve_compiled_parameter;
    rewrite Hs; by rewrite bool_decide_eq_true_2.
Qed.

(** The first request for a parameter materialises it and registers it. *)
Lemma compile_leaf_first compiler r :
  state compiler !! request_id r = None ->
  exists t,
    compile_leaf compiler r =
      (Ok (Materialized t),
       mkTorchCompiler
         (register_compiled_parameter registered_fold_idx (state compiler)
            (request_id r) t)
         (objects compiler ++ [t])) /\
    tid t = length (objects compiler).
Proof.
  intros Hs.
  destruct r as [p|p]; simpl in *;
    unfold compile_tensor_parameter, compile_constant_parameter,
      has_compiled_parameter;
    rewrite Hs; rewrite bool_decide_eq_false_2 by (by intros [? ?]);
    by eexists.
Qed.

(** No request removes or changes a registration. *)
Lemma compile_leaf_preserves compiler r k v :
  state compiler !! k = Some v ->
  state (compile_leaf compiler r).2 !! k = Some v.
Proof.
  intros Hk.
  destruct (state compiler !! request_id r) as [[t f]|] eqn:Hr.
  - by rewrite (compile_leaf_compiled _ _ _ _ Hr).
  - destruct (compile_leaf_first _ _ Hr) as (t & -> & _). simpl.
    by apply register_compiled_parameter_lookup.
Qed.

Lemma compile_leaves_preserves rs compiler k v :
  state compiler !! k = Some v ->
  state (compile_leaves compiler rs) !! k = Some v.
Proof.
  revert compiler. induction rs as [|r rs IH]; intros compiler Hk; [done|].
  simpl. apply IH. by apply compile_leaf_preserves.
Qed.

(** What the first request for a parameter materialises is built from
    the attributes of the symbolic parameter: its shape, whether it is
    learnable (never, for a constant), its compiled initializer and its
    data type (left to the default for a constant). *)
Lemma compile_leaf_first_attributes compiler r t compiler' :
  state compiler !! request_id r = None ->
  compile_leaf compiler r = (Ok (Materialized t), compiler') ->
  match r with
  | CompileTensor p =>
      tshape t = shape p /\ requires_grad t = learnable p /\
      initializer_ t = compile_initializer (initializer p) /\
      tdtype t = Some (_retrieve_dtype (dtype p))
  | CompileConstant p =>
      tshape t = cshape p /\ requires_grad t = false /\
      initializer_ t = compile_initializer (cinitializer p) /\
      tdtype t = None
  end.
Proof.
  intros Hs.
  destruct r as [p|p]; simpl in *;
    unfold compile_tensor_parameter, compile_constant_parameter,
      has_compiled_parameter;
    rewrite Hs; rewrite bool_decide_eq_false_2 by (by intros [? ?]);
    by intros [= <- <-].
Qed.

(** C1: under one compiler state, the first compilation of a leaf
    parameter (a tensor or a constant parameter) that is not yet compiled
    materialises it: the result is a new tensor parameter object that has
    the shape of the symbolic parameter, its compiled initializer, and,
    for a tensor parameter, its learnable flag as [requires_grad] and the
    torch data type of its data type (for a constant, [requires_grad] is
    false and the data type is left to the default); this object is added
    to the materialised objects and registered for the node.  After any
    further sequence of compilation requests, the materialised objects
    before the first request are still the first ones, the node is still
    registered with that object, and a request for that same node returns
    a pointer to the original materialisation with its fold index, and
    creates nothing: the compiler, its materialised objects included, is
    as before the request. *)
Theorem C1_leaf_parameter_materialized_once
    (compiler : TorchCompiler (TorchInitializer := TorchInitializer))
    (r : request) (rs : list request)
    (Hnew : has_compiled_parameter (state compiler) (request_id r) = false) :
  exists t,
    let first := compile_leaf compiler r in
    let later := compile_leaves first.2 rs in
    first.1 = Ok (Materialized t) /\
    tid t = length (objects compiler) /\
    match r with
    | CompileTensor p =>
        tshape t = shape p /\ requires_grad t = learnable p /\
        initializer_ t = compile_initializer (initializer p) /\
        tdtype t = Some (_retrieve_dtype (dtype p))
    | CompileConstant p =>
        tshape t = cshape p /\ requires_grad t = false /\
        initializer_ t = compile_initializer (cinitializer p) /\
        tdtype t = None
    end /\
    objects first.2 = objects compiler ++ [t] /\
    retrieve_compiled_parameter (state first.2) (request_id r)
      = Ok (t, registered_fold_idx) /\
    retrieve_compiled_parameter (state later) (request_id r)
      = Ok (t, registered_fold_idx) /\
    compile_leaf later r
      = (Ok (TorchPointerParameter t registered_fold_idx), later).
Proof.
  apply has_compiled_parameter_false in Hnew.
  destruct (compile_leaf_first _ _ Hnew) as (t & Hfirst & Htid).
  pose proof (compile_leaf_first_attributes _ _ _ _ Hnew Hfirst) as Hattr.
  exists t. simpl. rewrite Hfirst. simpl.
  pose proof (register_compiled_parameter_fresh (state compiler)
                (request_id r) t Hnew) as Hreg.
  assert (Hlater :
    state (compile_leaves
             (mkTorchCompiler
                (register_compiled_parameter registered_fold_idx
                   (state compiler) (request_id r) t)
                (objects compiler ++ [t])) rs) !! request_id r
      = Some (t, registered_fold_idx))
    by (by apply compile_leaves_preserves).
  split_and!; try done.
  - unfold retrieve_compiled_parameter. by rewrite Hreg.
  - unfold retrieve_compiled_parameter. by rewrite Hlater.
  - by apply compile_leaf_compiled.
Qed.

End leaf_compilation.

Lemma C1_leaf_parameter_materialized_once_witness :
  torch_parameters.has_compiled_parameter
    (torch_parameters.state examples.empty_compiler)
    (torch_parameters.request_id examples.tensor_request) = false /\
  exists t,
    let first :=
      torch_parameters.compile_leaf id 0 examples.empty_compiler
        examples.tensor_request in
    let later :=
      torch_parameters.compile_leaves id 0 first.2
        [examples.constant_request; examples.tensor_request;
         examples.constant_request] in
    first.1 = Ok (torch_parameters.Materialized t) /\
    torch_parameters.tid t
      = length (torch_parameters.objects examples.empty_compiler) /\
    (torch_parameters.tshape t = [2; 3] /\
     torch_parameters.requires_grad t = true /\
     torch_parameters.initializer_ t = layers.NormalInitializer /\
     torch_parameters.tdtype t
       = Some torch_parameters.default_float_dtype) /\
    torch_parameters.objects first.2
      = torch_parameters.objects examples.empty_compiler ++ [t] /\
    torch_parameters.retrieve_compiled_parameter
      (torch_parameters.state first.2)
      (torch_parameters.request_id examples.tensor_request) = Ok (t, 0) /\
    torch_parameters.retrieve_compiled_parameter
      (torch_parameters.state later)
      (torch_parameters.request_id examples.tensor_request) = Ok (t, 0) /\
    torch_parameters.compile_leaf id 0 later examples.tensor_request
      = (Ok (torch_parameters.TorchPointerParameter t 0), later).
Proof.
  split; [reflexivity|].
  exact (C1_leaf_parameter_materialized_once id 0 examples.empty_compiler
           examples.tensor_request
           [examples.constant_request; examples.tensor_request;
            examples.constant_request] eq_refl).
Defined.

(** ** Integration of a circuit *)

Section integration.
Import layers symb_circuit functional.

Lemma dict_getitem_setitem_eq {V} (d : list (nat * V)) k v :
  dict_getitem (dict_setitem d k v) k = Ok v.
Proof.
  induction d as [|[k' v'] d IH]; simpl.
  - by rewrite decide_True.
  - destruct (decide (k' = k)) as [->|Hne]; simpl.
    + by rewrite decide_True.
    + by rewrite decide_False.
Qed.

Lemma dict_getitem_setitem_ne {V} (d : list (nat * V)) k k' v :
  k <> k' -> dict_getitem (dict_setitem d k v) k' = dict_getitem d k'.
Proof.
  intros Hne. induction d as [|[k0 v0] d IH]; simpl.
  - by rewrite decide_False.
  - destruct (decide (k0 = k)) as [->|Hne0]; simpl.
    + by rewrite !decide_False.
    + destruct (decide (k0 = k')); [done|]. apply IH.
Qed.

Lemma dict_setitem_keeps {V} (d : list (nat * V)) k v k' :
  (exists v', dict_getitem d k' = Ok v') ->
  exists v', dict_getitem (dict_setitem d k v) k' = Ok v'.
Proof.
  intros [v' Hv']. destruct (decide (k = k')) as [->|Hne].
  - exists v. apply dict_getitem_setitem_eq.
  - exists v'. by rewrite dict_getitem_setitem_ne.
Qed.

Lemma mapM_Ok {A B} (f : A -> result B) (l : list A) :
  (forall x, x ∈ l -> exists y, f x = Ok y) -> exists ys, mapM f l = Ok ys.
Proof.
  induction l as [|x l IH]; intros H; simpl; [by eexists|].
  destruct (H x) as [y ->]; [by left|].
  destruct IH as [ys ->]; [intros; apply H; by right|].
  simpl. by eexists.
Qed.

Lemma Ok_bind {A B} (a : A) (k : A -> result B) : (Ok a ≫= k) = k a.
Proof. reflexivity. Qed.

Lemma layer_class_cases (c : LayerClass) :
  is_InputLayer c = false -> is_SumLayer c || is_ProductLayer c = true.
Proof. by destruct c. Qed.

(** The loop of [integrate] over a layer list in topological order, all of
    whose input layers meet the integration scope [s]: it stops with
    [NotImplementedError] when an input layer is not contained in [s], and
    runs to the end otherwise. *)
Lemma integrate_layers_outcome registry sc (s : Scope) (ls : list Layer) :
  forall (st : rewrite) (seen : list nat),
    (forall k, k ∈ seen -> exists v, dict_getitem (map_layers st) k = Ok v) ->
    inputs_listed_before sc seen ls = true ->
    (forall sl, sl ∈ ls -> is_InputLayer (lclass sl) = true ->
       exists func, integration_rule registry sl = Ok func /\
         forall id, exists new_sl, func sl id = Ok new_sl) ->
    (forall sl, sl ∈ ls -> is_InputLayer (lclass sl) = true ->
       layers.scope sl ∩ s ≠ ∅) ->
    ((exists sl, sl ∈ ls /\ is_InputLayer (lclass sl) = true /\
                 ~ layers.scope sl ⊆ s) ->
       integrate_layers registry sc s st ls = Raise NotImplementedError) /\
    ((forall sl, sl ∈ ls -> is_InputLayer (lclass sl) = true ->
        layers.scope sl ⊆ s) ->
       exists st', integrate_layers registry sc s st ls = Ok st').
Proof.
  induction ls as [|sl ls IH]; intros st seen Hseen Htopo Hrules Hmeet.
  { split.
    - intros (sl & Hin & _). by apply elem_of_nil in Hin.
    - intros _. by eexists. }
  simpl in Htopo. apply andb_true_iff in Htopo as [Hsl Htopo].
  assert (Hstep : forall st',
            (forall k, k ∈ seen ->
               exists v, dict_getitem (map_layers st) k = Ok v) ->
            (exists new_sl,
               map_layers st' = dict_setitem (map_layers st) (lid sl) new_sl) ->
            forall k, k ∈ lid sl :: seen ->
              exists v, dict_getitem (map_layers st') k = Ok v).
  { intros st' Hs [new_sl ->] k [->|Hk]%elem_of_cons.
    - eexists. apply dict_getitem_setitem_eq.
    - apply dict_setitem_keeps. by apply Hs. }
  assert (Hrest :
    forall st',
      (forall k, k ∈ lid sl :: seen ->
         exists v, dict_getitem (map_layers st') k = Ok v) ->
      ((exists sl', sl' ∈ ls /\ is_InputLayer (lclass sl') = true /\
                    ~ layers.scope sl' ⊆ s) ->
         integrate_layers registry sc s st' ls = Raise NotImplementedError) /\
      ((forall sl', sl' ∈ ls -> is_InputLayer (lclass sl') = true ->
          layers.scope sl' ⊆ s) ->
         exists st'', integrate_layers registry sc s st' ls = Ok st'')).
  { intros st' Hs. apply (IH st' (lid sl :: seen)); try done.
    - intros sl' Hin. apply Hrules. by right.
    - intros sl' Hin. apply Hmeet. by right. }
  simpl. unfold integrate_layer.
  destruct (is_InputLayer (lclass sl)) eqn:Hcls; simpl.
  - (* an input layer, which meets the integration scope *)
    assert (Htruthy : scope_truthy (layers.scope sl ∩ s) = true).
    { apply bool_decide_eq_true. apply Hmeet; [by left|done]. }
    rewrite Htruthy.
    destruct (decide (layers.scope sl ⊆ s)) as [Hsub|Hsub].
    + rewrite bool_decide_eq_true_2 by done. simpl.
      destruct (Hrules sl) as (func & -> & Hfunc); [by left|done|].
      rewrite Ok_bind.
      destruct (Hfunc (next_id st)) as [new_sl ->]. rewrite !Ok_bind.
      match goal with
      | |- context [integrate_layers _ _ _ ?st' ls] =>
          destruct (Hrest st') as [Hbad Hgood];
          [apply Hstep; [done|by eexists]|]
      end.
      split.
      * intros (sl' & [->|Hin]%elem_of_cons & Hinp & Hns); [done|].
        apply Hbad. by exists sl'.
      * intros Hall. apply Hgood. intros sl' Hin. apply Hall. by right.
    + rewrite bool_decide_eq_false_2 by done. simpl. split; [done|].
      intros Hall. exfalso. apply Hsub. apply Hall; [by left|done].
  - (* a sum or a product layer *)
    rewrite (layer_class_cases _ Hcls). simpl.
    simpl in Hsl. rewrite forallb_true_iff in Hsl.
    destruct (mapM_Ok (fun isl => dict_getitem (map_layers st) (lid isl))
                (layer_inputs sc sl)) as [new_sl_inputs ->].
    { intros isl Hisl. apply Hseen.
      specialize (Hsl isl Hisl). by apply bool_decide_eq_true in Hsl. }
    rewrite !Ok_bind.
    match goal with
    | |- context [integrate_layers _ _ _ ?st' ls] =>
        destruct (Hrest st') as [Hbad Hgood];
        [apply Hstep; [done|by eexists]|]
    end.
    split.
    + intros (sl' & [->|Hin]%elem_of_cons & Hinp & Hns); [congruence|].
      apply Hbad. by exists sl'.
    + intros Hall. apply Hgood. intros sl' Hin. apply Hall. by right.
Qed.

Lemma integrate_checks_passed sc scope registry fresh :
  is_smooth sc = true -> is_decomposable sc = true ->
  default (symb_circuit.scope sc) scope ⊆ symb_circuit.scope sc ->
  integrate sc scope registry fresh =
    (st ← integrate_layers registry sc (default (symb_circuit.scope sc) scope)
            (mkRewrite [] ∅ ∅ fresh) (layers sc);
     Ok (mkSymbCircuit (symb_circuit.scope sc)
           (Some (symb_circuit.INTEGRATION, [sc],
                  Some (default (symb_circuit.scope sc) scope)))
           (dict_values (map_layers st)) (in_layers st) (out_layers st))).
Proof.
  intros Hsm Hde Hsub. unfold integrate. rewrite Hsm, Hde. simpl.
  rewrite bool_decide_eq_false_2; [done|].
  intros Hne. apply Hne. by apply subseteq_union_1_L.
Qed.

(** C5 fails on the code: [integrate] has no branch for an input layer
    that the integration scope does not meet.  The circuit of two
    unconnected categorical input layers over the variables 0 and 1 is
    smooth and decomposable (it has no sum and no product layer), the
    scope [{0}] is a subset of its scope, and the scope of each input
    layer is contained in [{0}] or disjoint from it, so that no input
    layer properly overlaps the integration scope.  Yet [integrate] over
    [{0}] returns no circuit: it raises [AssertionError], at the input
    layer over variable 1, which falls into the branch that copies the
    sum and product layers.  Over the full scope the same circuit is
    integrated. *)
Theorem C5_integrate_subset_scope_raises :
  is_smooth examples.two_inputs = true /\
  is_decomposable examples.two_inputs = true /\
  sum_layers examples.two_inputs = [] /\
  product_layers examples.two_inputs = [] /\
  ({[0%nat]} : Scope) ⊆ symb_circuit.scope examples.two_inputs /\
  lclass <$> input_layers examples.two_inputs
    = [CategoricalLayer; CategoricalLayer] /\
  Forall (fun sl => layers.scope sl ⊆ ({[0%nat]} : Scope) \/
                    layers.scope sl ∩ {[0%nat]} = ∅)
    (input_layers examples.two_inputs) /\
  integrate examples.two_inputs (Some {[0%nat]}) default_registry 2
    = Raise AssertionError /\
  (forall c,
     integrate examples.two_inputs (Some {[0%nat]}) default_registry 2
       <> Ok c) /\
  integrate examples.two_inputs (Some {[0%nat]}) default_registry 2
    <> Raise NotImplementedError /\
  exists c, integrate examples.two_inputs None default_registry 2 = Ok c.
Proof.
  split_and!; try (by vm_compute).
  - unfold examples.two_inputs. simpl. set_solver.
  - unfold input_layers, examples.two_inputs, layers. simpl.
    repeat (rewrite filter_cons_True by done).
    apply Forall_cons. split; [left; simpl; set_solver|].
    apply Forall_cons. split; [right; simpl; set_solver|].
    apply Forall_nil_2.
  - eexists. by vm_compute.
Qed.

(** The circuit that [integrate] returns has the scope of its operand,
    whatever the integration scope. *)
Lemma integrate_keeps_scope sc scope registry fresh c :
  integrate sc scope registry fresh = Ok c ->
  symb_circuit.scope c = symb_circuit.scope sc.
Proof.
  unfold integrate. repeat case_match; try done.
  destruct (integrate_layers _ _ _ _ _); simpl; [|done].
  by intros [= <-].
Qed.

(** C4 fails on the code: [integrate] builds its result with the scope of
    the operand.  The circuit of a categorical input layer over variable 0
    that feeds a dense layer is smooth and decomposable; integrated over
    its full scope it gives a circuit that is smooth and decomposable, whose
    input layer is a constant layer and which has as many input and inner
    layers as the operand, but whose scope is [{0}], not the empty scope. *)
Theorem C4_integrate_full_scope_not_empty :
  is_smooth examples.input_then_dense = true /\
  is_decomposable examples.input_then_dense = true /\
  exists c,
    integrate examples.input_then_dense None default_registry 2 = Ok c /\
    symb_circuit.scope c = {[0%nat]} /\
    symb_circuit.scope c ≠ ∅ /\
    is_smooth c = true /\
    is_decomposable c = true /\
    lclass <$> input_layers c = [ConstantLayer] /\
    length (input_layers c) = length (input_layers examples.input_then_dense) /\
    length (inner_layers c) = length (inner_layers examples.input_then_dense).
Proof.
  split; [by vm_compute|]. split; [by vm_compute|].
  eexists. split; [by vm_compute|].
  split_and!; by vm_compute.
Qed.

End integration.

(** ** Topological ordering of the layers *)

Section ordering.
Import layers symb_circuit.

Abbreviation getitem_fn :=
  (fun (sl : Layer) (d : gmap nat (list Layer)) => defaultdict_getitem d sl).

(** The lookups in a function [inc], which leave the state [tt]. *)
Abbreviation pure_fn inc := (fun (sl : Layer) (_ : unit) => (inc sl, tt)).

Lemma same_values_refl d : same_values d d.
Proof. by split. Qed.

Lemma same_values_trans d1 d2 d3 :
  same_values d1 d2 -> same_values d2 d3 -> same_values d1 d3.
Proof.
  intros [H1 H1'] [H2 H2']. split; [|congruence].
  intros sl. by rewrite H1.
Qed.

(** A lookup in a [defaultdict] returns the value of the key, or the empty
    list, and leaves a dictionary that answers as before. *)
Lemma defaultdict_getitem_spec d sl :
  (defaultdict_getitem d sl).1 = defaultdict_value d sl /\
  same_values d (defaultdict_getitem d sl).2.
Proof.
  unfold defaultdict_getitem, defaultdict_value.
  destruct (d !! lid sl) as [v|] eqn:Hd; simpl.
  - split; [done|]. apply same_values_refl.
  - split; [done|]. split.
    + intros sl'. unfold defaultdict_value.
      destruct (decide (lid sl = lid sl')) as [Heq|Hne].
      * rewrite <- Heq, Hd. by rewrite lookup_insert_eq.
      * by rewrite lookup_insert_ne.
    + unfold occurrences. by rewrite (map_to_list_insert d _ _ Hd).
Qed.

Lemma run_output_layers_spec ls : forall out,
  (run_output_layers ls out).1
    = filter (fun l => defaultdict_value out l = []) ls /\
  same_values out (run_output_layers ls out).2.
Proof.
  induction ls as [|l ls IH]; intros out; simpl.
  - split; [done|]. apply same_values_refl.
  - destruct (defaultdict_getitem_spec out l) as [Hv Hs].
    destruct (defaultdict_getitem out l) as [v out1]. simpl in Hv, Hs.
    destruct (IH out1) as [Hr Hs'].
    destruct (run_output_layers ls out1) as [r out2]. simpl in Hr, Hs'.
    simpl. split; [|by eapply same_values_trans].
    subst v r.
    assert (Hfil : filter (fun l0 => defaultdict_value out1 l0 = []) ls
                   = filter (fun l0 => defaultdict_value out l0 = []) ls).
    { apply list_filter_iff. intros x. destruct Hs as [Hs _].
      by rewrite Hs. }
    rewrite Hfil.
    destruct (defaultdict_value out l) eqn:Hl.
    + rewrite filter_cons_True; done.
    + rewrite filter_cons_False; [done|]. simpl. by rewrite Hl.
Qed.

(** The search through the dictionary yields what the search through
    the function of its values yields, and leaves a dictionary that answers
    as before. *)
Lemma visit_all_getitem inc
    (v1 : list Layer -> Layer -> gmap nat (list Layer)
          -> search * gmap nat (list Layer))
    (v2 : list Layer -> Layer -> unit -> search * unit) :
  (forall ord n d, (forall sl, defaultdict_value d sl = inc sl) ->
     (v1 ord n d).1 = (v2 ord n tt).1 /\ same_values d (v1 ord n d).2) ->
  forall ins ord d, (forall sl, defaultdict_value d sl = inc sl) ->
    (visit_all v1 ins ord d).1 = (visit_all v2 ins ord tt).1 /\
    same_values d (visit_all v1 ins ord d).2.
Proof.
  intros Hv. induction ins as [|n ins IH]; intros ord d Hd; simpl.
  - split; [done|]. apply same_values_refl.
  - destruct (Hv ord n d Hd) as [H1 H2].
    destruct (v1 ord n d) as [r1 d1], (v2 ord n tt) as [r2 []].
    simpl in H1, H2. subst r2.
    destruct r1 as [ord'| |]; simpl; try done.
    destruct (IH ord' d1) as [H3 H4].
    { intros sl. destruct H2 as [H2 _]. by rewrite <- H2. }
    split; [done|]. by eapply same_values_trans.
Qed.

Lemma visit_getitem inc : forall budget path ord n d,
  (forall sl, defaultdict_value d sl = inc sl) ->
  (visit getitem_fn budget path ord n d).1
    = (visit (pure_fn inc) budget path ord n tt).1 /\
  same_values d (visit getitem_fn budget path ord n d).2.
Proof.
  induction budget as [|budget IH]; intros path ord n d Hd; simpl.
  - split; [done|]. apply same_values_refl.
  - case_bool_decide; [split; [done|apply same_values_refl]|].
    case_bool_decide; [split; [done|apply same_values_refl]|].
    destruct (defaultdict_getitem_spec d n) as [Hv Hs].
    destruct (defaultdict_getitem d n) as [ins d1]. simpl in Hv, Hs.
    subst ins. rewrite Hd.
    destruct (visit_all_getitem inc
                (visit getitem_fn budget (lid n :: path))
                (visit (pure_fn inc) budget (lid n :: path))
                (IH (lid n :: path)) (inc n) ord d1) as [H1 H2].
    { intros sl. destruct Hs as [Hs _]. by rewrite <- Hs. }
    destruct (visit_all (visit getitem_fn budget (lid n :: path)) (inc n)
                ord d1) as [r1 d2].
    destruct (visit_all (visit (pure_fn inc) budget (lid n :: path)) (inc n)
                ord tt) as [r2 []].
    simpl in H1, H2. subst r2.
    assert (same_values d d2) by (by eapply same_values_trans).
    by destruct r1.
Qed.

(** *** The ordering found respects the incoming layers *)

Lemma visit_all_respects inc
    (vis : list Layer -> Layer -> unit -> search * unit) :
  (forall ord n ord' u, respects inc ord -> vis ord n tt = (Found ord', u) ->
     respects inc ord' /\ ord `prefix_of` ord' /\ lid n ∈ lid <$> ord') ->
  forall ins ord ord' u,
    respects inc ord -> visit_all vis ins ord tt = (Found ord', u) ->
    respects inc ord' /\ ord `prefix_of` ord' /\
    forall m, m ∈ ins -> lid m ∈ lid <$> ord'.
Proof.
  intros Hv. induction ins as [|n ins IH]; intros ord ord' u Hr; simpl.
  - intros [= <- <-]. split; [done|]. split; [done|].
    intros m Hm. by apply elem_of_nil in Hm.
  - destruct (vis ord n tt) as [r []] eqn:Hvis.
    destruct r as [ord1| |]; try done.
    destruct (Hv _ _ _ _ Hr Hvis) as (Hr1 & Hp1 & Hn1).
    intros Hall. destruct (IH _ _ _ Hr1 Hall) as (Hr2 & Hp2 & Hins).
    split; [done|]. split; [by etrans|].
    intros m [->|Hm]%elem_of_cons; [|by apply Hins].
    destruct Hp2 as [k ->]. rewrite fmap_app. apply elem_of_app. by left.
Qed.

Lemma respects_snoc inc ord n :
  respects inc ord -> (forall b, b ∈ inc n -> lid b ∈ lid <$> ord) ->
  respects inc (ord ++ [n]).
Proof.
  intros Hr Hn i a Hi b Hb.
  destruct (decide (i < length ord)%nat) as [Hlt|Hge].
  - rewrite lookup_app_l in Hi by done.
    rewrite take_app_le by lia. by eapply Hr.
  - assert (i = length ord) as ->.
    { apply lookup_lt_Some in Hi. rewrite length_app in Hi. simpl in Hi. lia. }
    rewrite list_lookup_middle in Hi by done. injection Hi as <-.
    rewrite take_app_length. by apply Hn.
Qed.

Lemma visit_respects inc : forall budget path ord n ord' u,
  respects inc ord ->
  visit (pure_fn inc) budget path ord n tt = (Found ord', u) ->
  respects inc ord' /\ ord `prefix_of` ord' /\ lid n ∈ lid <$> ord'.
Proof.
  induction budget as [|budget IH]; intros path ord n ord' u Hr; simpl;
    [done|].
  case_bool_decide as Hin; [by intros [= <- <-]|].
  case_bool_decide; [done|].
  destruct (visit_all (visit (pure_fn inc) budget (lid n :: path)) (inc n)
              ord tt) as [r []] eqn:Hall.
  destruct r as [o| |]; try done. intros [= <- <-].
  destruct (visit_all_respects inc _ (IH (lid n :: path)) _ _ _ _ Hr Hall)
    as (Hr1 & Hp1 & Hins).
  split; [by apply respects_snoc|]. split.
  - etrans; [done|]. by apply prefix_app_r.
  - rewrite fmap_app. apply elem_of_app. right. by left.
Qed.

(** *** An ordering that respects the incoming layers excludes cycles *)

Section respected.
Context (inc : Layer -> list Layer)
        (inc_lid : forall a b, lid a = lid b -> inc a = inc b)
        (ord : list Layer) (Hord : respects inc ord).

Lemma respects_descend i a b :
  (lid <$> ord) !! i = Some (lid a) -> takes inc a b ->
  exists j, (j < i)%nat /\ (lid <$> ord) !! j = Some (lid b).
Proof.
  rewrite list_lookup_fmap. intros Hi Hb.
  destruct (ord !! i) as [a'|] eqn:Ha'; [|done]. injection Hi as Hi.
  unfold takes in Hb. rewrite <- (inc_lid a' a Hi) in Hb.
  pose proof (Hord i a' Ha' b Hb) as Hin.
  apply list_elem_of_lookup in Hin as [j Hj].
  assert (j < i)%nat as Hlt.
  { apply lookup_lt_Some in Hj. rewrite length_fmap, length_take in Hj. lia. }
  exists j. split; [done|].
  rewrite list_lookup_fmap in Hj. rewrite lookup_take_lt in Hj by done.
  by rewrite list_lookup_fmap.
Qed.

Lemma respects_tc a c :
  tc (takes inc) a c ->
  forall i, (lid <$> ord) !! i = Some (lid a) ->
    exists j, (j < i)%nat /\ (lid <$> ord) !! j = Some (lid c).
Proof.
  induction 1 as [a c Hac|a b c Hab Hbc IH]; intros i Hi.
  - by eapply respects_descend.
  - destruct (respects_descend i a b Hi Hab) as (j & Hj & Hb).
    destruct (IH j Hb) as (k & Hk & Hc). exists k. split; [lia|done].
Qed.

Lemma respects_acyclic a :
  lid a ∈ lid <$> ord -> ~ tc (takes inc) a a.
Proof.
  intros [i Hi]%list_elem_of_lookup Hcyc. revert Hi.
  induction (lt_wf i) as [i _ IH]. intros Hi.
  destruct (respects_tc a a Hcyc i Hi) as (j & Hj & Hj').
  by apply (IH j).
Qed.

Lemma respects_rtc o x :
  rtc (takes inc) o x -> lid o ∈ lid <$> ord -> lid x ∈ lid <$> ord.
Proof.
  induction 1 as [|a b c Hab Hbc IH]; [done|].
  intros [i Hi]%list_elem_of_lookup. apply IH.
  destruct (respects_descend i a b Hi Hab) as (j & _ & Hj).
  apply list_elem_of_lookup. by exists j.
Qed.

End respected.

(** *** A search that finds no ordering has met a cycle *)

Section cyclic.
Context (inc : Layer -> list Layer)
        (inc_lid : forall a b, lid a = lid b -> inc a = inc b)
        (R : Layer -> Prop)
        (HR : forall a b, R a -> takes inc a b -> R b).

Lemma tc_takes_lid a b c :
  lid a = lid b -> tc (takes inc) a c -> tc (takes inc) b c.
Proof.
  intros Heq Hac. unfold takes in *.
  destruct Hac as [a c Hac|a y c Hay Hyc].
  - apply tc_once. by rewrite <- (inc_lid a b Heq).
  - apply (tc_l _ _ y); [|done]. by rewrite <- (inc_lid a b Heq).
Qed.

Lemma visit_all_Cyclic (P : Layer -> Prop) (C : Prop)
    (vis : list Layer -> Layer -> unit -> search * unit) :
  (forall ord n u, P n -> vis ord n tt = (Cyclic, u) -> C) ->
  forall ins ord u, (forall m, m ∈ ins -> P m) ->
    visit_all vis ins ord tt = (Cyclic, u) -> C.
Proof.
  intros Hv. induction ins as [|n ins IH]; intros ord u Hins; simpl; [done|].
  destruct (vis ord n tt) as [r []] eqn:Hvis.
  destruct r as [ord'| |]; try done.
  - apply IH. intros m Hm. apply Hins. by right.
  - intros _. apply (Hv ord n tt); [|done]. apply Hins. by left.
Qed.

(** [chain] holds the layers being visited, each of which reaches [n]
    through incoming layers; [R] holds of the layers that the search can
    reach.  The search gives up only at a layer that is being visited,
    which lies on a cycle. *)
Lemma visit_Cyclic : forall budget chain ord n u,
  (forall c, c ∈ chain -> tc (takes inc) c n) -> R n ->
  visit (pure_fn inc) budget (lid <$> chain) ord n tt = (Cyclic, u) ->
  exists x, R x /\ tc (takes inc) x x.
Proof.
  induction budget as [|budget IH]; intros chain ord n u Hchain Hn; simpl;
    [done|].
  case_bool_decide as Hin; [done|].
  case_bool_decide as Hpath.
  - intros _. apply list_elem_of_fmap in Hpath as (c & Heq & Hc).
    exists n. split; [done|].
    apply (tc_takes_lid c n n); [done|]. by apply Hchain.
  - destruct (visit_all (visit (pure_fn inc) budget (lid n :: (lid <$> chain)))
                (inc n) ord tt) as [r []] eqn:Hall.
    destruct r as [o| |]; try done. intros _.
    apply (visit_all_Cyclic
             (fun m => (forall c, c ∈ n :: chain -> tc (takes inc) c m) /\ R m)
             _ (visit (pure_fn inc) budget (lid <$> (n :: chain)))
             (fun ord' m u' Hm =>
                IH (n :: chain) ord' m u' (proj1 Hm) (proj2 Hm))
             (inc n) ord tt); [|done].
    intros m Hm. split.
    + intros c [->|Hc]%elem_of_cons; [by apply tc_once|].
      eapply tc_r; [by apply Hchain|done].
    + by apply (HR n).
Qed.

End cyclic.

(** *** The budget is not used up *)

Section budget.
Context (inc : Layer -> list Layer) (U : list nat)
        (HU : forall a b, b ∈ inc a -> lid b ∈ U).

Lemma visit_all_not_exhausted
    (vis : list Layer -> Layer -> unit -> search * unit) :
  (forall ord n, lid n ∈ U -> (vis ord n tt).1 <> Exhausted) ->
  forall ins ord, (forall m, m ∈ ins -> lid m ∈ U) ->
    (visit_all vis ins ord tt).1 <> Exhausted.
Proof.
  intros Hv. induction ins as [|n ins IH]; intros ord Hins; simpl; [done|].
  pose proof (Hv ord n (Hins n ltac:(by left))) as Hn.
  destruct (vis ord n tt) as [r []]. simpl in Hn.
  destruct r as [ord'| |]; try done.
  apply IH. intros m Hm. apply Hins. by right.
Qed.

Lemma visit_not_exhausted : forall budget path ord n,
  NoDup path -> (forall k, k ∈ path -> k ∈ U) -> lid n ∈ U ->
  (length U < budget + length path)%nat ->
  (visit (pure_fn inc) budget path ord n tt).1 <> Exhausted.
Proof.
  induction budget as [|budget IH]; intros path ord n Hnd Hsub Hn Hlen.
  - exfalso.
    pose proof (submseteq_length _ _ (NoDup_submseteq _ _ Hnd Hsub)). lia.
  - simpl. case_bool_decide; [done|]. case_bool_decide as Hpath; [done|].
    pose proof (visit_all_not_exhausted
                  (visit (pure_fn inc) budget (lid n :: path))) as Hall.
    specialize (Hall (fun ord' m Hm =>
      IH (lid n :: path) ord' m
        ltac:(by apply NoDup_cons)
        ltac:(by intros k [->|Hk]%elem_of_cons; [|apply Hsub])
        Hm ltac:(simpl; lia))).
    specialize (Hall (inc n) ord (HU n)).
    destruct (visit_all (visit (pure_fn inc) budget (lid n :: path)) (inc n)
                ord tt) as [r []].
    simpl in Hall. by destruct r.
Qed.

End budget.

(** *** The layers of a circuit *)

(** The identities of the layers in the values of a dictionary. *)
Abbreviation value_ids_of l :=
  (mjoin ((fun kv : nat * list Layer => lid <$> kv.2) <$> l)).
Abbreviation value_ids d := (value_ids_of (map_to_list d)).

Lemma length_value_ids (d : gmap nat (list Layer)) :
  length (value_ids d) = occurrences d.
Proof.
  unfold occurrences. induction (map_to_list d) as [|kv l IH]; [done|].
  rewrite fmap_cons.
  change (length ((lid <$> kv.2) ++ value_ids_of l)
          = (length kv.2 + sum_list_with (fun kv => length kv.2) l)%nat).
  by rewrite length_app, length_fmap, IH.
Qed.

Lemma elem_of_value_ids (d : gmap nat (list Layer)) a b :
  b ∈ defaultdict_value d a -> lid b ∈ value_ids d.
Proof.
  unfold defaultdict_value. intros Hb.
  destruct (d !! lid a) as [v|] eqn:Hd; simpl in Hb;
    [|by apply elem_of_nil in Hb].
  apply list_elem_of_join. exists (lid <$> v). split.
  - by apply list_elem_of_fmap_2.
  - apply list_elem_of_fmap. exists (lid a, v). split; [done|].
    by apply elem_of_map_to_list.
Qed.

Lemma defaultdict_value_lid (d : gmap nat (list Layer)) a b :
  lid a = lid b -> defaultdict_value d a = defaultdict_value d b.
Proof. unfold defaultdict_value. by intros ->. Qed.

Lemma respects_nil inc : respects inc [].
Proof. intros i a Hi. by rewrite lookup_nil in Hi. Qed.

(** What [layers_topological_ordering] returns, in terms of the search
    through a function [inc] that gives the values of [_in_layers]; the
    circuit after the call has the same layers and dictionaries that answer
    as before. *)
Lemma layers_topological_ordering_spec set_iter sc inc :
  (forall sl, defaultdict_value (_in_layers sc) sl = inc sl) ->
  exists sc',
    layers_topological_ordering set_iter sc =
      (match (visit_all
                (visit (pure_fn inc)
                   (topological_ordering_budget (_layers sc) (_in_layers sc))
                   [])
                (set_iter (output_layers sc)) [] tt).1 with
       | Found o => Some (Ok o)
       | Cyclic => Some (Raise ValueError)
       | Exhausted => None
       end, sc') /\
    _layers sc' = _layers sc /\
    same_values (_in_layers sc) (_in_layers sc') /\
    same_values (_out_layers sc) (_out_layers sc').
Proof.
  intros Hinc. unfold layers_topological_ordering, topological_ordering.
  generalize (topological_ordering_budget (_layers sc) (_in_layers sc)).
  intros budget.
  destruct (run_output_layers_spec (_layers sc) (_out_layers sc))
    as [Houts Hout].
  destruct (run_output_layers (_layers sc) (_out_layers sc)) as [outs out'].
  simpl in Houts, Hout. subst outs.
  change (filter (fun l => defaultdict_value (_out_layers sc) l = [])
            (_layers sc)) with (output_layers sc).
  destruct (visit_all_getitem inc _ _ (visit_getitem inc budget [])
              (set_iter (output_layers sc)) [] (_in_layers sc) Hinc)
    as [Hr Hin].
  destruct (visit_all _ (set_iter (output_layers sc)) [] (_in_layers sc))
    as [r in'].
  simpl in Hr, Hin. rewrite <- Hr. by eexists.
Qed.

Lemma output_layers_same sc sc' :
  _layers sc' = _layers sc ->
  same_values (_out_layers sc) (_out_layers sc') ->
  output_layers sc' = output_layers sc.
Proof.
  intros Hl [Hout _]. unfold output_layers, layers, layer_outputs.
  rewrite Hl. apply list_filter_iff. intros x. by rewrite Hout.
Qed.

(** C9, as the code has it.  For every order [set_iter] in which a set of
    layers is iterated (its elements are those put in the set, one for
    each identity): [layers_topological_ordering] called twice on a circuit
    returns the same result; the call returns (the budget of the model is
    not used up); it never raises CyclicGraphError; it raises [ValueError]
    when a cycle of the layer adjacency can be reached backward from an
    output layer, and only then: without such a cycle it returns an
    ordering, whatever cycles the adjacency has elsewhere. *)
Theorem C9_layers_topological_ordering
    (set_iter : list Layer -> list Layer) (sc : SymbCircuit)
    (Hsub : forall l x, x ∈ set_iter l -> x ∈ l)
    (Hall : forall l x, x ∈ l -> lid x ∈ lid <$> set_iter l) :
  let first := layers_topological_ordering set_iter sc in
  let second := layers_topological_ordering set_iter first.2 in
  second.1 = first.1 /\
  (exists r, first.1 = Some r) /\
  first.1 <> Some (Raise CyclicGraphError) /\
  (cycle_reachable sc -> first.1 = Some (Raise ValueError)) /\
  (first.1 = Some (Raise ValueError) -> cycle_reachable sc) /\
  (~ cycle_reachable sc -> exists ordering, first.1 = Some (Ok ordering)).
Proof.
  set (inc := layer_inputs sc).
  destruct (layers_topological_ordering_spec set_iter sc inc)
    as (sc1 & Hfirst & Hl1 & Hin1 & Hout1); [done|].
  destruct (layers_topological_ordering_spec set_iter sc1 inc)
    as (sc2 & Hsecond & _).
  { intros sl. destruct Hin1 as [Hin1 _]. by rewrite <- Hin1. }
  cbv zeta. rewrite Hfirst. cbn [fst snd]. rewrite Hsecond. cbn [fst snd].
  rewrite (output_layers_same sc sc1 Hl1 Hout1), Hl1.
  assert (Hbudget : topological_ordering_budget (_layers sc) (_in_layers sc1)
                    = topological_ordering_budget (_layers sc) (_in_layers sc)).
  { unfold topological_ordering_budget. destruct Hin1 as [_ Hocc].
    by rewrite Hocc. }
  rewrite Hbudget. clear Hfirst Hsecond Hbudget.
  set (budget := topological_ordering_budget (_layers sc) (_in_layers sc)).
  set (roots := set_iter (output_layers sc)).
  (* the budget is not used up *)
  assert (Hbud : (visit_all (visit (pure_fn inc) budget []) roots [] tt).1
                 <> Exhausted).
  { apply (visit_all_not_exhausted
             ((lid <$> _layers sc) ++ value_ids (_in_layers sc))).
    - intros ord n Hn.
      apply (visit_not_exhausted inc
               ((lid <$> _layers sc) ++ value_ids (_in_layers sc)));
        try done.
      + intros a b Hb. apply elem_of_app. right. by eapply elem_of_value_ids.
      + apply NoDup_nil_2.
      + intros k Hk. by apply elem_of_nil in Hk.
      + rewrite length_app, length_fmap, length_value_ids.
        unfold budget, topological_ordering_budget. simpl. lia.
    - intros m Hm. apply elem_of_app. left. apply list_elem_of_fmap_2.
      apply Hsub in Hm. unfold output_layers in Hm.
      by apply list_elem_of_filter in Hm as [_ Hm]. }
  clearbody budget.
  (* a cycle that can be reached excludes an ordering *)
  assert (Hcyc : cycle_reachable sc ->
            (visit_all (visit (pure_fn inc) budget []) roots [] tt).1
              = Cyclic).
  { intros (o & x & Ho & Hox & Hxx).
    destruct (visit_all (visit (pure_fn inc) budget []) roots [] tt)
      as [[ord| |] []] eqn:Hvis; simpl in *; try done.
    exfalso.
    destruct (visit_all_respects inc _ (visit_respects inc budget [])
                roots [] ord tt (respects_nil inc) Hvis) as (Hord & _ & Hroots).
    assert (Ho' : lid o ∈ lid <$> ord).
    { specialize (Hall _ _ Ho).
      apply list_elem_of_fmap in Hall as (y & -> & Hy). by apply Hroots. }
    apply (respects_acyclic inc (defaultdict_value_lid (_in_layers sc)) ord
             Hord x); [|done].
    by apply (respects_rtc inc (defaultdict_value_lid (_in_layers sc)) ord
                Hord o x). }
  (* the search gives up only at a cycle that can be reached *)
  assert (Hfound : (visit_all (visit (pure_fn inc) budget []) roots [] tt).1
                     = Cyclic -> cycle_reachable sc).
  { destruct (visit_all (visit (pure_fn inc) budget []) roots [] tt)
      as [r []] eqn:Hvis. simpl. intros ->.
    apply (visit_all_Cyclic
             (fun n => exists o, o ∈ output_layers sc /\ rtc (takes inc) o n)
             _ (visit (pure_fn inc) budget (lid <$> []))
             (fun ord n u Hn =>
                visit_Cyclic inc (defaultdict_value_lid (_in_layers sc))
                  (fun n => exists o,
                     o ∈ output_layers sc /\ rtc (takes inc) o n)
                  (fun a b '(ex_intro _ o (conj Ho Hoa)) Hab =>
                     ex_intro _ o (conj Ho (rtc_r _ _ _ Hoa Hab)))
                  budget [] ord n u
                  (fun c Hc => False_ind _ (proj1 (elem_of_nil c) Hc)) Hn)
             roots [] tt) in Hvis.
    - destruct Hvis as (x & (o & Ho & Hox) & Hxx). by exists o, x.
    - intros m Hm. exists m. split; [by apply Hsub|done]. }
  split_and!.
  - done.
  - destruct (visit_all _ roots [] tt) as [[o| |] []]; simpl in *;
      [by eexists|by eexists|done].
  - destruct (visit_all _ roots [] tt) as [[o| |] []]; simpl; congruence.
  - intros Hc. by rewrite (Hcyc Hc).
  - intros Hv. apply Hfound.
    destruct (visit_all _ roots [] tt) as [[o| |] []]; simpl in *;
      congruence.
  - intros Hn.
    destruct (visit_all _ roots [] tt) as [[o| |] []]; simpl in *;
      [by eexists|by destruct Hn; apply Hfound|done].
Qed.

(** *** A concrete iteration order of sets *)

Lemma first_occurrences_sub ls : forall seen x,
  x ∈ first_occurrences seen ls -> x ∈ ls.
Proof.
  induction ls as [|l ls IH]; intros seen x; simpl; [done|].
  case_bool_decide.
  - intros Hx. right. by eapply IH.
  - intros [->|Hx]%elem_of_cons; [by left|]. right. by eapply IH.
Qed.

Lemma first_occurrences_all ls : forall seen x,
  x ∈ ls -> lid x ∈ seen \/ lid x ∈ lid <$> first_occurrences seen ls.
Proof.
  induction ls as [|l ls IH]; intros seen x Hx; simpl;
    [by apply elem_of_nil in Hx|].
  apply elem_of_cons in Hx as [->|Hx].
  - case_bool_decide; [by left|]. right. rewrite fmap_cons. by left.
  - case_bool_decide.
    + by apply IH.
    + destruct (IH (lid l :: seen) x Hx) as [[Heq|Hs]%elem_of_cons|Hin].
      * right. rewrite fmap_cons, Heq. by left.
      * by left.
      * right. rewrite fmap_cons. by right.
Qed.

End ordering.

Lemma C9_layers_topological_ordering_witness :
  (symb_circuit.layers_topological_ordering
     (symb_circuit.first_occurrences []) examples.cycle_below_output).1
    = Some (Raise ValueError).
Proof.
  refine (proj1 (proj2 (proj2 (proj2
            (C9_layers_topological_ordering
               (symb_circuit.first_occurrences [])
               examples.cycle_below_output _ _)))) _).
  - intros l x. apply first_occurrences_sub.
  - intros l x Hx.
    destruct (first_occurrences_all l [] x Hx) as [Hnil|Hin]; [|done].
    by apply elem_of_nil in Hnil.
  - exists (layers.Layer_init 2 layers.DenseLayer {[0%nat]} 1 1 1),
           (layers.Layer_init 0 layers.DenseLayer {[0%nat]} 1 1 1).
    split; [|split].
    + apply list_elem_of_filter. split; [by vm_compute|].
      right. right. by left.
    + apply rtc_once. unfold symb_circuit.takes.
      change (symb_circuit.layer_inputs examples.cycle_below_output
                (layers.Layer_init 2 layers.DenseLayer {[0%nat]} 1 1 1))
        with [layers.Layer_init 0 layers.DenseLayer {[0%nat]} 1 1 1].
      by left.
    + apply (tc_l _ _ (layers.Layer_init 1 layers.DenseLayer {[0%nat]} 1 1 1)).
      * unfold symb_circuit.takes.
        change (symb_circuit.layer_inputs examples.cycle_below_output
                  (layers.Layer_init 0 layers.DenseLayer {[0%nat]} 1 1 1))
          with [layers.Layer_init 1 layers.DenseLayer {[0%nat]} 1 1 1].
        by left.
      * apply tc_once. unfold symb_circuit.takes.
        change (symb_circuit.layer_inputs examples.cycle_below_output
                  (layers.Layer_init 1 layers.DenseLayer {[0%nat]} 1 1 1))
          with [layers.Layer_init 0 layers.DenseLayer {[0%nat]} 1 1 1].
        by left.
Defined.

(** C9, as stated, fails.  On the circuit whose layers [a] and [b] feed
    each other below the output layer [c], [layers_topological_ordering]
    raises [ValueError], which is not CyclicGraphError.  On the circuit
    made of two layers that feed each other, the layer adjacency contains a
    cycle and admits no topological order, yet there is no output layer to
    start from and the call returns the empty ordering. *)
Lemma C9_counterexample :
  (symb_circuit.layers_topological_ordering
     (symb_circuit.first_occurrences []) examples.cycle_below_output).1
    = Some (Raise ValueError) /\
  (symb_circuit.layers_topological_ordering
     (symb_circuit.first_occurrences []) examples.cycle_below_output).1
    <> Some (Raise CyclicGraphError) /\
  tc (symb_circuit.takes (symb_circuit.layer_inputs examples.closed_cycle))
    (layers.Layer_init 0 layers.DenseLayer {[0%nat]} 1 1 1)
    (layers.Layer_init 0 layers.DenseLayer {[0%nat]} 1 1 1) /\
  (symb_circuit.layers_topological_ordering
     (symb_circuit.first_occurrences []) examples.closed_cycle).1
    = Some (Ok []).
Proof.
  split_and!.
  - by vm_compute.
  - by vm_compute.
  - apply (tc_l _ _ (layers.Layer_init 1 layers.DenseLayer {[0%nat]} 1 1 1)).
    + unfold symb_circuit.takes.
      change (symb_circuit.layer_inputs examples.closed_cycle
                (layers.Layer_init 0 layers.DenseLayer {[0%nat]} 1 1 1))
        with [layers.Layer_init 1 layers.DenseLayer {[0%nat]} 1 1 1].
      by left.
    + apply tc_once. unfold symb_circuit.takes.
      change (symb_circuit.layer_inputs examples.closed_cycle
                (layers.Layer_init 1 layers.DenseLayer {[0%nat]} 1 1 1))
        with [layers.Layer_init 0 layers.DenseLayer {[0%nat]} 1 1 1].
      by left.
  - by vm_compute.
Qed.

(** * Further properties *)

(** ** The compiler state after any sequence of requests *)

Section compiler_state.
Import torch_parameters compiler_invariant.
Context {TorchInitializer : Type}
        (compile_initializer : layers.Initializer -> TorchInitializer)
        (registered_fold_idx : Z).

Abbreviation compile_leaf' :=
  (torch_parameters.compile_leaf compile_initializer registered_fold_idx).
Abbreviation compile_leaves' :=
  (torch_parameters.compile_leaves compile_initializer registered_fold_idx).
Abbreviation compiler_t := (@TorchCompiler TorchInitializer).

Lemma compile_leaf_dom (compiler : compiler_t) r :
  dom (state (compile_leaf' compiler r).2)
    = dom (state compiler) ∪ {[request_id r]}.
Proof.
  destruct (state compiler !! request_id r) as [[t f]|] eqn:Hr.
  - rewrite (compile_leaf_compiled _ _ _ _ _ _ Hr). simpl.
    apply elem_of_dom_2 in Hr. apply set_eq. intros x.
    rewrite elem_of_union, elem_of_singleton.
    split; [tauto|]. by intros [?| ->].
  - destruct (compile_leaf_first compile_initializer registered_fold_idx
                _ _ Hr) as (t & -> & _).
    simpl. unfold register_compiled_parameter. rewrite Hr.
    rewrite dom_insert_L. apply (comm_L (∪)).
Qed.

Lemma compile_leaf_objects (compiler : compiler_t) r :
  length (objects (compile_leaf' compiler r).2)
    = (length (objects compiler)
       + if decide (request_id r ∈ dom (state compiler)) then 0 else 1)%nat.
Proof.
  destruct (state compiler !! request_id r) as [[t f]|] eqn:Hr.
  - rewrite (compile_leaf_compiled _ _ _ _ _ _ Hr). simpl.
    rewrite decide_True by (by eapply elem_of_dom_2). lia.
  - destruct (compile_leaf_first compile_initializer registered_fold_idx
                _ _ Hr) as (t & -> & _).
    simpl. rewrite decide_False by (by apply not_elem_of_dom).
    by rewrite length_app.
Qed.

(** X1: the number of tensor parameters that a sequence of compilation
    requests materialises is the number of distinct symbolic parameters
    among the requests that were not registered before: a parameter is
    materialised once, however often and in whatever order it is
    requested. *)
Theorem compile_leaves_materializes_distinct (rs : list request) :
  forall compiler : compiler_t,
    length (objects (compile_leaves' compiler rs))
      = (length (objects compiler)
         + size (list_to_set (request_id <$> rs) ∖ dom (state compiler)))%nat.
Proof.
  induction rs as [|r rs IH]; intros compiler.
  - simpl. replace (∅ ∖ dom (state compiler)) with (∅ : gset nat).
    + rewrite size_empty. lia.
    + apply set_eq. intros x. rewrite elem_of_difference, elem_of_empty.
      tauto.
  - change (compile_leaves' compiler (r :: rs))
      with (compile_leaves' (compile_leaf' compiler r).2 rs).
    rewrite IH, compile_leaf_objects, compile_leaf_dom.
    rewrite fmap_cons, list_to_set_cons.
    generalize (list_to_set (request_id <$> rs) : gset nat).
    generalize (dom (state compiler)). intros registered ids.
    destruct (decide (request_id r ∈ registered)) as [Hin|Hnin].
    + replace (({[request_id r]} ∪ ids) ∖ registered)
        with (ids ∖ (registered ∪ {[request_id r]})); [lia|].
      apply set_eq. intros x.
      rewrite !elem_of_difference, !elem_of_union, !elem_of_singleton.
      destruct (decide (x = request_id r)) as [->|]; tauto.
    + replace (({[request_id r]} ∪ ids) ∖ registered)
        with ({[request_id r]} ∪ ids ∖ (registered ∪ {[request_id r]})).
      * pose proof (size_union (C := gset nat) {[request_id r]}
                      (ids ∖ (registered ∪ {[request_id r]}))) as Hsize.
        rewrite Hsize, size_singleton; [lia|].
        intros x. rewrite elem_of_singleton, elem_of_difference,
          elem_of_union, elem_of_singleton. tauto.
      * apply set_eq. intros x.
        rewrite !elem_of_union, !elem_of_difference, !elem_of_union,
          !elem_of_singleton.
        destruct (decide (x = request_id r)) as [->|]; tauto.
Qed.

Lemma consistent_empty : consistent (mkTorchCompiler ∅ [] : compiler_t).
Proof.
  split_and!; simpl.
  - intros i t Hi. by rewrite lookup_nil in Hi.
  - intros p t f Hp. by rewrite lookup_empty in Hp.
  - intros p q t f t' f' Hp. by rewrite lookup_empty in Hp.
  - intros t Ht. by apply elem_of_nil in Ht.
Qed.

Lemma compile_leaf_consistent (compiler : compiler_t) r :
  consistent compiler -> consistent (compile_leaf' compiler r).2.
Proof.
  intros (Hpos & Hreg & Hinj & Hsurj).
  destruct (state compiler !! request_id r) as [[t f]|] eqn:Hr.
  { by rewrite (compile_leaf_compiled _ _ _ _ _ _ Hr). }
  destruct (compile_leaf_first compile_initializer registered_fold_idx
              _ _ Hr) as (t & -> & Htid).
  simpl. unfold register_compiled_parameter. rewrite Hr.
  assert (Hfresh : forall p t' f,
            state compiler !! p = Some (t', f) -> tid t' <> tid t).
  { intros p t' f Hp Heq. apply Hreg in Hp.
    apply lookup_lt_Some in Hp. lia. }
  split_and!; simpl.
  - intros i t' [[_ Hi]|[-> <-]]%lookup_snoc_Some; [by apply Hpos|done].
  - intros p t' f [[<- [= <- <-]]|[Hne Hp]]%lookup_insert_Some.
    + rewrite Htid. apply list_lookup_middle. done.
    + rewrite lookup_app_l; [by eapply Hreg|].
      apply Hreg in Hp. by apply lookup_lt_Some in Hp.
  - intros p q t1 f1 t2 f2
      [[<- [= <- <-]]|[Hne1 Hp]]%lookup_insert_Some
      [[<- [= <- <-]]|[Hne2 Hq]]%lookup_insert_Some Heq; try done.
    + exfalso. by eapply Hfresh.
    + exfalso. by eapply Hfresh.
    + by eapply Hinj.
  - intros t' [Ht'|Ht']%elem_of_app.
    2: apply list_elem_of_singleton in Ht' as ->.
    + destruct (Hsurj t' Ht') as (p & f & Hp). exists p, f.
      rewrite lookup_insert_ne; [done|]. intros <-. congruence.
    + exists (request_id r), registered_fold_idx. apply lookup_insert_eq.
Qed.

(** X2: whatever is requested of a compiler whose registrations and objects
    agree (the compiler that has compiled nothing is one), they still
    agree afterwards: a registered parameter references a materialised
    object, no two registered parameters share a materialisation, and
    nothing is materialised without being registered. *)
Theorem compile_leaves_consistent (rs : list request) :
  forall compiler : compiler_t,
    consistent compiler -> consistent (compile_leaves' compiler rs).
Proof.
  induction rs as [|r rs IH]; intros compiler Hc; [done|].
  change (compile_leaves' compiler (r :: rs))
    with (compile_leaves' (compile_leaf' compiler r).2 rs).
  apply IH. by apply compile_leaf_consistent.
Qed.

End compiler_state.

Lemma compile_leaves_consistent_witness :
  compiler_invariant.consistent
    (torch_parameters.compile_leaves id 0 examples.empty_compiler
       [examples.tensor_request; examples.constant_request;
        examples.tensor_request]).
Proof.
  apply (compile_leaves_consistent id 0
           [examples.tensor_request; examples.constant_request;
            examples.tensor_request] examples.empty_compiler).
  apply consistent_empty.
Defined.

Section integration_structure.
Import layers symb_circuit functional integral_circuit.

Lemma dict_setitem_fresh {V} (d : list (nat * V)) k v :
  k ∉ d.*1 -> dict_setitem d k v = d ++ [(k, v)].
Proof.
  induction d as [|[k' v'] d IH]; simpl; [done|].
  intros Hk. apply not_elem_of_cons in Hk as [Hne Hk].
  rewrite decide_False by done. by rewrite IH.
Qed.

Lemma dict_getitem_lookup {V} (d : list (nat * V)) k v :
  dict_getitem d k = Ok v -> exists j, d !! j = Some (k, v).
Proof.
  induction d as [|[k' v'] d IH]; simpl; [done|].
  case_decide as Hk.
  - intros [= ->]. subst. by exists 0%nat.
  - intros [j Hj]%IH. by exists (S j).
Qed.

Lemma mapM_Forall2 {A B} (f : A -> result B) (l : list A) ys :
  mapM f l = Ok ys -> Forall2 (fun x y => f x = Ok y) l ys.
Proof.
  revert ys. induction l as [|x l IH]; simpl; intros ys.
  - intros [= <-]. constructor.
  - destruct (f x) as [y|] eqn:Hy; simpl; [|done].
    destruct (mapM f l) as [ys'|]; simpl; [|done].
    intros [= <-]. constructor; [done|]. by apply IH.
Qed.

Lemma image_mono ls new_ls ls' new_ls' isl new_isl :
  length ls = length new_ls ->
  image ls new_ls isl new_isl ->
  image (ls ++ ls') (new_ls ++ new_ls') isl new_isl.
Proof.
  intros Hlen (j & sl & Hj & Hid & Hn). exists j, sl.
  split_and!; [|done|]; by apply lookup_app_l_Some.
Qed.

Lemma loop_invariant_init registry sc s fresh :
  loop_invariant registry sc s fresh [] (mkRewrite [] ∅ ∅ fresh).
Proof.
  unfold loop_invariant. simpl. split_and!; try done; lia.
Qed.

Lemma foldl_insert_lookup (v : list Layer) (l : list Layer)
    (d : gmap nat (list Layer)) k :
  foldl (fun out isl => <[lid isl := v]> out) d l !! k
    = if decide (k ∈ lid <$> l) then Some v else d !! k.
Proof.
  revert d. induction l as [|x l IH]; intros d.
  - case_decide as Hk; [|done]. by apply elem_of_nil in Hk.
  - cbn [foldl]. rewrite IH, fmap_cons.
    destruct (decide (k ∈ lid <$> l)) as [Hk|Hk].
    + rewrite decide_True; [done|]. by right.
    + destruct (decide (k = lid x)) as [->|Hne].
      * rewrite decide_True by (by left). apply lookup_insert_eq.
      * rewrite decide_False.
        -- by apply lookup_insert_ne.
        -- intros [?|?]%elem_of_cons; congruence.
Qed.

Lemma input_class_cases (c : LayerClass) :
  is_InputLayer c = true -> is_SumLayer c || is_ProductLayer c = false.
Proof. by destruct c. Qed.

Lemma integrate_layer_invariant registry sc s fresh done st sl st' :
  lid sl ∉ lid <$> done ->
  loop_invariant registry sc s fresh done st ->
  integrate_layer registry sc s st sl = Ok st' ->
  loop_invariant registry sc s fresh (done ++ [sl]) st'.
Proof.
  intros Hnew (Hkeys & Hnext & Hlayers & Hin & Hin' & Hout & Hout') Hstep.
  assert (Hlen : length done = length (map_layers st).*2).
  { rewrite length_fmap, <- (length_fmap fst), Hkeys. by rewrite length_fmap. }
  assert (Hset : forall new_sl,
            dict_setitem (map_layers st) (lid sl) new_sl
              = map_layers st ++ [(lid sl, new_sl)]).
  { intros new_sl. apply dict_setitem_fresh. by rewrite Hkeys. }
  assert (Hlayers' : forall new_sl,
            integrated registry (fresh + length done) sl new_sl ->
            (is_InputLayer (lclass sl) = true ->
               layers.scope sl ∩ s ≠ ∅ /\ layers.scope sl ⊆ s) ->
            forall i sl', (done ++ [sl]) !! i = Some sl' ->
              exists new_sl',
                ((map_layers st).*2 ++ [new_sl]) !! i = Some new_sl' /\
                integrated registry (fresh + i) sl' new_sl' /\
                (is_InputLayer (lclass sl') = true ->
                   layers.scope sl' ∩ s ≠ ∅ /\ layers.scope sl' ⊆ s)).
  { intros new_sl Hint Hsc i sl' [Hi|[-> <-]]%lookup_snoc_Some.
    - destruct Hi as [Hlt Hi].
      destruct (Hlayers i sl' Hi) as (new_sl' & Hn & Hrest).
      exists new_sl'. split; [|done]. by apply lookup_app_l_Some.
    - exists new_sl. split; [|done]. rewrite Hlen. apply list_lookup_middle.
      done. }
  unfold integrate_layer in Hstep.
  destruct (is_InputLayer (lclass sl)) eqn:Hcls; simpl in Hstep.
  - destruct (scope_truthy (layers.scope sl ∩ s)) eqn:Hmeet; simpl in Hstep.
    2: { by rewrite (input_class_cases _ Hcls) in Hstep. }
    apply bool_decide_eq_true in Hmeet.
    destruct (bool_decide (layers.scope sl ⊆ s)) eqn:Hsub; simpl in Hstep;
      [|done].
    apply bool_decide_eq_true in Hsub.
    destruct (integration_rule registry sl) as [func|] eqn:Hrule;
      simpl in Hstep; [|done].
    destruct (func sl (next_id st)) as [new_sl|] eqn:Hfunc;
      simpl in Hstep; [|done].
    injection Hstep as <-. unfold loop_invariant. simpl.
    rewrite Hset, !fmap_app. simpl. split_and!.
    + by rewrite Hkeys.
    + rewrite length_app. simpl. lia.
    + apply Hlayers'; [|done]. unfold integrated. rewrite Hcls.
      exists func. split; [done|]. by rewrite <- Hnext.
    + intros k ins Hk. destruct (Hin k ins Hk) as (i & sl' & -> & Hi & Hc & HF).
      exists i, sl'. split_and!; try done.
      * by apply lookup_app_l_Some.
      * eapply Forall2_impl; [exact HF|]. intros isl n Himg.
        by apply image_mono.
    + intros i sl' [[Hlt Hi]|[-> <-]]%lookup_snoc_Some Hc.
      * by eapply Hin'.
      * congruence.
    + done.
    + done.
  - destruct (is_SumLayer (lclass sl) || is_ProductLayer (lclass sl));
      simpl in Hstep; [|done].
    destruct (mapM (fun isl => dict_getitem (map_layers st) (lid isl))
                (layer_inputs sc sl)) as [new_sl_inputs|] eqn:Hmap;
      simpl in Hstep; [|done].
    injection Hstep as <-. unfold loop_invariant. simpl.
    rewrite Hset, !fmap_app. simpl.
    assert (Himages :
      Forall2 (image (done ++ [sl])
                 ((map_layers st).*2 ++ [copy_layer (next_id st) sl]))
        (layer_inputs sc sl) new_sl_inputs).
    { apply mapM_Forall2 in Hmap.
      eapply Forall2_impl; [exact Hmap|]. intros isl n Hget. simpl in Hget.
      apply image_mono; [done|].
      apply dict_getitem_lookup in Hget as [j Hj].
      assert (Hk : (map_layers st).*1 !! j = Some (lid isl)).
      { by rewrite list_lookup_fmap, Hj. }
      rewrite Hkeys, list_lookup_fmap in Hk.
      destruct (done !! j) as [osl|] eqn:Hosl; [|done].
      exists j, osl. split_and!; [done|by injection Hk|].
      by rewrite list_lookup_fmap, Hj. }
    assert (Hold : forall k ins, in_layers st !! k = Some ins ->
                     k <> next_id st).
    { intros k ins Hk ->. destruct (Hin _ _ Hk) as (i & sl' & Heq & Hi & _).
      apply lookup_lt_Some in Hi. lia. }
    split_and!.
    + by rewrite Hkeys.
    + rewrite length_app. simpl. lia.
    + apply Hlayers'; [|congruence]. unfold integrated. rewrite Hcls.
      by rewrite Hnext.
    + intros k ins [[<- <-]|[Hne Hk]]%lookup_insert_Some.
      * exists (length done), sl. split_and!; try done.
        by apply list_lookup_middle.
      * destruct (Hin k ins Hk) as (i & sl' & -> & Hi & Hc & HF).
        exists i, sl'. split_and!; try done.
        -- by apply lookup_app_l_Some.
        -- eapply Forall2_impl; [exact HF|]. intros isl n Himg.
           by apply image_mono.
    + intros i sl' [[Hlt Hi]|[-> <-]]%lookup_snoc_Some Hc.
      * destruct (Hin' i sl' Hi Hc) as [ins Hins].
        exists ins. rewrite lookup_insert_ne; [done|].
        eapply not_eq_sym, Hold. done.
      * rewrite Hnext. eexists. apply lookup_insert_eq.
    + intros k outs. rewrite foldl_insert_lookup.
      destruct (decide (k ∈ lid <$> new_sl_inputs)) as [Hk|Hk].
      * intros [= <-]. split.
        -- apply list_elem_of_fmap in Hk as (n & -> & Hn). by exists n.
        -- eexists. apply lookup_insert_eq.
      * intros Hk'. destruct (Hout k outs Hk') as [Hself [k' Hk'']].
        split; [done|]. exists k'. rewrite lookup_insert_ne; [done|].
        eapply not_eq_sym, Hold. done.
    + intros k ins new_sl [[<- <-]|[Hne Hk]]%lookup_insert_Some Hn;
        rewrite foldl_insert_lookup.
      * rewrite decide_True; [by eexists|].
        apply list_elem_of_fmap. by exists new_sl.
      * case_decide; [by eexists|]. by eapply Hout'.
Qed.

Lemma integrate_layers_invariant registry sc s fresh ls :
  forall done st st',
    NoDup (lid <$> done ++ ls) ->
    loop_invariant registry sc s fresh done st ->
    integrate_layers registry sc s st ls = Ok st' ->
    loop_invariant registry sc s fresh (done ++ ls) st'.
Proof.
  induction ls as [|sl ls IH]; intros done st st' Hnd Hinv Hrun.
  - simpl in Hrun. injection Hrun as <-. by rewrite app_nil_r.
  - simpl in Hrun.
    destruct (integrate_layer registry sc s st sl) as [st1|] eqn:Hstep;
      simpl in Hrun; [|done].
    rewrite cons_middle, app_assoc. rewrite cons_middle, app_assoc in Hnd.
    apply (IH _ st1); [done| |done].
    eapply integrate_layer_invariant; [|done|done].
    rewrite !fmap_app in Hnd. apply NoDup_app in Hnd as [Hnd _].
    apply NoDup_app in Hnd as (_ & Hdisj & _).
    intros Hin. apply (Hdisj _ Hin). simpl. by left.
Qed.

Lemma integrate_Ok_inv sc scope registry fresh c :
  integrate sc scope registry fresh = Ok c ->
  is_smooth sc = true /\ is_decomposable sc = true /\
  exists st,
    integrate_layers registry sc (default (symb_circuit.scope sc) scope)
      (mkRewrite [] ∅ ∅ fresh) (layers sc) = Ok st /\
    c = mkSymbCircuit (symb_circuit.scope sc)
          (Some (symb_circuit.INTEGRATION, [sc],
                 Some (default (symb_circuit.scope sc) scope)))
          (dict_values (map_layers st)) (in_layers st) (out_layers st).
Proof.
  unfold integrate.
  destruct (is_smooth sc); simpl; [|done].
  destruct (is_decomposable sc); simpl; [|done].
  case_bool_decide; [done|].
  destruct (integrate_layers _ _ _ _ _) as [st|]; simpl; [|done].
  intros [= <-]. split_and!; try done. by exists st.
Qed.

Lemma integrate_invariant sc scope registry fresh c :
  distinct_layers sc ->
  integrate sc scope registry fresh = Ok c ->
  exists st,
    loop_invariant registry sc (default (symb_circuit.scope sc) scope) fresh
      (layers sc) st /\
    layers c = (map_layers st).*2 /\
    _in_layers c = in_layers st /\
    _out_layers c = out_layers st.
Proof.
  intros Hnd (_ & _ & st & Hrun & ->)%integrate_Ok_inv.
  exists st. split; [|done].
  apply (integrate_layers_invariant _ _ _ _ _ [] _ _ Hnd
           (loop_invariant_init _ _ _ _) Hrun).
Qed.

Lemma integrated_lid registry sc id sl new_sl :
  rules_build_over_scope registry sc -> sl ∈ layers sc ->
  integrated registry id sl new_sl ->
  lid new_sl = id /\ layers.scope new_sl = layers.scope sl.
Proof.
  intros Hrules Hsl. unfold integrated.
  destruct (is_InputLayer (lclass sl)).
  - intros (func & Hrule & Hfunc). by eapply Hrules.
  - by intros ->.
Qed.

(** X3: when [integrate] returns a circuit for an operand whose layers
    are distinct objects, the circuit has one layer for every layer of the
    operand, in the same order: the layer built by the integration rule for
    an input layer, a copy for a sum or a product layer.  Every input layer
    of the operand then lies within the integration scope: [integrate]
    returns no circuit when an input layer is outside of it. *)
Theorem integrate_layerwise sc scope registry fresh c :
  distinct_layers sc ->
  integrate sc scope registry fresh = Ok c ->
  let s := default (symb_circuit.scope sc) scope in
  length (layers c) = length (layers sc) /\
  forall i sl, layers sc !! i = Some sl ->
    exists new_sl,
      layers c !! i = Some new_sl /\
      integrated registry (fresh + i) sl new_sl /\
      (is_InputLayer (lclass sl) = true ->
         layers.scope sl ∩ s ≠ ∅ /\ layers.scope sl ⊆ s).
Proof.
  intros Hnd Hc s.
  destruct (integrate_invariant _ _ _ _ _ Hnd Hc)
    as (st & (Hkeys & _ & Hlayers & _) & -> & _).
  split; [|done].
  rewrite length_fmap, <- (length_fmap fst), Hkeys. by rewrite length_fmap.
Qed.

(** X4: the circuit that [integrate] returns is wired as its operand is:
    the layer built for an input layer has no inputs, and the inputs of
    the copy of a sum or a product layer are, in order, the layers built
    for the inputs of that layer. *)
Theorem integrate_wiring sc scope registry fresh c :
  distinct_layers sc ->
  rules_build_over_scope registry sc ->
  integrate sc scope registry fresh = Ok c ->
  forall i sl new_sl,
    layers sc !! i = Some sl -> layers c !! i = Some new_sl ->
    if is_InputLayer (lclass sl) then layer_inputs c new_sl = []
    else Forall2 (image (layers sc) (layers c))
           (layer_inputs sc sl) (layer_inputs c new_sl).
Proof.
  intros Hnd Hrules Hc i sl new_sl Hsl Hnew.
  destruct (integrate_invariant _ _ _ _ _ Hnd Hc)
    as (st & (_ & _ & Hlayers & Hin & Hin' & _) & Hls & Hil & _).
  rewrite Hls in Hnew |- *.
  destruct (Hlayers i sl Hsl) as (new_sl' & Hnew' & Hint & _).
  assert (new_sl' = new_sl) as -> by congruence.
  destruct (integrated_lid _ _ _ _ _ Hrules
              (list_elem_of_lookup_2 _ _ _ Hsl) Hint) as [Hid _].
  assert (Hinputs : layer_inputs c new_sl
                    = default [] (in_layers st !! (fresh + i)%nat)).
  { unfold layer_inputs, defaultdict_value. by rewrite Hil, Hid. }
  rewrite Hinputs.
  destruct (is_InputLayer (lclass sl)) eqn:Hcls.
  - destruct (in_layers st !! (fresh + i)%nat) as [ins|] eqn:Hk; [|done].
    destruct (Hin _ _ Hk) as (i' & sl' & Heq & Hsl' & Hcls' & _).
    assert (i' = i) as -> by lia. congruence.
  - destruct (Hin' i sl Hsl Hcls) as [ins Hk]. rewrite Hk. simpl.
    destruct (Hin _ _ Hk) as (i' & sl' & Heq & Hsl' & Hcls' & HF).
    assert (i' = i) as -> by lia. congruence.
Qed.

Lemma distinct_layers_lookup sc j sl isl :
  distinct_layers sc -> layers sc !! j = Some sl -> isl ∈ layers sc ->
  lid sl = lid isl -> sl = isl.
Proof.
  intros Hnd Hj [j' Hj']%list_elem_of_lookup_1 Hid.
  assert (j = j') as ->; [|congruence].
  apply (NoDup_lookup _ _ _ (lid sl) Hnd); rewrite list_lookup_fmap.
  - by rewrite Hj.
  - rewrite Hj'. simpl. by rewrite Hid.
Qed.

Lemma combinations2_Forall2 {A B} (R : A -> B -> Prop) l l' :
  Forall2 R l l' ->
  Forall2 (fun p q => R p.1 q.1 /\ R p.2 q.2)
    (combinations2 l) (combinations2 l').
Proof.
  induction 1 as [|x y l l' Hxy HF IH]; simpl; [constructor|].
  apply Forall2_app; [|done].
  apply Forall2_fmap. eapply Forall2_impl; [exact HF|]. by intros.
Qed.

(** In the circuit that [integrate] returns a layer has no inputs, or it
    has the class and the scope of a layer of the operand and its inputs
    have, one by one, the scopes of the inputs of that layer. *)
Lemma integrate_inputs_related sc scope registry fresh c :
  distinct_layers sc -> closed_inputs sc ->
  rules_build_over_scope registry sc ->
  integrate sc scope registry fresh = Ok c ->
  forall new_sl, new_sl ∈ layers c ->
    layer_inputs c new_sl = [] \/
    exists sl, sl ∈ layers sc /\ lclass new_sl = lclass sl /\
      layers.scope new_sl = layers.scope sl /\
      Forall2 (fun isl new_isl => layers.scope new_isl = layers.scope isl)
        (layer_inputs sc sl) (layer_inputs c new_sl).
Proof.
  intros Hnd Hclosed Hrules Hc new_sl [i Hnew]%list_elem_of_lookup_1.
  destruct (integrate_invariant _ _ _ _ _ Hnd Hc)
    as (st & (Hkeys & _ & Hlayers & Hin & Hin' & _) & Hls & Hil & _).
  rewrite Hls in Hnew.
  assert (Hlen : length (layers sc) = length (map_layers st).*2).
  { rewrite length_fmap, <- (length_fmap fst), Hkeys. by rewrite length_fmap. }
  destruct (lookup_lt_is_Some_2 (layers sc) i) as [sl Hsl].
  { rewrite Hlen. by eapply lookup_lt_Some. }
  destruct (Hlayers i sl Hsl) as (new_sl' & Hnew' & Hint & _).
  assert (new_sl' = new_sl) as -> by congruence.
  assert (Hsl_in : sl ∈ layers sc) by (by eapply list_elem_of_lookup_2).
  destruct (integrated_lid _ _ _ _ _ Hrules Hsl_in Hint) as [Hid Hscope].
  assert (Hinputs : layer_inputs c new_sl
                    = default [] (in_layers st !! (fresh + i)%nat)).
  { unfold layer_inputs, defaultdict_value. by rewrite Hil, Hid. }
  rewrite Hinputs.
  destruct (in_layers st !! (fresh + i)%nat) as [ins|] eqn:Hk; [|by left].
  right. exists sl.
  destruct (Hin _ _ Hk) as (i' & sl' & Heq & Hsl' & Hcls & HF).
  assert (i' = i) as -> by lia.
  assert (sl' = sl) as -> by congruence.
  split_and!; try done.
  - unfold integrated in Hint. rewrite Hcls in Hint. by subst new_sl.
  - simpl. apply Forall2_same_length_lookup in HF as [HFlen HF].
    apply Forall2_same_length_lookup. split; [done|].
    intros k isl n Hisl Hins.
    destruct (HF k isl n Hisl Hins) as (j & osl & Hosl & Hlid & Hn).
    assert (osl = isl) as ->.
    { eapply distinct_layers_lookup; try done.
      eapply Hclosed; [exact Hsl_in|].
      by eapply list_elem_of_lookup_2. }
    destruct (Hlayers j isl Hosl) as (n' & Hn2 & Hint' & _).
    assert (n' = n) as -> by congruence.
    by destruct (integrated_lid _ _ _ _ _ Hrules
                   (list_elem_of_lookup_2 _ _ _ Hosl) Hint').
Qed.

(** X5: the circuit that [integrate] returns passes the structural checks
    that [integrate] makes on its operand: [is_smooth] and
    [is_decomposable] return [True] on it (every input of a sum layer of
    the result has the scope of the sum layer, and every input of a
    product layer of the result, except the last one, has the empty
    scope, as in the operand). *)
Theorem integrate_preserves_structure sc scope registry fresh c :
  distinct_layers sc -> closed_inputs sc ->
  rules_build_over_scope registry sc ->
  integrate sc scope registry fresh = Ok c ->
  is_smooth c = true /\ is_decomposable c = true.
Proof.
  intros Hnd Hclosed Hrules Hc.
  pose proof (integrate_inputs_related _ _ _ _ _ Hnd Hclosed Hrules Hc)
    as Hrel.
  apply integrate_Ok_inv in Hc as (Hsm & Hde & _).
  split.
  - assert (Hsm' : forall sl isl,
              sl ∈ layers sc -> is_SumLayer (lclass sl) = true ->
              isl ∈ layer_inputs sc sl -> layers.scope sl = layers.scope isl).
    { intros sl isl Hsl Hsum Hisl.
      unfold is_smooth in Hsm. rewrite forallb_true_iff in Hsm.
      specialize (Hsm sl (proj2 (elem_of_sum_layers sc sl) (conj Hsl Hsum))).
      rewrite forallb_true_iff in Hsm.
      specialize (Hsm isl Hisl). by apply bool_decide_eq_true in Hsm. }
    unfold is_smooth. apply forallb_true_iff.
    intros new_sl [Hnew Hsum]%elem_of_sum_layers.
    apply forallb_true_iff. intros n Hn. apply bool_decide_eq_true.
    destruct (Hrel new_sl Hnew) as [Hnil|(sl & Hsl & Hcls & Hscope & HF)].
    { rewrite Hnil in Hn. by apply elem_of_nil in Hn. }
    apply list_elem_of_lookup_1 in Hn as [k Hk].
    destruct (Forall2_lookup_r _ _ _ _ _ HF Hk) as (isl & Hisl & Heq).
    rewrite Hscope, Heq.
    apply Hsm'; [done|by rewrite <- Hcls|by eapply list_elem_of_lookup_2].
  - apply is_decomposable_computes.
    intros new_sl Hnew Hprod lhs rhs Hpair.
    destruct (Hrel new_sl Hnew) as [Hnil|(sl & Hsl & Hcls & Hscope & HF)].
    { rewrite Hnil in Hpair. by apply elem_of_nil in Hpair. }
    apply combinations2_Forall2 in HF.
    apply list_elem_of_lookup_1 in Hpair as [k Hk].
    destruct (Forall2_lookup_r _ _ _ _ _ HF Hk)
      as ([lhs0 rhs0] & Hpair0 & Hl & Hr).
    simpl in Hl. rewrite Hl.
    rewrite is_decomposable_computes in Hde.
    eapply (Hde sl Hsl); [by rewrite <- Hcls|].
    by eapply list_elem_of_lookup_2.
Qed.

(** X6: the output layers of the circuit that [integrate] returns are
    the layers of that circuit that are an input of none of its layers,
    although the loop records for a layer the inputs of the layer it
    feeds, not that layer. *)
Theorem integrate_output_layers sc scope registry fresh c :
  distinct_layers sc ->
  rules_build_over_scope registry sc ->
  integrate sc scope registry fresh = Ok c ->
  forall new_sl,
    new_sl ∈ output_layers c <->
    new_sl ∈ layers c /\
    forall osl, osl ∈ layers c -> new_sl ∉ layer_inputs c osl.
Proof.
  intros Hnd Hrules Hc n.
  destruct (integrate_invariant _ _ _ _ _ Hnd Hc)
    as (st & (Hkeys & _ & Hlayers & Hin & _ & Hout & Hout') & Hls & Hil & Hol).
  assert (Hlen : length (layers sc) = length (map_layers st).*2).
  { rewrite length_fmap, <- (length_fmap fst), Hkeys. by rewrite length_fmap. }
  assert (Hpos : forall j new_sl,
            (map_layers st).*2 !! j = Some new_sl ->
            lid new_sl = (fresh + j)%nat).
  { intros j new_sl Hj.
    destruct (lookup_lt_is_Some_2 (layers sc) j) as [sl Hsl].
    { rewrite Hlen. by eapply lookup_lt_Some. }
    destruct (Hlayers j sl Hsl) as (new_sl' & Hj' & Hint & _).
    assert (new_sl' = new_sl) as -> by congruence.
    by destruct (integrated_lid _ _ _ _ _ Hrules
                   (list_elem_of_lookup_2 _ _ _ Hsl) Hint). }
  unfold output_layers. rewrite list_elem_of_filter.
  unfold layer_outputs, layer_inputs, defaultdict_value.
  rewrite Hls, Hil, Hol. split.
  - intros [Hnone Hn]. split; [done|]. intros m Hm Hnm.
    destruct (in_layers st !! lid m) as [ins|] eqn:Hins;
      [|by apply elem_of_nil in Hnm].
    destruct (Hout' _ _ _ Hins Hnm) as [outs Houts].
    rewrite Houts in Hnone. simpl in Hnone. subst outs.
    destruct (Hout _ _ Houts) as [(n' & Hn' & _) _].
    by apply elem_of_nil in Hn'.
  - intros [Hn Hfree]. split; [|done].
    destruct (out_layers st !! lid n) as [outs|] eqn:Houts; [|done].
    exfalso.
    destruct (Hout _ _ Houts) as [(n' & Hn' & Hid) [k' Hk']].
    destruct (Hin _ _ Hk') as (i & sl & -> & Hsl & Hcls & HF).
    destruct (Hlayers i sl Hsl) as (m & Hm & Hint & _).
    apply (Hfree m); [by eapply list_elem_of_lookup_2|].
    rewrite (Hpos _ _ Hm), Hk'. simpl.
    apply list_elem_of_lookup_1 in Hn' as [k Hk].
    destruct (Forall2_lookup_r _ _ _ _ _ HF Hk)
      as (isl & _ & j & osl & _ & _ & Hj).
    apply list_elem_of_lookup_1 in Hn as [j' Hj'].
    assert (j = j') as ->.
    { apply Hpos in Hj, Hj'. lia. }
    assert (n' = n) as -> by congruence.
    by eapply list_elem_of_lookup_2.
Qed.

Lemma default_registry_builds_over_scope sc :
  rules_build_over_scope default_registry sc.
Proof.
  intros sl func id new_sl _ Hrule Hfunc.
  unfold integration_rule, has_rule, retrieve_rule in Hrule.
  destruct (lclass sl); simpl in Hrule;
    repeat (case_bool_decide || simplify_eq/=); try done;
    try (by match goal with H : ¬ is_Some (Some _) |- _ =>
              exfalso; apply H; eexists end).
  all: unfold operators.integrate_ef_layer in Hfunc; simpl in Hfunc;
    rewrite bool_decide_eq_true_2 in Hfunc by done; simpl in Hfunc;
    by injection Hfunc as <-.
Qed.

End integration_structure.

Section integration_examples.
Import layers symb_circuit functional integral_circuit.

Lemma input_then_dense_distinct : distinct_layers examples.input_then_dense.
Proof. apply (bool_decide_unpack _). by vm_compute. Qed.

Lemma input_then_dense_closed : closed_inputs examples.input_then_dense.
Proof.
  intros sl isl Hsl Hisl.
  unfold examples.input_then_dense, layers in Hsl. simpl in Hsl.
  rewrite !elem_of_cons in Hsl.
  destruct Hsl as [-> | [-> | Hsl]]; [| |by apply elem_of_nil in Hsl].
  - vm_compute in Hisl. by apply elem_of_nil in Hisl.
  - change (layer_inputs examples.input_then_dense
              (with_attrs (Layer_init 1 DenseLayer {[0%nat]} 2 1 1) None
                 [("weight", Some (TensorParameter [1; 2] NormalInitializer))]))
      with [examples.categorical_2] in Hisl.
    apply list_elem_of_singleton in Hisl as ->. by left.
Qed.

Lemma integrate_layerwise_witness :
  distinct_layers examples.input_then_dense /\
  exists c,
    integrate examples.input_then_dense None default_registry 2 = Ok c /\
    length (layers c) = length (layers examples.input_then_dense) /\
    forall i sl, layers examples.input_then_dense !! i = Some sl ->
      exists new_sl,
        layers c !! i = Some new_sl /\
        integrated default_registry (2 + i) sl new_sl /\
        (is_InputLayer (lclass sl) = true ->
           layers.scope sl ∩ symb_circuit.scope examples.input_then_dense ≠ ∅ /\
           layers.scope sl ⊆ symb_circuit.scope examples.input_then_dense).
Proof.
  split; [exact input_then_dense_distinct|].
  eexists. split; [by vm_compute|].
  apply (integrate_layerwise examples.input_then_dense None default_registry
           2 _ input_then_dense_distinct).
  by vm_compute.
Defined.

Lemma integrate_wiring_witness :
  distinct_layers examples.input_then_dense /\
  rules_build_over_scope default_registry examples.input_then_dense /\
  exists c,
    integrate examples.input_then_dense None default_registry 2 = Ok c /\
    forall i sl new_sl,
      layers examples.input_then_dense !! i = Some sl ->
      layers c !! i = Some new_sl ->
      if is_InputLayer (lclass sl) then layer_inputs c new_sl = []
      else Forall2 (image (layers examples.input_then_dense) (layers c))
             (layer_inputs examples.input_then_dense sl)
             (layer_inputs c new_sl).
Proof.
  split; [exact input_then_dense_distinct|].
  split; [apply default_registry_builds_over_scope|].
  eexists. split; [by vm_compute|].
  apply (integrate_wiring examples.input_then_dense None default_registry
           2 _ input_then_dense_distinct
           (default_registry_builds_over_scope _)).
  by vm_compute.
Defined.

Lemma empty_scope_times_input_distinct :
  distinct_layers more_examples.empty_scope_times_input.
Proof. apply (bool_decide_unpack _). by vm_compute. Qed.

Lemma empty_scope_times_input_closed :
  closed_inputs more_examples.empty_scope_times_input.
Proof.
  intros sl isl Hsl Hisl.
  unfold more_examples.empty_scope_times_input, layers in Hsl. simpl in Hsl.
  rewrite !elem_of_cons in Hsl.
  destruct Hsl as [-> | [-> | [-> | Hsl]]]; [| | |by apply elem_of_nil in Hsl].
  - vm_compute in Hisl. by apply elem_of_nil in Hisl.
  - vm_compute in Hisl. by apply elem_of_nil in Hisl.
  - change (layer_inputs more_examples.empty_scope_times_input
              (Layer_init 2 HadamardLayer {[0%nat]} 2 2 2))
      with [with_attrs (Layer_init 1 DenseLayer ∅ 2 2 1) None
              [("weight", Some (TensorParameter [2; 2] NormalInitializer))];
            examples.categorical_2] in Hisl.
    unfold more_examples.empty_scope_times_input, layers. simpl.
    rewrite !elem_of_cons in Hisl. rewrite !elem_of_cons.
    destruct Hisl as [-> | [-> | Hisl]]; [tauto|tauto|].
    by apply elem_of_nil in Hisl.
Qed.

Lemma integrate_preserves_structure_witness :
  distinct_layers more_examples.empty_scope_times_input /\
  closed_inputs more_examples.empty_scope_times_input /\
  rules_build_over_scope default_registry
    more_examples.empty_scope_times_input /\
  exists c,
    integrate more_examples.empty_scope_times_input None default_registry 3
      = Ok c /\
    lclass <$> layers c = [ConstantLayer; DenseLayer; HadamardLayer] /\
    (fun prod_sl =>
       (fun in_sl => (lclass in_sl, layers.scope in_sl))
         <$> layer_inputs c prod_sl) <$> product_layers c
      = [[(DenseLayer, ∅); (ConstantLayer, {[0%nat]})]] /\
    is_smooth c = true /\ is_decomposable c = true.
Proof.
  split; [exact empty_scope_times_input_distinct|].
  split; [exact empty_scope_times_input_closed|].
  split; [apply default_registry_builds_over_scope|].
  eexists. split; [by vm_compute|].
  split; [by vm_compute|]. split; [by vm_compute|].
  apply (integrate_preserves_structure more_examples.empty_scope_times_input
           None default_registry 3 _ empty_scope_times_input_distinct
           empty_scope_times_input_closed
           (default_registry_builds_over_scope _)).
  by vm_compute.
Defined.

Lemma integrate_output_layers_witness :
  distinct_layers examples.input_then_dense /\
  rules_build_over_scope default_registry examples.input_then_dense /\
  exists c,
    integrate examples.input_then_dense None default_registry 2 = Ok c /\
    forall new_sl,
      new_sl ∈ output_layers c <->
      new_sl ∈ layers c /\
      forall osl, osl ∈ layers c -> new_sl ∉ layer_inputs c osl.
Proof.
  split; [exact input_then_dense_distinct|].
  split; [apply default_registry_builds_over_scope|].
  eexists. split; [by vm_compute|].
  apply (integrate_output_layers examples.input_then_dense None
           default_registry 2 _ input_then_dense_distinct
           (default_registry_builds_over_scope _)).
  by vm_compute.
Defined.

End integration_examples.

Section decomposability.
Import layers symb_circuit.

Lemma elem_of_combinations2 {A} (l : list A) x y :
  (x, y) ∈ combinations2 l <->
  exists i j, (i < j)%nat /\ l !! i = Some x /\ l !! j = Some y.
Proof.
  induction l as [|a l IH]; simpl.
  - split; [by intros ?%elem_of_nil|]. by intros (i & j & _ & ? & _).
  - rewrite elem_of_app, list_elem_of_fmap, IH. split.
    + intros [(y' & [= -> ->] & Hy)|(i & j & Hij & Hi & Hj)].
      * apply list_elem_of_lookup_1 in Hy as [j Hj].
        exists 0%nat, (S j). split; [lia|done].
      * exists (S i), (S j). split; [lia|done].
    + intros (i & j & Hij & Hi & Hj).
      destruct j as [|j]; [lia|]. simpl in Hj.
      destruct i as [|i]; simpl in Hi.
      * left. injection Hi as ->. exists y. split; [done|].
        by eapply list_elem_of_lookup_2.
      * right. exists i, j. split; [lia|done].
Qed.

(** X7: [is_decomposable] accepts exactly the circuits in which every
    input of a product layer, except the last one, has the empty scope
    (the check intersects the scope of the left input with itself). *)
Theorem is_decomposable_iff_leading_inputs_empty (sc : SymbCircuit) :
  is_decomposable sc = true <->
  forall prod_sl, prod_sl ∈ layers sc ->
    is_ProductLayer (lclass prod_sl) = true ->
    forall i in_sl,
      layer_inputs sc prod_sl !! i = Some in_sl ->
      (S i < length (layer_inputs sc prod_sl))%nat ->
      layers.scope in_sl = ∅.
Proof.
  rewrite is_decomposable_computes. split.
  - intros H prod_sl Hin Hprod i x Hx Hlt.
    destruct (lookup_lt_is_Some_2 _ _ Hlt) as [y Hy].
    apply (H prod_sl Hin Hprod x y).
    apply elem_of_combinations2. exists i, (S i). split; [lia|done].
  - intros H prod_sl Hin Hprod x y (i & j & Hij & Hx & Hy)%elem_of_combinations2.
    apply (H prod_sl Hin Hprod i x Hx).
    apply lookup_lt_Some in Hy. lia.
Qed.

(** X8: a circuit that [is_decomposable] accepts is decomposable: the
    inputs of each of its product layers have pairwise disjoint scopes. *)
Theorem is_decomposable_sound (sc : SymbCircuit) :
  is_decomposable sc = true -> inputs_pairwise_disjoint sc.
Proof.
  rewrite is_decomposable_computes.
  intros H prod_sl Hin Hprod i j x y Hij Hx Hy.
  destruct (decide (i < j)%nat).
  - rewrite (H prod_sl Hin Hprod x y).
    + apply (left_absorb_L _ _).
    + apply elem_of_combinations2. by exists i, j.
  - rewrite (H prod_sl Hin Hprod y x).
    + apply (right_absorb_L _ _).
    + apply elem_of_combinations2. exists j, i. split; [lia|done].
Qed.

(** X9: [multiply] returns for no pair of circuits: [is_compatible] is
    [False] on every path, so that [multiply] raises
    [StructuralPropertyError]; likewise no circuit is structured
    decomposable or omni-compatible. *)
Theorem multiply_always_raises (lhs_sc rhs_sc : SymbCircuit) :
  functional.multiply lhs_sc rhs_sc = Raise StructuralPropertyError /\
  is_structured_decomposable lhs_sc = false /\
  is_omni_compatible lhs_sc = false.
Proof.
  split_and!.
  - apply multiply_raises_iff, is_compatible_false.
  - apply is_compatible_false.
  - unfold is_omni_compatible. by repeat case_match.
Qed.

End decomposability.

Section ordering_soundness.
Import layers symb_circuit.

Abbreviation pure_fn inc := (fun (sl : Layer) (_ : unit) => (inc sl, tt)).

Section search_invariant.
Context (inc : Layer -> list Layer) (Q : Layer -> Prop)
        (HQ : forall a b, Q a -> b ∈ inc a -> Q b).

Abbreviation search_ok := (ordering_invariant.search_ok Q).

Lemma visit_all_search_ok
    (vis : list Layer -> Layer -> unit -> search * unit) path :
  (forall ord n ord' u, search_ok path ord -> Q n ->
     vis ord n tt = (Found ord', u) -> search_ok path ord') ->
  forall ins ord ord' u,
    search_ok path ord -> Forall Q ins ->
    visit_all vis ins ord tt = (Found ord', u) -> search_ok path ord'.
Proof.
  intros Hv. induction ins as [|n ins IH]; intros ord ord' u Hok HQs; simpl.
  - by intros [= <- <-].
  - destruct (vis ord n tt) as [r []] eqn:Hvis.
    destruct r as [ord1| |]; try done.
    apply Forall_cons in HQs as [Hn HQs].
    intros Hall. eapply IH; [|done|done]. by eapply Hv.
Qed.

Lemma visit_search_ok : forall budget path ord n ord' u,
  search_ok path ord -> Q n ->
  visit (pure_fn inc) budget path ord n tt = (Found ord', u) ->
  search_ok path ord'.
Proof.
  induction budget as [|budget IH]; intros path ord n ord' u Hok Hn; simpl;
    [done|].
  case_bool_decide as Hin; [by intros [= <- <-]|].
  case_bool_decide as Hpath; [done|].
  destruct (visit_all (visit (pure_fn inc) budget (lid n :: path)) (inc n)
              ord tt) as [r []] eqn:Hall.
  destruct r as [o| |]; try done. intros [= <- <-].
  destruct (visit_all_search_ok _ (lid n :: path) (IH (lid n :: path))
              (inc n) ord o tt) as (Hnd & Hp & Hq); try done.
  - destruct Hok as (Hnd & Hp & Hq). split_and!; [done| |done].
    intros k [->|Hk]%elem_of_cons; [done|by apply Hp].
  - apply Forall_forall. intros b Hb. by eapply HQ.
  - split_and!.
    + rewrite fmap_app. apply NoDup_app. split_and!; [done| |].
      * intros k Hk [->|Hnil%elem_of_nil]%elem_of_cons; [|done].
        apply (Hp (lid n)); [by left|done].
      * simpl. apply NoDup_singleton.
    + intros k Hk. rewrite fmap_app. intros [Ho|Hn']%elem_of_app.
      * apply (Hp k); [by right|done].
      * simpl in Hn'. apply list_elem_of_singleton in Hn' as ->. done.
    + apply Forall_app. split; [done|]. by apply Forall_singleton.
Qed.

End search_invariant.

(** X10: an ordering that [layers_topological_ordering] returns lists
    every layer after its inputs and no layer twice, and it consists of the
    layers that an output layer reaches backward through the inputs (for
    every order in which the set of the output layers is iterated). *)
Theorem layers_topological_ordering_sound
    (set_iter : list Layer -> list Layer) (sc : SymbCircuit)
    (ordering : list Layer)
    (Hsub : forall l x, x ∈ set_iter l -> x ∈ l)
    (Hall : forall l x, x ∈ l -> lid x ∈ lid <$> set_iter l) :
  (layers_topological_ordering set_iter sc).1 = Some (Ok ordering) ->
  respects (layer_inputs sc) ordering /\
  NoDup (lid <$> ordering) /\
  (forall o x, o ∈ output_layers sc ->
     rtc (takes (layer_inputs sc)) o x -> lid x ∈ lid <$> ordering) /\
  (forall x, x ∈ ordering ->
     exists o, o ∈ output_layers sc /\ rtc (takes (layer_inputs sc)) o x).
Proof.
  set (inc := layer_inputs sc).
  destruct (layers_topological_ordering_spec set_iter sc inc)
    as (sc1 & -> & _); [done|].
  cbn [fst].
  generalize (topological_ordering_budget (_layers sc) (_in_layers sc)).
  intros budget.
  destruct (visit_all (visit (pure_fn inc) budget [])
              (set_iter (output_layers sc)) [] tt) as [[ord| |] []] eqn:Hvis;
    simpl; try done.
  intros [= ->].
  destruct (visit_all_respects inc _ (visit_respects inc budget [])
              _ [] ordering tt (respects_nil inc) Hvis)
    as (Hord & _ & Hroots).
  set (Q := fun x : Layer =>
              exists o, o ∈ output_layers sc /\ rtc (takes inc) o x).
  assert (HQ : forall a b, Q a -> b ∈ inc a -> Q b).
  { intros a b (o & Ho & Hoa) Hb. exists o. split; [done|].
    by eapply rtc_r. }
  destruct (visit_all_search_ok Q (visit (pure_fn inc) budget []) []
              (visit_search_ok inc Q HQ budget [])
              (set_iter (output_layers sc)) [] ordering tt)
    as (Hnd & _ & Hq); try done.
  { split_and!; [apply NoDup_nil_2| |done].
    intros k Hk. by apply elem_of_nil in Hk. }
  { apply Forall_forall. intros o Ho. exists o. split; [by eapply Hsub|done]. }
  split_and!; try done.
  - intros o x Ho Hox.
    apply (respects_rtc inc (defaultdict_value_lid (_in_layers sc)) ordering
             Hord o x Hox).
    specialize (Hall _ _ Ho).
    apply list_elem_of_fmap in Hall as (y & -> & Hy). by apply Hroots.
  - intros x Hx. by apply (proj1 (Forall_forall _ _) Hq).
Qed.

End ordering_soundness.

Section ordering_examples.
Import layers symb_circuit.

Lemma is_decomposable_sound_witness :
  is_decomposable more_examples.empty_scope_times_input = true /\
  (fun prod_sl =>
     (fun in_sl => (lclass in_sl, layers.scope in_sl))
       <$> layer_inputs more_examples.empty_scope_times_input prod_sl)
    <$> product_layers more_examples.empty_scope_times_input
    = [[(DenseLayer, ∅); (CategoricalLayer, {[0%nat]})]] /\
  inputs_pairwise_disjoint more_examples.empty_scope_times_input.
Proof.
  split; [by vm_compute|]. split; [by vm_compute|].
  apply (is_decomposable_sound more_examples.empty_scope_times_input).
  by vm_compute.
Defined.

Lemma layers_topological_ordering_sound_witness :
  exists ordering,
    (layers_topological_ordering (first_occurrences [])
       examples.input_then_dense).1 = Some (Ok ordering) /\
    respects (layer_inputs examples.input_then_dense) ordering /\
    NoDup (lid <$> ordering) /\
    (forall o x, o ∈ output_layers examples.input_then_dense ->
       rtc (takes (layer_inputs examples.input_then_dense)) o x ->
       lid x ∈ lid <$> ordering) /\
    (forall x, x ∈ ordering ->
       exists o, o ∈ output_layers examples.input_then_dense /\
         rtc (takes (layer_inputs examples.input_then_dense)) o x).
Proof.
  eexists. split; [by vm_compute|].
  apply (layers_topological_ordering_sound (first_occurrences [])
           examples.input_then_dense).
  - intros l x. apply first_occurrences_sub.
  - intros l x Hx.
    destruct (first_occurrences_all l [] x Hx) as [Hnil|Hin]; [|done].
    by apply elem_of_nil in Hnil.
  - by vm_compute.
Defined.

End ordering_examples.

Section layer_construction.
Import layers layer_configs.

(** X11: a dense layer that the constructor builds has arity 1 and a
    weight of shape [(num_output_units, num_input_units)], whether the
    weight was given, made by the factory or created by default; and the
    constructor applied to the [config] and the [params] of the layer
    builds a layer with the same attributes. *)
Theorem DenseLayer_init_rebuilt id (scope : Scope) num_input_units
    num_output_units weight weight_factory l :
  DenseLayer_init id scope num_input_units num_output_units weight
    weight_factory = Ok l ->
  lclass l = DenseLayer /\ layers.arity l = 1 /\
  (exists w, attr l "weight" = Some w /\
     shape w = Some [num_output_units; num_input_units]) /\
  forall id',
    let '(scope', num_input_units', num_output_units') :=
      DenseLayer_config l in
    DenseLayer_init id' scope' num_input_units' num_output_units'
      (kwarg (DenseLayer_params l) "weight") None = Ok (with_id id' l).
Proof.
  unfold DenseLayer_init. simpl.
  set (w := match weight with
            | Some w => w
            | None => match weight_factory with
                      | Some f => f [num_output_units; num_input_units]
                      | None => TensorParameter
                                  [num_output_units; num_input_units]
                                  NormalInitializer
                      end
            end).
  case_decide as Hshape; [done|]. intros [= <-].
  split_and!; try done.
  - by exists w.
  - intros id'. simpl. unfold DenseLayer_init. simpl.
    change (kwarg _ "weight") with (Some w). simpl.
    by rewrite decide_False by (by intros ?).
Qed.

(** X12: a mixing layer that the constructor builds has as many output
    units as input units and a weight of shape [(num_units, arity)]; and
    the constructor applied to the [config] and the [params] of the layer
    builds a layer with the same attributes. *)
Theorem MixingLayer_init_rebuilt id (scope : Scope) num_units arity weight
    weight_factory l :
  MixingLayer_init id scope num_units arity weight weight_factory = Ok l ->
  lclass l = MixingLayer /\
  layers.num_input_units l = num_units /\
  layers.num_output_units l = num_units /\
  (exists w, attr l "weight" = Some w /\ shape w = Some [num_units; arity]) /\
  forall id',
    let '(scope', num_units', arity') := MixingLayer_config l in
    MixingLayer_init id' scope' num_units' arity'
      (kwarg (MixingLayer_params l) "weight") None = Ok (with_id id' l).
Proof.
  unfold MixingLayer_init. simpl.
  set (w := match weight with
            | Some w => w
            | None => match weight_factory with
                      | Some f => f [num_units; arity]
                      | None => TensorParameter [num_units; arity]
                                  NormalInitializer
                      end
            end).
  case_decide as Hshape; [done|]. intros [= <-].
  split_and!; try done.
  - by exists w.
  - intros id'. simpl. unfold MixingLayer_init. simpl.
    change (kwarg _ "weight") with (Some w). simpl.
    by rewrite decide_False by (by intros ?).
Qed.

Lemma CategoricalLayer_init_Ok_full id (scope : Scope) num_output_units
    num_channels num_categories logits probs logits_factory probs_factory l :
  CategoricalLayer_init id scope num_output_units num_channels num_categories
    logits probs logits_factory probs_factory = Ok l ->
  size scope = 1%nat /\ 2 <= num_categories /\
  exists logits' probs',
    l = with_attrs
          (InputLayer_init id CategoricalLayer scope num_output_units
             num_channels)
          (Some num_categories) [("probs", probs'); ("logits", logits')] /\
    (is_Some logits' <-> ~ is_Some probs') /\
    (forall p, logits' = Some p \/ probs' = Some p ->
       shape p = Some [num_output_units; num_channels; num_categories]).
Proof.
  unfold CategoricalLayer_init. intros H.
  destruct (decide (size scope ≠ 1%nat)) as [|Hsize]; [done|].
  apply dec_stable in Hsize.
  destruct logits as [lg|], probs as [pr|], logits_factory as [lf|],
    probs_factory as [pf|]; simpl in H; try done;
    repeat case_match; simplify_eq;
    (split; [done|]); (split; [lia|]);
    (eexists _, _; split; [reflexivity|]);
    (split;
     [ split;
       [ intros [? ?] [? ?]; simplify_eq
       | intros Hn; first [ by eexists | exfalso; apply Hn; by eexists ] ]
     | intros p [?|?]; simplify_eq;
       match goal with
       | H : bool_decide (_ ≠ _) = false |- _ =>
           apply bool_decide_eq_false in H; by apply dec_stable in H
       end ]).
Qed.

Lemma CategoricalLayer_init_given id (scope : Scope) num_output_units
    num_channels num_categories logits probs :
  size scope = 1%nat -> 2 <= num_categories ->
  (is_Some logits <-> ~ is_Some probs) ->
  (forall p, logits = Some p \/ probs = Some p ->
     shape p = Some [num_output_units; num_channels; num_categories]) ->
  CategoricalLayer_init id scope num_output_units num_channels num_categories
    logits probs None None
  = Ok (with_attrs
          (InputLayer_init id CategoricalLayer scope num_output_units
             num_channels)
          (Some num_categories) [("probs", probs); ("logits", logits)]).
Proof.
  intros Hsize Hcat Hone Hshape. unfold CategoricalLayer_init.
  rewrite decide_False by (by intros ?).
  destruct logits as [lg|], probs as [pr|]; simpl.
  - exfalso. by apply (proj1 Hone).
  - rewrite decide_False by lia. simpl.
    rewrite bool_decide_eq_false_2; [done|].
    intros Hne. apply Hne. apply Hshape. by left.
  - rewrite decide_False by lia. simpl.
    rewrite bool_decide_eq_false_2; [done|].
    intros Hne. apply Hne. apply Hshape. by right.
  - exfalso. destruct Hone as [_ Hone].
    destruct Hone as [? ?]; [|done]. by intros [? ?].
Qed.

(** X13: a categorical layer that the constructor builds is over one
    variable, with at least two categories and one input unit; every
    entry of its [params] has the shape
    [(num_output_units, num_channels, num_categories)]; and the constructor
    applied to the [config] and the [params] of the layer (no factory)
    builds a layer with the same attributes. *)
Theorem CategoricalLayer_init_rebuilt id (scope : Scope) num_output_units
    num_channels num_categories logits probs logits_factory probs_factory l :
  CategoricalLayer_init id scope num_output_units num_channels num_categories
    logits probs logits_factory probs_factory = Ok l ->
  size scope = 1%nat /\ 2 <= num_categories /\
  lclass l = CategoricalLayer /\
  layers.num_input_units l = 1 /\
  CategoricalLayer_config l
    = (scope, num_output_units, num_channels, Some num_categories) /\
  (forall name p, (name, Some p) ∈ CategoricalLayer_params l ->
     shape p = Some [num_output_units; num_channels; num_categories]) /\
  forall id',
    CategoricalLayer_init id' scope num_output_units num_channels
      num_categories (kwarg (CategoricalLayer_params l) "logits")
      (kwarg (CategoricalLayer_params l) "probs") None None
    = Ok (with_id id' l).
Proof.
  intros (Hsize & Hcat & lg & pr & -> & Hone & Hshape)%CategoricalLayer_init_Ok_full.
  split; [done|]. split; [done|]. split; [done|].
  split; [simpl; lia|]. split; [done|].
  unfold CategoricalLayer_params.
  destruct (attr_probs_logits
              (InputLayer_init id CategoricalLayer scope num_output_units
                 num_channels) (Some num_categories) pr lg) as [-> ->].
  assert (Hkw : forall kw : list (string * option Parameter_),
            kw = match lg with
                 | Some p => [("logits", Some p)]
                 | None => [("probs", pr)]
                 end ->
            kwarg kw "logits" = lg /\ kwarg kw "probs" = pr).
  { intros kw ->. destruct lg as [p|].
    - split; [done|]. destruct pr as [q|]; [|done].
      exfalso. by apply (proj1 Hone).
    - done. }
  destruct (Hkw _ eq_refl) as [-> ->]. split.
  - intros name p Hin. apply Hshape.
    destruct lg as [p'|].
    + apply list_elem_of_singleton in Hin. left. congruence.
    + apply list_elem_of_singleton in Hin. right. congruence.
  - intros id'. by rewrite CategoricalLayer_init_given.
Qed.

End layer_construction.

Section layer_products.
Import layers operators.

Lemma attr_weight (l : Layer) ncat w :
  attr (with_attrs l ncat [("weight", Some w)]) "weight" = Some w.
Proof. by vm_compute. Qed.

Lemma DenseLayer_init_Ok_inv id (scope : Scope) num_input_units
    num_output_units weight weight_factory l :
  DenseLayer_init id scope num_input_units num_output_units weight
    weight_factory = Ok l ->
  exists w,
    shape w = Some [num_output_units; num_input_units] /\
    l = with_attrs
          (Layer_init id DenseLayer scope num_input_units num_output_units 1)
          None [("weight", Some w)].
Proof.
  unfold DenseLayer_init. simpl. case_decide as Hshape; [done|].
  intros [= <-]. by eexists.
Qed.

Lemma MixingLayer_init_Ok_inv id (scope : Scope) num_units arity weight
    weight_factory l :
  MixingLayer_init id scope num_units arity weight weight_factory = Ok l ->
  exists w,
    shape w = Some [num_units; arity] /\
    l = with_attrs (Layer_init id MixingLayer scope num_units num_units arity)
          None [("weight", Some w)].
Proof.
  unfold MixingLayer_init. simpl. case_decide as Hshape; [done|].
  intros [= <-]. by eexists.
Qed.

(** X14: the product of two dense layers that the constructor built is
    always built: a dense layer over the union of the scopes whose numbers
    of input and of output units are the products of those of the
    operands, with a weight (the Kronecker product of the weights of the
    operands) of the shape that the constructor requires. *)
Theorem multiply_dense_layers_built id1 id2 id (scope1 scope2 : Scope)
    num_input_units1 num_output_units1 weight1 weight_factory1
    num_input_units2 num_output_units2 weight2 weight_factory2 lhs rhs :
  DenseLayer_init id1 scope1 num_input_units1 num_output_units1 weight1
    weight_factory1 = Ok lhs ->
  DenseLayer_init id2 scope2 num_input_units2 num_output_units2 weight2
    weight_factory2 = Ok rhs ->
  exists sl w,
    multiply_dense_layers lhs rhs id = Ok [sl] /\
    lid sl = id /\ lclass sl = DenseLayer /\
    layers.scope sl = scope1 ∪ scope2 /\
    layers.num_input_units sl = num_input_units1 * num_input_units2 /\
    layers.num_output_units sl = num_output_units1 * num_output_units2 /\
    layers.arity sl = 1 /\
    attr sl "weight" = Some w /\
    shape w = Some [num_output_units1 * num_output_units2;
                    num_input_units1 * num_input_units2].
Proof.
  intros (w1 & Hw1 & ->)%DenseLayer_init_Ok_inv
         (w2 & Hw2 & ->)%DenseLayer_init_Ok_inv.
  unfold multiply_dense_layers, DenseLayer_init, PlaceholderParameter_init.
  rewrite !attr_weight. simpl. rewrite Hw1, Hw2. simpl.
  rewrite decide_False by (by intros ?). simpl.
  eexists _, _. split; [reflexivity|]. split_and!; done.
Qed.

(** X15: the product of two mixing layers that the constructor built is
    always built: a mixing layer over the union of the scopes whose number
    of units and arity are the products of those of the operands, with a
    weight (the Kronecker product of the weights of the operands) of the
    shape that the constructor requires. *)
Theorem multiply_mixing_layers_built id1 id2 id (scope1 scope2 : Scope)
    num_units1 arity1 weight1 weight_factory1
    num_units2 arity2 weight2 weight_factory2 lhs rhs :
  MixingLayer_init id1 scope1 num_units1 arity1 weight1 weight_factory1
    = Ok lhs ->
  MixingLayer_init id2 scope2 num_units2 arity2 weight2 weight_factory2
    = Ok rhs ->
  exists sl w,
    multiply_mixing_layers lhs rhs id = Ok [sl] /\
    lid sl = id /\ lclass sl = MixingLayer /\
    layers.scope sl = scope1 ∪ scope2 /\
    layers.num_input_units sl = num_units1 * num_units2 /\
    layers.num_output_units sl = num_units1 * num_units2 /\
    layers.arity sl = arity1 * arity2 /\
    attr sl "weight" = Some w /\
    shape w = Some [num_units1 * num_units2; arity1 * arity2].
Proof.
  intros (w1 & Hw1 & ->)%MixingLayer_init_Ok_inv
         (w2 & Hw2 & ->)%MixingLayer_init_Ok_inv.
  unfold multiply_mixing_layers, MixingLayer_init, PlaceholderParameter_init.
  rewrite !attr_weight. simpl. rewrite Hw1, Hw2. simpl.
  rewrite decide_False by (by intros ?). simpl.
  eexists _, _. split; [reflexivity|]. split_and!; done.
Qed.

(** X16: the product of two Hadamard layers that the constructor built
    is always built: a Hadamard layer over the union of the scopes whose
    number of units is the product of those of the operands and whose
    arity is the larger of the two arities. *)
Theorem multiply_hadamard_layers_built id1 id2 id (scope1 scope2 : Scope)
    num_input_units1 arity1 num_input_units2 arity2 lhs rhs :
  HadamardLayer_init id1 scope1 num_input_units1 arity1 = Ok lhs ->
  HadamardLayer_init id2 scope2 num_input_units2 arity2 = Ok rhs ->
  exists sl,
    multiply_hadamard_layers lhs rhs id = Ok [sl] /\
    lid sl = id /\ lclass sl = HadamardLayer /\
    layers.scope sl = scope1 ∪ scope2 /\
    layers.num_input_units sl = num_input_units1 * num_input_units2 /\
    layers.num_output_units sl = num_input_units1 * num_input_units2 /\
    layers.arity sl = Z.max arity1 arity2 /\
    2 <= layers.arity sl.
Proof.
  unfold HadamardLayer_init.
  case_decide as H1; [done|]. intros [= <-].
  case_decide as H2; [done|]. intros [= <-].
  unfold multiply_hadamard_layers, HadamardLayer_init. simpl.
  rewrite decide_False by lia. simpl.
  eexists. split; [reflexivity|]. split_and!; try done. simpl. lia.
Qed.

End layer_products.

Section layer_examples.
Import layers layer_configs operators.

Lemma DenseLayer_init_rebuilt_witness :
  exists l,
    DenseLayer_init 0 {[0%nat]} 2 3 None None = Ok l /\
    lclass l = DenseLayer /\ layers.arity l = 1 /\
    (exists w, attr l "weight" = Some w /\ shape w = Some [3; 2]) /\
    forall id',
      let '(scope', num_input_units', num_output_units') :=
        DenseLayer_config l in
      DenseLayer_init id' scope' num_input_units' num_output_units'
        (kwarg (DenseLayer_params l) "weight") None = Ok (with_id id' l).
Proof.
  eexists. split; [reflexivity|].
  apply (DenseLayer_init_rebuilt 0 {[0%nat]} 2 3 None None). reflexivity.
Defined.

Lemma MixingLayer_init_rebuilt_witness :
  exists l,
    MixingLayer_init 0 {[0%nat]} 2 3 None None = Ok l /\
    lclass l = MixingLayer /\
    layers.num_input_units l = 2 /\
    layers.num_output_units l = 2 /\
    (exists w, attr l "weight" = Some w /\ shape w = Some [2; 3]) /\
    forall id',
      let '(scope', num_units', arity') := MixingLayer_config l in
      MixingLayer_init id' scope' num_units' arity'
        (kwarg (MixingLayer_params l) "weight") None = Ok (with_id id' l).
Proof.
  eexists. split; [reflexivity|].
  apply (MixingLayer_init_rebuilt 0 {[0%nat]} 2 3 None None). reflexivity.
Defined.

Lemma CategoricalLayer_init_rebuilt_witness :
  exists l,
    CategoricalLayer_init 0 {[0%nat]} 2 1 3 None None None None = Ok l /\
    size ({[0%nat]} : Scope) = 1%nat /\ 2 <= 3 /\
    lclass l = CategoricalLayer /\
    layers.num_input_units l = 1 /\
    CategoricalLayer_config l = ({[0%nat]}, 2, 1, Some 3) /\
    (forall name p, (name, Some p) ∈ CategoricalLayer_params l ->
       shape p = Some [2; 1; 3]) /\
    forall id',
      CategoricalLayer_init id' {[0%nat]} 2 1 3
        (kwarg (CategoricalLayer_params l) "logits")
        (kwarg (CategoricalLayer_params l) "probs") None None
      = Ok (with_id id' l).
Proof.
  eexists. split; [by vm_compute|].
  apply (CategoricalLayer_init_rebuilt 0 {[0%nat]} 2 1 3 None None None None).
  by vm_compute.
Defined.

Lemma multiply_dense_layers_built_witness :
  exists lhs rhs,
    DenseLayer_init 0 {[0%nat]} 2 3 None None = Ok lhs /\
    DenseLayer_init 1 {[1%nat]} 5 7 None None = Ok rhs /\
    exists sl w,
      multiply_dense_layers lhs rhs 2 = Ok [sl] /\
      lid sl = 2%nat /\ lclass sl = DenseLayer /\
      layers.scope sl = {[0%nat]} ∪ {[1%nat]} /\
      layers.num_input_units sl = 2 * 5 /\
      layers.num_output_units sl = 3 * 7 /\
      layers.arity sl = 1 /\
      attr sl "weight" = Some w /\
      shape w = Some [3 * 7; 2 * 5].
Proof.
  eexists _, _. split; [reflexivity|]. split; [reflexivity|].
  apply (multiply_dense_layers_built 0 1 2 {[0%nat]} {[1%nat]}
           2 3 None None 5 7 None None); reflexivity.
Defined.

Lemma multiply_mixing_layers_built_witness :
  exists lhs rhs,
    MixingLayer_init 0 {[0%nat]} 2 3 None None = Ok lhs /\
    MixingLayer_init 1 {[0%nat]} 5 2 None None = Ok rhs /\
    exists sl w,
      multiply_mixing_layers lhs rhs 2 = Ok [sl] /\
      lid sl = 2%nat /\ lclass sl = MixingLayer /\
      layers.scope sl = {[0%nat]} ∪ {[0%nat]} /\
      layers.num_input_units sl = 2 * 5 /\
      layers.num_output_units sl = 2 * 5 /\
      layers.arity sl = 3 * 2 /\
      attr sl "weight" = Some w /\
      shape w = Some [2 * 5; 3 * 2].
Proof.
  eexists _, _. split; [reflexivity|]. split; [reflexivity|].
  apply (multiply_mixing_layers_built 0 1 2 {[0%nat]} {[0%nat]}
           2 3 None None 5 2 None None); reflexivity.
Defined.

Lemma multiply_hadamard_layers_built_witness :
  exists lhs rhs,
    HadamardLayer_init 0 {[0%nat]} 2 2 = Ok lhs /\
    HadamardLayer_init 1 {[1%nat]} 5 3 = Ok rhs /\
    exists sl,
      multiply_hadamard_layers lhs rhs 2 = Ok [sl] /\
      lid sl = 2%nat /\ lclass sl = HadamardLayer /\
      layers.scope sl = {[0%nat]} ∪ {[1%nat]} /\
      layers.num_input_units sl = 2 * 5 /\
      layers.num_output_units sl = 2 * 5 /\
      layers.arity sl = Z.max 2 3 /\
      2 <= layers.arity sl.
Proof.
  eexists _, _. split; [reflexivity|]. split; [reflexivity|].
  apply (multiply_hadamard_layers_built 0 1 2 {[0%nat]} {[1%nat]} 2 2 5 3);
    reflexivity.
Defined.

End layer_examples.

(** ** Shapes of the parameters *)

Section built_shapes.
Import params built_params.

Lemma bind_Ok_inv {A B} (m : result A) (k : A -> result B) b :
  (m ≫= k) = Ok b -> exists a, m = Ok a /\ k a = Ok b.
Proof. destruct m as [a|e]; simpl; [|done]. intros H. by exists a. Qed.

Lemma py_assert_Ok_inv c u : py_assert c = Ok u -> c = true.
Proof. by destruct c. Qed.

Lemma cross_shape_Ok (s1 s2 : list Z) axis :
  length s1 = length s2 -> 0 <= axis < Z.of_nat (length s1) ->
  exists d1 d2,
    s1 !! Z.to_nat axis = Some d1 /\ s2 !! Z.to_nat axis = Some d2 /\
    cross_shape s1 s2 axis
      = Ok (take (Z.to_nat axis) s1 ++ [d1 * d2] ++
            drop (S (Z.to_nat axis)) s1).
Proof.
  intros Hlen Hr.
  destruct (index_in_range s1 axis Hr) as (d1 & Hd1 & Hi1).
  assert (Hr2 : 0 <= axis < Z.of_nat (length s2)) by lia.
  destruct (index_in_range s2 axis Hr2) as (d2 & Hd2 & Hi2).
  exists d1, d2. split; [done|]. split; [done|].
  unfold cross_shape. rewrite Hi1, Hi2. simpl.
  rewrite slice_to_nonneg, slice_from_nonneg by lia.
  replace (Z.to_nat (axis + 1)) with (S (Z.to_nat axis)) by lia. done.
Qed.

(** X17: the shape of a parameter that the constructors built from
    leaves is always defined: reading [shape] raises neither [IndexError]
    nor any other error, whatever operators were applied. *)
Theorem built_shape (p : AbstractParameter) :
  built p -> exists s, shape p = Ok s.
Proof.
  induction 1 as [s|s v|a b p _ [sa Ha] _ [sb Hb] Hp
                 |a b p _ [sa Ha] _ [sb Hb] Hp
                 |a b axis p _ [sa Ha] _ [sb Hb] Hp
                 |a b axis p _ [sa Ha] _ [sb Hb] Hp
                 |op a _ [sa Ha]
                 |op a axis p _ [sa Ha] Hp
                 |op a axis p _ [sa Ha] Hp].
  - by eexists.
  - by eexists.
  - unfold HadamardParameter_init in Hp. rewrite Ha, Hb in Hp. simpl in Hp.
    destruct (py_assert _); simpl in Hp; [|done]. injection Hp as <-.
    simpl. by eexists.
  - unfold KroneckerParameter_init in Hp. rewrite Ha, Hb in Hp. simpl in Hp.
    destruct (py_assert _) eqn:Hassert; simpl in Hp; [|done].
    injection Hp as <-. apply py_assert_Ok_inv, bool_decide_eq_true in Hassert.
    simpl. rewrite Ha, Hb. simpl. unfold kronecker_shape.
    rewrite decide_False by lia. by eexists.
  - unfold OuterProductParameter_init in Hp. rewrite Ha, Hb in Hp.
    simpl in Hp.
    destruct (py_assert (bool_decide (length sa = length sb))) eqn:Hlen;
      simpl in Hp; [|done].
    destruct (py_assert (axis_in_range _ sa)) eqn:Hax; simpl in Hp; [|done].
    destruct (py_assert (bool_decide (slice_to _ _ = _))); simpl in Hp;
      [|done].
    destruct (py_assert (bool_decide (slice_from _ _ = _))); simpl in Hp;
      [|done].
    injection Hp as <-.
    apply py_assert_Ok_inv, bool_decide_eq_true in Hlen.
    apply py_assert_Ok_inv, axis_in_range_spec in Hax.
    destruct (cross_shape_Ok sa sb _ Hlen Hax) as (d1 & d2 & _ & _ & Hc).
    simpl. rewrite Ha, Hb. simpl. rewrite Hc. by eexists.
  - unfold OuterSumParameter_init in Hp. rewrite Ha, Hb in Hp. simpl in Hp.
    destruct (py_assert (bool_decide (length sa = length sb))) eqn:Hlen;
      simpl in Hp; [|done].
    destruct (py_assert (axis_in_range _ sa)) eqn:Hax; simpl in Hp; [|done].
    injection Hp as <-.
    apply py_assert_Ok_inv, bool_decide_eq_true in Hlen.
    apply py_assert_Ok_inv, axis_in_range_spec in Hax.
    destruct (cross_shape_Ok sa sb _ Hlen Hax) as (d1 & d2 & _ & _ & Hc).
    simpl. rewrite Ha, Hb. simpl. rewrite Hc. by eexists.
  - simpl. by eexists.
  - unfold ReduceOpParameter_init in Hp. rewrite Ha in Hp. simpl in Hp.
    destruct (py_assert _); simpl in Hp; [|done]. injection Hp as <-.
    simpl. rewrite Ha. simpl. by eexists.
  - unfold EntrywiseReduceOpParameter_init in Hp. rewrite Ha in Hp.
    simpl in Hp.
    destruct (py_assert _); simpl in Hp; [|done]. injection Hp as <-.
    simpl. by eexists.
Qed.

End built_shapes.

Section axis_parameters.
Import params.

Lemma normalize_axis_nonneg axis (s : list Z) :
  0 <= axis -> normalize_axis axis s = axis.
Proof. intros H. unfold normalize_axis. by rewrite decide_True. Qed.

Lemma OuterSumParameter_init_inv a b axis sa sb p :
  shape a = Ok sa -> shape b = Ok sb ->
  OuterSumParameter_init a b axis = Ok p ->
  length sa = length sb /\
  0 <= normalize_axis axis sa < Z.of_nat (length sa) /\
  p = OuterSumParameter a b (normalize_axis axis sa).
Proof.
  intros Ha Hb. unfold OuterSumParameter_init. rewrite Ha, Hb. simpl.
  destruct (py_assert (bool_decide (length sa = length sb))) eqn:Hlen;
    simpl; [|done].
  destruct (py_assert (axis_in_range _ sa)) eqn:Hax; simpl; [|done].
  intros [= <-].
  apply py_assert_Ok_inv, bool_decide_eq_true in Hlen.
  by apply py_assert_Ok_inv, axis_in_range_spec in Hax.
Qed.

Lemma OuterSumParameter_init_ok a b axis sa sb :
  shape a = Ok sa -> shape b = Ok sb ->
  length sa = length sb ->
  0 <= normalize_axis axis sa < Z.of_nat (length sa) ->
  OuterSumParameter_init a b axis
    = Ok (OuterSumParameter a b (normalize_axis axis sa)).
Proof.
  intros Ha Hb Hlen Hax. unfold OuterSumParameter_init. rewrite Ha, Hb.
  simpl. rewrite bool_decide_eq_true_2 by done. simpl.
  by rewrite (py_assert_true (axis_in_range _ sa))
    by (by apply axis_in_range_spec).
Qed.

(** X18: for operands [a], [b] of shapes [sa], [sb], an OuterSum node
    is built exactly when the ranks agree and the (normalised) axis is in
    range; the dimensions off the axis are not compared.  Its shape is the
    shape of the first operand with the axis dimension replaced by the
    product of the two axis dimensions.  Otherwise the constructor raises
    [AssertionError]. *)
Theorem OuterSumParameter_init_shape
    (a b : AbstractParameter) (sa sb : list Z) (axis : Z)
    (Ha : shape a = Ok sa) (Hb : shape b = Ok sb) :
  let ax := normalize_axis axis sa in
  (length sa = length sb /\ 0 <= ax < Z.of_nat (length sa) ->
     exists da db,
       sa !! Z.to_nat ax = Some da /\ sb !! Z.to_nat ax = Some db /\
       OuterSumParameter_init a b axis = Ok (OuterSumParameter a b ax) /\
       shape (OuterSumParameter a b ax) =
         Ok (take (Z.to_nat ax) sa ++ [da * db] ++
             drop (S (Z.to_nat ax)) sa)) /\
  (~ (length sa = length sb /\ 0 <= ax < Z.of_nat (length sa)) ->
     OuterSumParameter_init a b axis = Raise AssertionError).
Proof.
  intros ax. split.
  - intros [Hlen Hax].
    destruct (cross_shape_Ok sa sb ax Hlen Hax) as (da & db & Hda & Hdb & Hc).
    exists da, db. split; [done|]. split; [done|]. split.
    + by apply (OuterSumParameter_init_ok a b axis sa sb).
    + simpl. rewrite Ha, Hb. simpl. by rewrite Hc.
  - intros Hn. unfold OuterSumParameter_init. rewrite Ha, Hb. simpl.
    destruct (bool_decide (length sa = length sb)) eqn:Hlen; [|done].
    apply bool_decide_eq_true in Hlen. simpl. fold ax.
    rewrite (py_assert_false (axis_in_range ax sa)); [done|].
    apply not_true_is_false. rewrite axis_in_range_spec. tauto.
Qed.

(** X19: a Softmax or LogSoftmax node over an operand of shape [sa] is
    built exactly when the (normalised) axis is in range, and has the shape
    of the operand; otherwise the constructor raises [AssertionError], as
    it always does over an operand of rank zero. *)
Theorem EntrywiseReduceOpParameter_init_shape
    (op : EntrywiseReduceOp) (a : AbstractParameter) (sa : list Z) (axis : Z)
    (Ha : shape a = Ok sa) :
  let ax := normalize_axis axis sa in
  (0 <= ax < Z.of_nat (length sa) ->
     EntrywiseReduceOpParameter_init op a axis
       = Ok (EntrywiseReduceOpParameter op a ax) /\
     shape (EntrywiseReduceOpParameter op a ax) = Ok sa) /\
  (~ 0 <= ax < Z.of_nat (length sa) ->
     EntrywiseReduceOpParameter_init op a axis = Raise AssertionError) /\
  (sa = [] ->
     EntrywiseReduceOpParameter_init op a axis = Raise AssertionError).
Proof.
  intros ax.
  assert (Hbad : ~ 0 <= ax < Z.of_nat (length sa) ->
            EntrywiseReduceOpParameter_init op a axis = Raise AssertionError).
  { intros Hn. unfold EntrywiseReduceOpParameter_init. rewrite Ha. simpl.
    fold ax. rewrite (py_assert_false (axis_in_range ax sa)); [done|].
    apply not_true_is_false. by rewrite axis_in_range_spec. }
  split_and!; [|done|].
  - intros Hax. split; [|done].
    unfold EntrywiseReduceOpParameter_init. rewrite Ha. simpl. fold ax.
    by rewrite (py_assert_true (axis_in_range ax sa))
      by (by apply axis_in_range_spec).
  - intros ->. apply Hbad. simpl. lia.
Qed.

(** X20: the constructors that take an axis store the normalised axis,
    which is in range, and the constructor applied to the operands and
    the stored axis (the [config] of the node) builds the same node; an
    axis between minus the rank and -1 denotes the axis counted from the
    end. *)
Theorem axis_config_round_trip
    (a b : AbstractParameter) (sa sb : list Z) (axis : Z)
    (Ha : shape a = Ok sa) (Hb : shape b = Ok sb) :
  let ax := normalize_axis axis sa in
  (forall p, OuterProductParameter_init a b axis = Ok p ->
     p = OuterProductParameter a b ax /\ 0 <= ax < Z.of_nat (length sa) /\
     OuterProductParameter_init a b ax = Ok p) /\
  (forall p, OuterSumParameter_init a b axis = Ok p ->
     p = OuterSumParameter a b ax /\ 0 <= ax < Z.of_nat (length sa) /\
     OuterSumParameter_init a b ax = Ok p) /\
  (forall op p, ReduceOpParameter_init op a axis = Ok p ->
     p = ReduceOpParameter op a ax /\ 0 <= ax < Z.of_nat (length sa) /\
     ReduceOpParameter_init op a ax = Ok p) /\
  (forall op p, EntrywiseReduceOpParameter_init op a axis = Ok p ->
     p = EntrywiseReduceOpParameter op a ax /\
     0 <= ax < Z.of_nat (length sa) /\
     EntrywiseReduceOpParameter_init op a ax = Ok p) /\
  (- Z.of_nat (length sa) <= axis < 0 ->
     0 <= ax < Z.of_nat (length sa) /\ ax = axis + Z.of_nat (length sa)).
Proof.
  intros ax. split_and!.
  - intros p Hp. pose proof Hp as Hp'.
    unfold OuterProductParameter_init in Hp. rewrite Ha, Hb in Hp.
    simpl in Hp. fold ax in Hp.
    destruct (py_assert (bool_decide (length sa = length sb)));
      simpl in Hp; [|done].
    destruct (py_assert (axis_in_range ax sa)) eqn:Hax; simpl in Hp; [|done].
    destruct (py_assert (bool_decide (slice_to _ _ = _))); simpl in Hp;
      [|done].
    destruct (py_assert (bool_decide (slice_from _ _ = _))); simpl in Hp;
      [|done].
    injection Hp as <-.
    apply py_assert_Ok_inv, axis_in_range_spec in Hax.
    split; [done|]. split; [done|].
    unfold OuterProductParameter_init in Hp' |- *.
    rewrite Ha, Hb in Hp' |- *. simpl in Hp' |- *.
    by rewrite (normalize_axis_nonneg ax) by lia.
  - intros p (Hlen & Hax & ->)%(OuterSumParameter_init_inv _ _ _ sa sb);
      try done.
    split; [done|]. split; [done|].
    rewrite (OuterSumParameter_init_ok a b ax sa sb Ha Hb Hlen);
      by rewrite (normalize_axis_nonneg ax) by lia.
  - intros op p Hp. pose proof Hp as Hp'.
    unfold ReduceOpParameter_init in Hp. rewrite Ha in Hp. simpl in Hp.
    fold ax in Hp.
    destruct (py_assert (axis_in_range ax sa)) eqn:Hax; simpl in Hp; [|done].
    injection Hp as <-.
    apply py_assert_Ok_inv, axis_in_range_spec in Hax.
    split; [done|]. split; [done|].
    unfold ReduceOpParameter_init in Hp' |- *.
    rewrite Ha in Hp' |- *. simpl in Hp' |- *.
    by rewrite (normalize_axis_nonneg ax) by lia.
  - intros op p Hp. pose proof Hp as Hp'.
    unfold EntrywiseReduceOpParameter_init in Hp. rewrite Ha in Hp.
    simpl in Hp. fold ax in Hp.
    destruct (py_assert (axis_in_range ax sa)) eqn:Hax; simpl in Hp; [|done].
    injection Hp as <-.
    apply py_assert_Ok_inv, axis_in_range_spec in Hax.
    split; [done|]. split; [done|].
    unfold EntrywiseReduceOpParameter_init in Hp' |- *.
    rewrite Ha in Hp' |- *. simpl in Hp' |- *.
    by rewrite (normalize_axis_nonneg ax) by lia.
  - intros Hneg. unfold ax, normalize_axis.
    rewrite decide_False by lia. lia.
Qed.

End axis_parameters.

Section nary_shapes.
Import params nary_params.

Lemma one_shape_spec (shapes : list (list Z)) :
  one_shape shapes = true <->
  exists s shapes', shapes = s :: shapes' /\ Forall (fun s' => s' = s) shapes'.
Proof.
  destruct shapes as [|s shapes']; simpl.
  - split; [done|]. by intros (? & ? & ? & _).
  - rewrite forallb_true_iff. split.
    + intros H. exists s, shapes'. split; [done|].
      apply Forall_forall. intros s' Hs'.
      specialize (H s' Hs'). by apply bool_decide_eq_true in H.
    + intros (s0 & shapes0 & [= <- <-] & H) s' Hs'.
      apply bool_decide_eq_true. by apply (proj1 (Forall_forall _ _) H).
Qed.

Lemma mapM_cons_inv {A B} (f : A -> result B) l y ys :
  mapM f l = Ok (y :: ys) ->
  exists x l', l = x :: l' /\ f x = Ok y /\ mapM f l' = Ok ys.
Proof.
  destruct l as [|x l']; simpl; [done|]. intros H.
  destruct (f x) as [y'|] eqn:Hx; simpl in H; [|done].
  destruct (mapM f l') as [ys'|] eqn:Hl; simpl in H; [|done].
  injection H as -> ->. by eexists _, _.
Qed.

(** X21: an EntrywiseSum node is built exactly when there is an operand
    and all operands have one shape, which is then the shape of the node;
    otherwise (no operand included) the constructor raises
    [AssertionError]. *)
Theorem EntrywiseSumParameter_init_shape
    (opds : list AbstractParameter) (shapes : list (list Z))
    (Hshapes : mapM shape opds = Ok shapes) :
  (forall s shapes',
     shapes = s :: shapes' -> Forall (fun s' => s' = s) shapes' ->
     EntrywiseSumParameter_init opds = Ok (mkEntrywiseSumParameter opds) /\
     EntrywiseSumParameter_shape (mkEntrywiseSumParameter opds) = Ok s) /\
  (~ (exists s shapes',
        shapes = s :: shapes' /\ Forall (fun s' => s' = s) shapes') ->
     EntrywiseSumParameter_init opds = Raise AssertionError) /\
  (forall p, EntrywiseSumParameter_init opds = Ok p ->
     exists s, EntrywiseSumParameter_shape p = Ok s /\
               Forall (fun opd => shape opd = Ok s) opds).
Proof.
  assert (Hok : forall s shapes',
            shapes = s :: shapes' -> Forall (fun s' => s' = s) shapes' ->
            EntrywiseSumParameter_init opds = Ok (mkEntrywiseSumParameter opds)
            /\ EntrywiseSumParameter_shape (mkEntrywiseSumParameter opds)
               = Ok s /\
            Forall (fun opd => shape opd = Ok s) opds).
  { intros s shapes' -> Hall.
    unfold EntrywiseSumParameter_init, EntrywiseSumParameter_shape.
    rewrite Hshapes. simpl.
    rewrite (py_assert_true (forallb _ _)).
    2: { apply forallb_true_iff. intros s' Hs'. apply bool_decide_eq_true.
         by apply (proj1 (Forall_forall _ _) Hall). }
    split; [done|].
    pose proof (mapM_Forall2 _ _ _ Hshapes) as HF.
    destruct (mapM_cons_inv _ _ _ _ Hshapes) as (opd & opds' & -> & Hopd & _).
    split; [done|].
    apply Forall_forall. intros x [i Hi]%list_elem_of_lookup_1.
    destruct (Forall2_lookup_l _ _ _ _ _ HF Hi) as (s' & Hs' & Hx).
    rewrite Hx. f_equal.
    destruct i as [|i]; simpl in Hs'; [congruence|].
    apply (proj1 (Forall_forall _ _) Hall). by eapply list_elem_of_lookup_2. }
  split_and!.
  - intros s shapes' Heq Hall. destruct (Hok s shapes' Heq Hall) as (? & ? & _).
    done.
  - intros Hn. unfold EntrywiseSumParameter_init. rewrite Hshapes. simpl.
    rewrite (py_assert_false (one_shape shapes)); [done|].
    apply not_true_is_false. by rewrite one_shape_spec.
  - intros p Hp. pose proof Hp as Hp'.
    unfold EntrywiseSumParameter_init in Hp. rewrite Hshapes in Hp.
    simpl in Hp.
    destruct (one_shape shapes) eqn:Hone; simpl in Hp; [|done].
    injection Hp as <-.
    apply one_shape_spec in Hone as (s & shapes' & Heq & Hall).
    exists s. by destruct (Hok s shapes' Heq Hall) as (_ & ? & ?).
Qed.

(** X22: a Stack node over operands of one shape [s] is built exactly
    when the (normalised) axis is in range for [s]; its shape is
    [s[:axis]], the number of operands, and [s[:axis]] again.  Otherwise
    the constructor raises [AssertionError]. *)
Theorem StackOpParameter_init_shape
    (opds : list AbstractParameter) (s : list Z) (shapes' : list (list Z))
    (axis : Z)
    (Hshapes : mapM shape opds = Ok (s :: shapes'))
    (Hall : Forall (fun s' => s' = s) shapes') :
  let ax := normalize_axis axis s in
  (0 <= ax < Z.of_nat (length s) ->
     StackOpParameter_init opds axis = Ok (mkStackOpParameter opds ax) /\
     StackOpParameter_shape (mkStackOpParameter opds ax)
       = Ok (take (Z.to_nat ax) s ++ [Z.of_nat (length opds)] ++
             take (Z.to_nat ax) s)) /\
  (~ 0 <= ax < Z.of_nat (length s) ->
     StackOpParameter_init opds axis = Raise AssertionError).
Proof.
  intros ax.
  destruct (mapM_cons_inv _ _ _ _ Hshapes) as (opd & opds' & -> & Hopd & _).
  assert (Hone : one_shape (s :: shapes') = true).
  { apply one_shape_spec. by eexists _, _. }
  split.
  - intros Hax. split.
    + unfold StackOpParameter_init. rewrite Hshapes. simpl in *.
      rewrite Hone. simpl. unfold index. simpl. rewrite Hopd. simpl.
      fold ax. by rewrite (py_assert_true (axis_in_range ax s))
        by (by apply axis_in_range_spec).
    + unfold StackOpParameter_shape, index. simpl. rewrite Hopd. simpl.
      by rewrite slice_to_nonneg by lia.
  - intros Hn. unfold StackOpParameter_init. rewrite Hshapes. simpl in *.
    rewrite Hone. simpl. unfold index. simpl. rewrite Hopd. simpl. fold ax.
    rewrite (py_assert_false (axis_in_range ax s)); [done|].
    apply not_true_is_false. by rewrite axis_in_range_spec.
Qed.

End nary_shapes.

Section parameter_examples.
Import params built_params nary_params.

Lemma built_shape_witness :
  built (OuterProductParameter (Parameter_ [2; 3; 5]) (Parameter_ [2; 4; 5]) 1)
  /\ exists s,
       shape (OuterProductParameter (Parameter_ [2; 3; 5])
                (Parameter_ [2; 4; 5]) 1) = Ok s.
Proof.
  assert (Hb : built (OuterProductParameter (Parameter_ [2; 3; 5])
                        (Parameter_ [2; 4; 5]) 1)).
  { apply (built_OuterProductParameter (Parameter_ [2; 3; 5])
             (Parameter_ [2; 4; 5]) (-2)); [constructor|constructor|].
    reflexivity. }
  split; [exact Hb|]. exact (built_shape _ Hb).
Defined.

Lemma OuterSumParameter_init_shape_witness :
  OuterSumParameter_init (Parameter_ [2; 3; 5]) (Parameter_ [7; 4; 9]) (-2)
    = Ok (OuterSumParameter (Parameter_ [2; 3; 5]) (Parameter_ [7; 4; 9]) 1)
  /\ shape (OuterSumParameter (Parameter_ [2; 3; 5]) (Parameter_ [7; 4; 9]) 1)
    = Ok [2; 12; 5].
Proof.
  destruct (OuterSumParameter_init_shape
              (Parameter_ [2; 3; 5]) (Parameter_ [7; 4; 9])
              [2; 3; 5] [7; 4; 9] (-2) eq_refl eq_refl) as [Hok _].
  destruct Hok as (da & db & _ & _ & Hinit & _).
  - unfold normalize_axis. simpl. lia.
  - split; [exact Hinit|reflexivity].
Defined.

Lemma EntrywiseReduceOpParameter_init_shape_witness :
  EntrywiseReduceOpParameter_init SoftmaxOp (Parameter_ [2; 3; 5]) (-1)
    = Ok (EntrywiseReduceOpParameter SoftmaxOp (Parameter_ [2; 3; 5]) 2)
  /\ shape (EntrywiseReduceOpParameter SoftmaxOp (Parameter_ [2; 3; 5]) 2)
    = Ok [2; 3; 5].
Proof.
  refine (proj1 (EntrywiseReduceOpParameter_init_shape SoftmaxOp
                   (Parameter_ [2; 3; 5]) [2; 3; 5] (-1) eq_refl) _).
  unfold normalize_axis. simpl. lia.
Defined.

Lemma axis_config_round_trip_witness :
  ReduceOpParameter_init ReduceSumOp (Parameter_ [2; 3; 5]) (-1)
    = Ok (ReduceOpParameter ReduceSumOp (Parameter_ [2; 3; 5]) 2) /\
  ReduceOpParameter_init ReduceSumOp (Parameter_ [2; 3; 5]) 2
    = Ok (ReduceOpParameter ReduceSumOp (Parameter_ [2; 3; 5]) 2).
Proof.
  destruct (axis_config_round_trip (Parameter_ [2; 3; 5])
              (Parameter_ [2; 3; 5]) [2; 3; 5] [2; 3; 5] (-1)
              eq_refl eq_refl) as (_ & _ & Hreduce & _).
  split; [reflexivity|].
  exact (proj2 (proj2 (Hreduce ReduceSumOp _ eq_refl))).
Defined.

Lemma EntrywiseSumParameter_init_shape_witness :
  EntrywiseSumParameter_init [Parameter_ [2; 3]; Parameter_ [2; 3]]
    = Ok (mkEntrywiseSumParameter [Parameter_ [2; 3]; Parameter_ [2; 3]]) /\
  EntrywiseSumParameter_shape
    (mkEntrywiseSumParameter [Parameter_ [2; 3]; Parameter_ [2; 3]])
    = Ok [2; 3].
Proof.
  refine (proj1 (EntrywiseSumParameter_init_shape
                   [Parameter_ [2; 3]; Parameter_ [2; 3]] [[2; 3]; [2; 3]]
                   eq_refl) [2; 3] [[2; 3]] eq_refl _).
  by repeat constructor.
Defined.

Lemma StackOpParameter_init_shape_witness :
  StackOpParameter_init [Parameter_ [2; 3; 5]; Parameter_ [2; 3; 5]] (-2)
    = Ok (mkStackOpParameter [Parameter_ [2; 3; 5]; Parameter_ [2; 3; 5]] 1)
  /\ StackOpParameter_shape
       (mkStackOpParameter [Parameter_ [2; 3; 5]; Parameter_ [2; 3; 5]] 1)
     = Ok [2; 2; 2].
Proof.
  refine (proj1 (StackOpParameter_init_shape
                   [Parameter_ [2; 3; 5]; Parameter_ [2; 3; 5]]
                   [2; 3; 5] [[2; 3; 5]] (-2) eq_refl _) _).
  - by repeat constructor.
  - unfold normalize_axis. simpl. lia.
Defined.

End parameter_examples.

(** ** Side effects of the ordering, and the order that [integrate] needs *)

Section ordering_side_effects.
Import layers symb_circuit.

Lemma layers_topological_ordering_frame set_iter sc :
  symb_circuit.scope (layers_topological_ordering set_iter sc).2
    = symb_circuit.scope sc /\
  operation (layers_topological_ordering set_iter sc).2 = operation sc.
Proof.
  unfold layers_topological_ordering.
  destruct (run_output_layers _ _) as [outs out'].
  destruct (topological_ordering _ _ _ _) as [ordering in']. done.
Qed.

Lemma is_smooth_same sc sc' :
  layers sc' = layers sc ->
  (forall sl, layer_inputs sc' sl = layer_inputs sc sl) ->
  is_smooth sc' = is_smooth sc.
Proof.
  intros Hl Hin. unfold is_smooth, sum_layers. rewrite Hl.
  apply eq_true_iff_eq. rewrite !forallb_true_iff.
  split; intros H x Hx; specialize (H x Hx).
  - by rewrite <- Hin.
  - by rewrite Hin.
Qed.

Lemma is_decomposable_same sc sc' :
  layers sc' = layers sc ->
  (forall sl, layer_inputs sc' sl = layer_inputs sc sl) ->
  is_decomposable sc' = is_decomposable sc.
Proof.
  intros Hl Hin. unfold is_decomposable, product_layers. rewrite Hl.
  f_equal. apply eq_true_iff_eq. rewrite !existsb_true_iff.
  split; intros (x & Hx & H); exists x; (split; [done|]).
  - by rewrite <- Hin.
  - by rewrite Hin.
Qed.

(** X23: [layers_topological_ordering] looks layers up in the adjacency
    dictionaries, which gain default entries, but it changes nothing that
    the circuit shows: the scope, the operation, the layers, the inputs
    and the outputs of every layer, the output and the inner layers, and
    the results of [is_smooth] and [is_decomposable] are as before the
    call. *)
Theorem layers_topological_ordering_keeps_views
    (set_iter : list Layer -> list Layer) (sc : SymbCircuit) :
  let sc' := (layers_topological_ordering set_iter sc).2 in
  symb_circuit.scope sc' = symb_circuit.scope sc /\
  operation sc' = operation sc /\
  layers sc' = layers sc /\
  (forall sl, layer_inputs sc' sl = layer_inputs sc sl) /\
  (forall sl, layer_outputs sc' sl = layer_outputs sc sl) /\
  output_layers sc' = output_layers sc /\
  inner_layers sc' = inner_layers sc /\
  is_smooth sc' = is_smooth sc /\
  is_decomposable sc' = is_decomposable sc.
Proof.
  intros sc'.
  destruct (layers_topological_ordering_frame set_iter sc) as [Hscope Hop].
  destruct (layers_topological_ordering_spec set_iter sc (layer_inputs sc))
    as (sc1 & Heq & Hl & [Hin _] & [Hout _]); [done|].
  assert (Hsc : sc' = sc1) by (unfold sc'; by rewrite Heq).
  assert (Hin' : forall sl, layer_inputs sc' sl = layer_inputs sc sl).
  { intros sl. rewrite Hsc. unfold layer_inputs. by rewrite Hin. }
  assert (Hout' : forall sl, layer_outputs sc' sl = layer_outputs sc sl).
  { intros sl. rewrite Hsc. unfold layer_outputs. by rewrite Hout. }
  assert (Hl' : layers sc' = layers sc) by (by rewrite Hsc).
  split_and!; try done.
  - unfold output_layers. rewrite Hl'. apply list_filter_iff.
    intros x. by rewrite Hout'.
  - unfold inner_layers. rewrite Hl'. apply list_filter_iff.
    intros x. by rewrite Hin'.
  - by apply is_smooth_same.
  - by apply is_decomposable_same.
Qed.

End ordering_side_effects.

Section integration_order.
Import layers symb_circuit functional.

Lemma dict_setitem_keys {V} (d : list (nat * V)) k v k' :
  k' ∈ (dict_setitem d k v).*1 -> k' = k \/ k' ∈ d.*1.
Proof.
  induction d as [|[k0 v0] d IH]; simpl.
  - intros ->%list_elem_of_singleton. by left.
  - case_decide as Hk; simpl.
    + subst k0. intros [->|Hin]%elem_of_cons; [by left|].
      right. by right.
    + intros [->|Hin]%elem_of_cons; [right; by left|].
      destruct (IH Hin) as [->|?]; [by left|]. right. by right.
Qed.

Lemma dict_getitem_missing {V} (d : list (nat * V)) k :
  k ∉ d.*1 -> dict_getitem d k = Raise KeyError.
Proof.
  induction d as [|[k0 v0] d IH]; simpl; [done|].
  intros [Hne Hk]%not_elem_of_cons. rewrite decide_False by done.
  by apply IH.
Qed.

Lemma dict_getitem_present {V} (d : list (nat * V)) k :
  k ∈ d.*1 -> exists v, dict_getitem d k = Ok v.
Proof.
  induction d as [|[k0 v0] d IH]; simpl; [by intros ?%elem_of_nil|].
  intros Hk. case_decide as Hk0; [by eexists|].
  apply elem_of_cons in Hk as [->|Hk]; [done|]. by apply IH.
Qed.

Lemma mapM_getitem_missing {V} (d : list (nat * V)) (l : list Layer) isl :
  isl ∈ l -> lid isl ∉ d.*1 ->
  mapM (fun isl => dict_getitem d (lid isl)) l = Raise KeyError.
Proof.
  intros Hin Hk. induction l as [|x l IH]; [by apply elem_of_nil in Hin|].
  simpl. destruct (decide (lid x ∈ d.*1)) as [Hx|Hx].
  - apply elem_of_cons in Hin as [->|Hin]; [done|].
    rewrite (IH Hin).
    by destruct (dict_getitem_present d _ Hx) as [v ->].
  - by rewrite (dict_getitem_missing d _ Hx).
Qed.

Lemma integrate_layer_keys registry sc s st sl st' :
  integrate_layer registry sc s st sl = Ok st' ->
  forall k, k ∈ (map_layers st').*1 -> k = lid sl \/ k ∈ (map_layers st).*1.
Proof.
  unfold integrate_layer. intros H k.
  repeat case_match; simplify_eq/=;
    repeat match goal with
    | H : (_ ≫= _) = Ok _ |- _ =>
        apply bind_Ok_inv in H as (? & ? & H); simpl in H
    end; simplify_eq/=; apply dict_setitem_keys.
Qed.

Lemma integrate_layers_keys registry sc s ls : forall st st',
  integrate_layers registry sc s st ls = Ok st' ->
  forall k, k ∈ (map_layers st').*1 ->
    k ∈ lid <$> ls \/ k ∈ (map_layers st).*1.
Proof.
  induction ls as [|sl ls IH]; intros st st'; simpl.
  - intros [= <-] k Hk. by right.
  - intros (st1 & Hstep & Hrest)%bind_Ok_inv k Hk.
    destruct (IH _ _ Hrest k Hk) as [Hin|Hin].
    + left. by right.
    + destruct (integrate_layer_keys _ _ _ _ _ _ Hstep k Hin) as [->|Hin'].
      * left. by left.
      * by right.
Qed.

Lemma integrate_layers_app registry sc s ls1 ls2 : forall st,
  integrate_layers registry sc s st (ls1 ++ ls2)
    = (st' ← integrate_layers registry sc s st ls1;
       integrate_layers registry sc s st' ls2).
Proof.
  induction ls1 as [|sl ls1 IH]; intros st; simpl; [done|].
  destruct (integrate_layer registry sc s st sl) as [st1|]; simpl; [|done].
  apply IH.
Qed.

(** X24: [integrate] needs the layers in topological order.  On a circuit
    that passes the structural check, with an integration scope within
    its scope, if the loop has rewritten the layers [done] and the next
    layer is a sum or a product layer one of whose inputs is not among
    [done], then [integrate] raises [KeyError]. *)
Theorem integrate_unordered_KeyError (sc : SymbCircuit)
    (scope : option Scope) (registry : SymOperatorRegistry) (fresh : nat)
    (done rest : list Layer) (sl isl : Layer) (st : rewrite) :
  let s := default (symb_circuit.scope sc) scope in
  is_smooth sc = true -> is_decomposable sc = true ->
  s ⊆ symb_circuit.scope sc ->
  layers sc = done ++ sl :: rest ->
  integrate_layers registry sc s (mkRewrite [] ∅ ∅ fresh) done = Ok st ->
  is_InputLayer (lclass sl) = false ->
  isl ∈ layer_inputs sc sl -> lid isl ∉ lid <$> done ->
  integrate sc scope registry fresh = Raise KeyError.
Proof.
  intros s Hsm Hde Hsub Hlayers Hdone Hcls Hisl Hmissing.
  rewrite (integrate_checks_passed sc scope registry fresh Hsm Hde Hsub).
  fold s. rewrite Hlayers, integrate_layers_app, Hdone. simpl.
  unfold integrate_layer. rewrite Hcls. simpl.
  rewrite (layer_class_cases _ Hcls). simpl.
  rewrite (mapM_getitem_missing (map_layers st) _ isl Hisl); [done|].
  intros Hk.
  destruct (integrate_layers_keys _ _ _ _ _ _ Hdone _ Hk) as [Hin|Hin];
    [done|].
  by apply elem_of_nil in Hin.
Qed.

End integration_order.

Section more_witnesses.
Import layers symb_circuit functional.

Lemma integrate_unordered_KeyError_witness :
  integrate more_examples.dense_before_input None default_registry 2
    = Raise KeyError.
Proof.
  apply (integrate_unordered_KeyError more_examples.dense_before_input None
           default_registry 2 []
           [examples.categorical_2]
           (with_attrs (Layer_init 1 DenseLayer {[0%nat]} 2 1 1) None
              [("weight", Some (TensorParameter [1; 2] NormalInitializer))])
           examples.categorical_2 (mkRewrite [] ∅ ∅ 2)).
  - by vm_compute.
  - by vm_compute.
  - done.
  - reflexivity.
  - reflexivity.
  - reflexivity.
  - change (layer_inputs more_examples.dense_before_input
              (with_attrs (Layer_init 1 DenseLayer {[0%nat]} 2 1 1) None
                 [("weight", Some (TensorParameter [1; 2] NormalInitializer))]))
      with [examples.categorical_2].
    by left.
  - simpl. apply not_elem_of_nil.
Defined.

End more_witnesses.

(** ** The outcomes of [integrate] *)

Section integration_outcomes.
Import layers symb_circuit functional.

Lemma inputs_listed_before_app sc ls1 ls2 : forall seen,
  inputs_listed_before sc seen (ls1 ++ ls2) = true ->
  inputs_listed_before sc seen ls1 = true.
Proof.
  induction ls1 as [|sl ls1 IH]; intros seen; simpl; [done|].
  intros [Hsl Hrest]%andb_true_iff. rewrite Hsl. simpl. by eapply IH.
Qed.

Lemma input_class_not_inner (c : LayerClass) :
  is_InputLayer c = true -> is_SumLayer c || is_ProductLayer c = false.
Proof. by destruct c. Qed.

(** X25: the outcomes of [integrate].  It raises
    [StructuralPropertyError] when [is_smooth] or [is_decomposable] is
    [False], and [ValueError] when they are [True] and the integration
    scope is not a subset of the scope of the circuit.  Otherwise, for a
    circuit whose layers are listed after their inputs and a registry
    that has a working integration rule for its input layers, the outcome
    is decided by the first input layer that the integration scope does
    not contain or does not meet: [integrate] returns a circuit when there
    is none, raises [AssertionError] when that layer does not meet the
    integration scope, and raises [NotImplementedError] when it meets the
    integration scope without being contained in it. *)
Theorem integrate_outcomes (sc : SymbCircuit) (scope : option Scope)
    (registry : SymOperatorRegistry) (fresh : nat) :
  let s := default (symb_circuit.scope sc) scope in
  let good sl :=
    is_InputLayer (lclass sl) = true ->
    layers.scope sl ∩ s ≠ ∅ /\ layers.scope sl ⊆ s in
  (is_smooth sc = false \/ is_decomposable sc = false ->
     integrate sc scope registry fresh = Raise StructuralPropertyError) /\
  (is_smooth sc = true -> is_decomposable sc = true ->
   ~ s ⊆ symb_circuit.scope sc ->
     integrate sc scope registry fresh = Raise ValueError) /\
  (is_smooth sc = true -> is_decomposable sc = true ->
   s ⊆ symb_circuit.scope sc ->
   inputs_listed_before sc [] (layers sc) = true ->
   rules_apply registry sc ->
     ((forall sl, sl ∈ layers sc -> good sl) ->
        exists c, integrate sc scope registry fresh = Ok c) /\
     (forall done sl rest,
        layers sc = done ++ sl :: rest ->
        (forall sl', sl' ∈ done -> good sl') ->
        is_InputLayer (lclass sl) = true ->
        (layers.scope sl ∩ s = ∅ ->
           integrate sc scope registry fresh = Raise AssertionError) /\
        (layers.scope sl ∩ s ≠ ∅ -> ~ layers.scope sl ⊆ s ->
           integrate sc scope registry fresh = Raise NotImplementedError))).
Proof.
  intros s good. split_and!.
  - intros [H|H]; unfold integrate; rewrite H; simpl; [done|].
    by rewrite orb_true_r.
  - intros Hsm Hde Hns. unfold integrate. rewrite Hsm, Hde. simpl.
    rewrite bool_decide_eq_true_2; [done|].
    intros Heq. apply Hns. fold s in Heq. by apply subseteq_union_L.
  - intros Hsm Hde Hsub Htopo Hrules.
    rewrite (integrate_checks_passed sc scope registry fresh Hsm Hde Hsub).
    fold s. split.
    + intros Hgood.
      destruct (integrate_layers_outcome registry sc s (layers sc)
                  (mkRewrite [] ∅ ∅ fresh) []) as [_ Hok]; try done.
      { intros k Hk. by apply elem_of_nil in Hk. }
      { intros sl Hsl Hcls. by apply Hgood. }
      destruct Hok as [st' ->]; [|by eexists].
      intros sl Hsl Hcls. by apply Hgood.
    + intros done sl rest Hlayers Hdone Hcls.
      assert (exists st, integrate_layers registry sc s
                           (mkRewrite [] ∅ ∅ fresh) done = Ok st)
        as [st Hst].
      { destruct (integrate_layers_outcome registry sc s done
                    (mkRewrite [] ∅ ∅ fresh) []) as [_ Hok].
        - intros k Hk. by apply elem_of_nil in Hk.
        - rewrite Hlayers in Htopo. by eapply inputs_listed_before_app.
        - intros sl' Hsl'. apply Hrules. rewrite Hlayers.
          apply elem_of_app. by left.
        - intros sl' Hsl' Hcls'. by apply Hdone.
        - apply Hok. intros sl' Hsl' Hcls'. by apply Hdone. }
      rewrite Hlayers, integrate_layers_app, Hst. simpl.
      unfold integrate_layer. rewrite Hcls. simpl. split.
      * intros Hempty. unfold scope_truthy.
        rewrite bool_decide_eq_false_2 by (by intros Hne; apply Hne).
        by rewrite (input_class_not_inner _ Hcls).
      * intros Hmeet Hns. unfold scope_truthy.
        rewrite bool_decide_eq_true_2 by done.
        by rewrite bool_decide_eq_false_2 by done.
Qed.

Lemma integrate_outcomes_witness :
  (exists c,
     integrate examples.input_then_dense None default_registry 2 = Ok c) /\
  integrate examples.two_inputs (Some {[0%nat]}) default_registry 2
    = Raise AssertionError /\
  (fun sl => (lclass sl, layers.scope sl))
    <$> layers more_examples.product_input
    = [(CategoricalLayer, {[0%nat; 1%nat]})] /\
  integrate more_examples.product_input (Some {[0%nat]}) default_registry 3
    = Raise NotImplementedError.
Proof.
  split_and!.
  - destruct (integrate_outcomes examples.input_then_dense None
                default_registry 2) as (_ & _ & H).
    refine (proj1 (H _ _ _ _ _) _).
    + by vm_compute.
    + by vm_compute.
    + done.
    + by vm_compute.
    + intros sl [->|[->|Hin]%elem_of_cons]%elem_of_cons Hcls;
        [ | discriminate Hcls | by apply elem_of_nil in Hin ].
      eexists. split; [reflexivity|]. intros id. by eexists.
    + intros sl [->|[->|Hin]%elem_of_cons]%elem_of_cons Hcls;
        [ | discriminate Hcls | by apply elem_of_nil in Hin ].
      split; [by vm_compute|done].
  - destruct (integrate_outcomes examples.two_inputs (Some {[0%nat]})
                default_registry 2) as (_ & _ & H).
    refine (proj1 (proj2 (H _ _ _ _ _) [examples.categorical_2] _ []
                     eq_refl _ eq_refl) _).
    + by vm_compute.
    + by vm_compute.
    + simpl. set_solver.
    + by vm_compute.
    + intros sl [->|[->|Hin]%elem_of_cons]%elem_of_cons Hcls;
        [ | | by apply elem_of_nil in Hin ];
        (eexists; split; [reflexivity|]; intros id; by eexists).
    + intros sl' ->%list_elem_of_singleton _. split; [by vm_compute|done].
    + simpl. set_solver.
  - by vm_compute.
  - destruct (integrate_outcomes more_examples.product_input
                (Some {[0%nat]}) default_registry 3) as (_ & _ & H).
    refine (proj2 (proj2 (H _ _ _ _ _) [] _ [] eq_refl _ eq_refl) _ _).
    + by vm_compute.
    + by vm_compute.
    + simpl. set_solver.
    + by vm_compute.
    + intros sl [->|Hin]%elem_of_cons Hcls; [|by apply elem_of_nil in Hin].
      eexists. split; [reflexivity|]. intros id. by eexists.
    + intros sl' Hin. by apply elem_of_nil in Hin.
    + by vm_compute.
    + simpl. intros Hsub. specialize (Hsub 1%nat).
      rewrite elem_of_singleton in Hsub. discriminate Hsub.
      apply elem_of_union_r. by apply elem_of_singleton.
Defined.

End integration_outcomes.
